(** * Hangman server: session and round state machine

    A shallow embedding of the socket handlers of the hangman server and
    the properties of its session / round state machine.

    The repository holds several generations of the server.  Two of them
    are embedded in full, each in a module of its own, and the projection of
    a third one:

    - [Baseline]   : the "stable baseline (full)" server of [server.js]
                     (4-char codes, at most 10 players, at least 2 to start,
                     rounds-as-laps, settings lock, rejoin by name);
    - [WrongLimit] : the server with the wrong-guess limit ([wrongLimit],
                     [unlimitedWrong], [finishRoundWithSetterWin]);
    - [Early]      : the data, [normalizePhrase] and [emitGameState] of the
                     first server of [server.js].

    Modelling conventions.
    - A JavaScript string is a [string] of ASCII characters; [toUpperCase],
      [trim] and the [\s] class are the ASCII restrictions of the ECMAScript
      ones.  A payload field that the handlers convert with [String(..)] is
      a string; a field they test with [Number.isInteger] or [typeof] is an
      [option], [None] when the test fails.
    - A socket id, a session code and a player name are strings, a guessed
      letter is a character.
    - The [sessions] Map is a [gmap string Session]; [socket.data.code] of
      every socket is kept in a second map.  A handler mutates the session
      object it looked up, which the model writes back under the same code.
    - [io.to(..).emit] and [socket.emit] append to the list of emitted
      messages that a handler returns, in program order; room membership
      ([socket.join]) is left to the transport.
    - [Date.now()] and the code drawn by [makeCode] are carried by the event.
    - A handler returns [None] where the JavaScript would throw, and where
      the code carried by the event is not one that [makeCode] can return. *)

From stdpp Require Import base option list gmap strings.
From Stdlib Require Import ZArith Lia Ascii DecimalString.

Local Open Scope Z_scope.
Local Open Scope stdpp_scope.

(** ** JavaScript strings (ASCII) *)

Module JsString.

Definition code (c : ascii) : N := N_of_ascii c.

(** [/[A-Z]/.test(ch)] *)
Definition isUpperAZ (c : ascii) : bool :=
  ((65 <=? code c) && (code c <=? 90))%N.

(** [/[a-z]/.test(ch)] *)
Definition isLowerAZ (c : ascii) : bool :=
  ((97 <=? code c) && (code c <=? 122))%N.

(** [/[A-Za-z]/.test(ch)] *)
Definition isLetter (c : ascii) : bool := isUpperAZ c || isLowerAZ c.

(** [/[0-9]/.test(ch)] *)
Definition isDigit (c : ascii) : bool :=
  ((48 <=? code c) && (code c <=? 57))%N.

(** [/\s/.test(ch)]: TAB, LF, VT, FF, CR and SPACE. *)
Definition isSpace (c : ascii) : bool :=
  ((9 <=? code c) && (code c <=? 13) || (code c =? 32))%N.

(** [ch.toUpperCase()] *)
Definition upperChar (c : ascii) : ascii :=
  if isLowerAZ c then ascii_of_N (code c - 32) else c.

Fixpoint smap (f : ascii → ascii) (s : string) : string :=
  match s with
  | EmptyString => EmptyString
  | String c r => String (f c) (smap f r)
  end.

Fixpoint sall (p : ascii → bool) (s : string) : bool :=
  match s with
  | EmptyString => true
  | String c r => p c && sall p r
  end.

(** [s.toUpperCase()] *)
Definition toUpperCase (s : string) : string := smap upperChar s.

(** [s.includes(ch)] for a one-character [ch] *)
Fixpoint includes (s : string) (ch : ascii) : bool :=
  match s with
  | EmptyString => false
  | String c r => bool_decide (c = ch) || includes r ch
  end.

(** [s.replace(/\s+/g, " ")]; [inRun] tells that the previous character
    belonged to the whitespace run being replaced. *)
Fixpoint collapseGo (inRun : bool) (s : string) : string :=
  match s with
  | EmptyString => EmptyString
  | String c r =>
      if isSpace c
      then (if inRun then collapseGo true r
            else String " "%char (collapseGo true r))
      else String c (collapseGo false r)
  end.
Definition collapseWhitespace (s : string) : string := collapseGo false s.

Fixpoint trimStart (s : string) : string :=
  match s with
  | EmptyString => EmptyString
  | String c r => if isSpace c then trimStart r else s
  end.

Fixpoint trimEnd (s : string) : string :=
  match s with
  | EmptyString => EmptyString
  | String c r =>
      match trimEnd r with
      | EmptyString => if isSpace c then EmptyString else String c EmptyString
      | r' => String c r'
      end
  end.

(** [s.trim()] *)
Definition trim (s : string) : string := trimEnd (trimStart s).

(** [s.slice(0, n)] *)
Fixpoint slice0 (n : nat) (s : string) : string :=
  match n, s with
  | S n', String c r => String c (slice0 n' r)
  | _, _ => EmptyString
  end.

(** [x || dflt] on a string [x]: the empty string is falsy. *)
Definition orElse (x dflt : string) : string :=
  match x with EmptyString => dflt | _ => x end.

Definition len (s : string) : Z := Z.of_nat (String.length s).

End JsString.
Import JsString.

(** ** Phrase normaliser *)

(** [allowed.includes(ch)] for the two allow-lists of the sources. *)
Definition allowedLetters : string := "ABCDEFGHIJKLMNOPQRSTUVWXYZ '-.".
Definition allowedLettersDigits : string :=
  "ABCDEFGHIJKLMNOPQRSTUVWXYZ0123456789 '-.".

(** [normalizePhrase(input)]:
<<
  const up = String(input || '').toUpperCase().replace(/\s+/g, " ").trim();
  for (const ch of up) if (!allowed.includes(ch)) return null;
  return up;
>>
    The first variant of [server.js] calls [input.toUpperCase()] directly;
    on a string that is the same, since [String(s || '')] is [s]. *)
Definition normalizePhrase (allowed : string) (input : string) : option string :=
  let up := trim (collapseWhitespace (toUpperCase (orElse input EmptyString))) in
  if sall (includes allowed) up then Some up else None.

(** ** The canonical form of a phrase, after the specification

  The specification describes the result of normalisation as the
  upper-cased input whose whitespace runs are collapsed to single spaces
  and whose ends are trimmed: the words of the input (maximal runs of
  characters that are not whitespace) joined by single spaces.  The
  definitions of this module are written after the specification and use
  nothing of the embedding of the source: the capitals, the digits, the
  punctuation and the whitespace characters are enumerated. *)

Module PhraseSpec.

Definition smallLetters : string := "abcdefghijklmnopqrstuvwxyz".
Definition capitalLetters : string := "ABCDEFGHIJKLMNOPQRSTUVWXYZ".

(** The capital at the place that [c] has among the small letters; every
    other character is itself. *)
Fixpoint capitalAt (small capitals : string) (c : ascii) : ascii :=
  match small, capitals with
  | String a small', String b capitals' =>
      if Ascii.eqb c a then b else capitalAt small' capitals' c
  | _, _ => c
  end.

Definition capital (c : ascii) : ascii :=
  capitalAt smallLetters capitalLetters c.

Fixpoint upper (s : string) : string :=
  match s with
  | EmptyString => EmptyString
  | String c r => String (capital c) (upper r)
  end.

(** The whitespace characters: TAB, LF, VT, FF, CR and the space *)
Definition blank (c : ascii) : bool :=
  match c with
  | "009" | "010" | "011" | "012" | "013" | " " => true
  | _ => false
  end%char.

Fixpoint words (s : string) : list string :=
  match s with
  | EmptyString => []
  | String c r =>
      if blank c then words r
      else match r with
           | EmptyString => [String c EmptyString]
           | String d _ =>
               if blank d then String c EmptyString :: words r
               else match words r with
                    | w :: ws => String c w :: ws
                    | [] => [String c EmptyString]
                    end
           end
  end.

Fixpoint unwords (ws : list string) : string :=
  match ws with
  | [] => EmptyString
  | w :: rest =>
      match rest with
      | [] => w
      | _ :: _ => w +:+ String " "%char (unwords rest)
      end
  end.

Definition canonical (input : string) : string := unwords (words (upper input)).

Definition letter (c : ascii) : bool :=
  match c with
  | "A" | "B" | "C" | "D" | "E" | "F" | "G" | "H" | "I" | "J" | "K" | "L" | "M"
  | "N" | "O" | "P" | "Q" | "R" | "S" | "T" | "U" | "V" | "W" | "X" | "Y" | "Z" =>
      true
  | _ => false
  end%char.





End PhraseSpec.

(** ** Data shared by the two servers *)

(** [game.state]: ["idle" | "waiting_phrase" | "active" | "won" | "over"] *)
Inductive GState := Idle | WaitingPhrase | Active | Won | Over.

Global Instance GState_eq_dec : EqDecision GState.
Proof. solve_decision. Defined.

(** One element of [session.players]: [{ id, name, isManager, score }] *)
Record Player := mkPlayer {
  id : string;
  name : string;
  isManager : bool;
  score : nat
}.

Global Instance Player_eq_dec : EqDecision Player.
Proof. solve_decision. Defined.

(** The entries of the [session:players] and [game:state] payloads *)
Record PlayerView := mkPlayerView {
  pv_id : string; pv_name : string; pv_isManager : bool; pv_score : nat
}.
Record ScoreView := mkScoreView { sv_id : string; sv_score : nat }.

(** Where a message goes: [socket.emit] or [io.to(code).emit] *)
Inductive Target := ToSocket (sid : string) | ToRoom (room : string).

(** The emitted messages; [V] is the type of the [game:state] payload. *)
Inductive Msg (V : Type) :=
| SessionCreated (code : string)
| SessionEnded
| SessionPlayers (code : string) (players : list PlayerView)
| GameState (view : V)
| GameHint (hint : string)
| PlayerJoined (code : string) (isManager : bool)
| ErrorJoin (message : string)
| ErrorPhrase (message : string)
| ErrorStart (message : string)
| SetterOk.
Arguments SessionCreated {V} code.
Arguments SessionEnded {V}.
Arguments SessionPlayers {V} code players.
Arguments GameState {V} view.
Arguments GameHint {V} hint.
Arguments PlayerJoined {V} code isManager.
Arguments ErrorJoin {V} message.
Arguments ErrorPhrase {V} message.
Arguments ErrorStart {V} message.
Arguments SetterOk {V}.

(** [const CODE_TTL_MS = 1000 * 60 * 60 * 2] *)
Definition CODE_TTL_MS : Z := 1000 * 60 * 60 * 2.

(** The alphabet of [makeCode(len = 4)] *)
Definition codeChars : string := "ABCDEFGHJKLMNPQRSTUVWXYZ23456789".
Definition isCode (c : string) : bool :=
  bool_decide (String.length c = 4%nat) && sall (includes codeChars) c.

(** *** Array helpers *)

(** [arr.find(pred)] *)
Definition jsFind {A} (pred : A → bool) (l : list A) : option A := List.find pred l.

(** [arr.findIndex(pred)], [None] for [-1] *)
Fixpoint findIndex {A} (pred : A → bool) (l : list A) : option nat :=
  match l with
  | [] => None
  | x :: r => if pred x then Some 0%nat else S <$> findIndex pred r
  end.

(** [const x = arr.find(pred); if (x) x.field = ...]: the first element
    that satisfies [pred] is updated in place. *)
Fixpoint updateFirst {A} (pred : A → bool) (f : A → A) (l : list A) : list A :=
  match l with
  | [] => []
  | x :: r => if pred x then f x :: r else x :: updateFirst pred f r
  end.

Definition hasId (sid : string) (p : Player) : bool := bool_decide (id p = sid).

Definition setName (n : string) (p : Player) : Player :=
  {| id := id p; name := n; isManager := isManager p; score := score p |}.
Definition setId (i : string) (p : Player) : Player :=
  {| id := i; name := name p; isManager := isManager p; score := score p |}.
Definition setManager (p : Player) : Player :=
  {| id := id p; name := name p; isManager := true; score := score p |}.
Definition addScore (pts : nat) (p : Player) : Player :=
  {| id := id p; name := name p; isManager := isManager p;
     score := (score p + pts)%nat |}.

(** [const w = players.find(p => p.id === who); if (w) w.score = (w.score || 0) + pts] *)
Definition credit (who : string) (pts : nat) (ps : list Player) : list Player :=
  updateFirst (hasId who) (addScore pts) ps.

(** [if (players.length > 0) players[0].isManager = true] *)
Definition promoteFirst (ps : list Player) : list Player :=
  match ps with
  | [] => []
  | p :: r => setManager p :: r
  end.

(** [players.map(p => ({ id, name, isManager, score: p.score ?? 0 }))] *)
Definition playersView (ps : list Player) : list PlayerView :=
  (λ p, mkPlayerView (id p) (name p) (isManager p) (score p)) <$> ps.

(** [players.map(p => ({ id: p.id, score: p.score ?? 0 }))] *)
Definition scoresView (ps : list Player) : list ScoreView :=
  (λ p, mkScoreView (id p) (score p)) <$> ps.

(** [buildSetterOrder]: [for (let r = 0; r < laps; r++) order.push(...ids)] *)
Fixpoint repeatIds (laps : nat) (ids : list string) : list string :=
  match laps with
  | O => []
  | S n => ids ++ repeatIds n ids
  end.

(** [Math.max(1, parseInt(rounds || 1, 10))] on an integer [rounds] *)
Definition lapsOf (rounds : Z) : nat :=
  Z.to_nat (Z.max 1 (if bool_decide (rounds = 0) then 1 else rounds)).

(** [x.score] of the first player with the given id ([0] if there is none) *)
Definition scoreOf (who : string) (ps : list Player) : nat :=
  from_option score 0%nat (jsFind (hasId who) ps).


(** [players.find(p => p.id === sid)?.isManager], falsy when there is no
    such player *)
Definition callerIsManager (sid : string) (ps : list Player) : bool :=
  from_option isManager false (jsFind (hasId sid) ps).

Definition managers (ps : list Player) : list Player := List.filter isManager ps.

(** A players list that is empty or has exactly one manager *)
Definition oneManager (ps : list Player) : Prop :=
  ps ≠ [] → length (managers ps) = 1%nat.

(** ** Definitions used in the statements *)

(** The set of all letters, [new Set("ABCDEFGHIJKLMNOPQRSTUVWXYZ")] *)
Definition fullAlphabet : gset ascii :=
  list_to_set (String.list_ascii_of_string "ABCDEFGHIJKLMNOPQRSTUVWXYZ").

(** A string without lower-case letters, as [toUpperCase] returns it *)
Definition noLower (s : string) : bool := sall (λ c, negb (isLowerAZ c)) s.

(** The mask in the specification's words: a letter is revealed when its
    upper-case form has been guessed and is rendered as an underscore
    otherwise; every other character is revealed verbatim. *)
Definition specMaskChar (guessed : gset ascii) (c : ascii) : ascii :=
  if isLetter c
  then (if bool_decide (upperChar c ∈ guessed) then c else "_"%char)
  else c.
Definition specMask (raw : string) (guessed : gset ascii) : string :=
  smap (specMaskChar guessed) raw.

(** Every letter hidden, everything else shown *)
Definition hideLetters (raw : string) : string :=
  smap (λ c, if isLetter c then "_"%char else c) raw.

(** [s.charAt(i)], [None] past the end *)
Fixpoint charAt (s : string) (i : nat) : option ascii :=
  match s, i with
  | EmptyString, _ => None
  | String c _, O => Some c
  | String _ r, S j => charAt r j
  end.

(** The state is ["over"] exactly when the setter pointer has reached the
    end of the setter order, and then there is no round. *)
Definition overAtEnd (st : GState) (order : list string) (pointer : nat)
    (noRound : Prop) : Prop :=
  (st = Over ↔ (length order ≤ pointer)%nat) ∧ (st = Over → noRound).

(** *** Random draws

    [Math.floor(Math.random() * chars.length)] is a draw: [Math.random()]
    is below 1, so a draw is an index of [chars].  The draws of a run are a
    list that the code generators consume from its head. *)

(** [len] characters [chars[draw]]; [None] when the draws run out (or when
    a draw is not an index of [chars]). *)
Fixpoint drawChars (chars : string) (len : nat) (draws : list nat)
  : option (string * list nat) :=
  match len with
  | O => Some (EmptyString, draws)
  | S n =>
      match draws with
      | [] => None
      | d :: rest =>
          match charAt chars d, drawChars chars n rest with
          | Some c, Some (s, rest') => Some (String c s, rest')
          | _, _ => None
          end
      end
  end.

(** [makeCode(len = 4)] of the baseline and the wrong-limit server:
<<
  do {
    code = Array.from({ length: len },
             () => chars[Math.floor(Math.random() * chars.length)]).join('');
  } while (sessions.has(code));
  return code;
>>
    [taken] is [sessions.has]; [fuel] bounds the number of attempts, and the
    loop has not returned when it is used up. *)
Fixpoint makeCodeLoop (fuel len : nat) (taken : string → bool) (draws : list nat)
  : option (string * list nat) :=
  match fuel with
  | O => None
  | S k =>
      match drawChars codeChars len draws with
      | None => None
      | Some (code, rest) =>
          if taken code then makeCodeLoop k len taken rest
          else Some (code, rest)
      end
  end.

(** An attempt of [len > 0] characters consumes draws, so that one more
    attempt than there are draws is enough fuel. *)
Definition makeCode (len : nat) (taken : string → bool) (draws : list nat)
  : option (string * list nat) :=
  makeCodeLoop (S (length draws)) len taken draws.

(** A players list whose first player, and no other, is the manager *)
Definition managerFirst (ps : list Player) : Prop :=
  match ps with
  | [] => True
  | p :: r => isManager p = true ∧ Forall (λ q, isManager q = false) r
  end.


(** Letters recorded at most once each, all of them capitals *)
Definition lettersOk (l : list ascii) : Prop :=
  NoDup l ∧ Forall (λ c, isUpperAZ c = true) l.

(** ** The baseline server ([server.js], "stable baseline (full)") *)

Module Baseline.

(** [settings: { rounds: 3, minLen: 3, maxLen: 50 }] *)
Record Settings := mkSettings { rounds : Z; minLen : Z; maxLen : Z }.

(** [game.round].  [guesserOrder] and [turnIndex] are absent from the object
    that [startWaitingForPhrase] creates; [guesserOrder = None] is the
    absent property, and [turnIndex] is only read while the state is
    ["active"], after [setter:submitPhrase] has set it. *)
Record Round := mkRound {
  raw : string;
  masked : string;
  guessedLetters : list ascii;
  hint : string;
  hintShown : bool;
  setterId : option string;
  winnerId : option string;
  guesserOrder : option (list string);
  turnIndex : nat
}.

Record Game := mkGame {
  roundIndex : Z;
  setterOrder : list string;
  setterPointer : nat;
  state : GState;
  round : option Round
}.

Record Session := mkSession {
  atvSocketId : option string;
  createdAt : Z;
  players : list Player;
  settings : Settings;
  game : option Game
}.

(** The payload of [game:state] *)
Record View := mkView {
  v_state : GState;
  v_roundsTotal : Z;
  v_roundIndex : Z;
  v_setterId : option string;
  v_currentTurnId : option string;
  v_hintShown : bool;
  v_masked : string;
  v_guessedLetters : list ascii;
  v_winnerId : option string;
  v_scores : list ScoreView
}.

Definition Emit : Type := Target * Msg View.

(** The process state: the [sessions] Map and [socket.data.code]. *)
Record Server := mkServer {
  sessions : gmap string Session;
  sockCode : gmap string string
}.

Definition withPlayers (s : Session) (ps : list Player) : Session :=
  mkSession (atvSocketId s) (createdAt s) ps (settings s) (game s).
Definition withSettings (s : Session) (st : Settings) : Session :=
  mkSession (atvSocketId s) (createdAt s) (players s) st (game s).
Definition withGame (s : Session) (g : Game) : Session :=
  mkSession (atvSocketId s) (createdAt s) (players s) (settings s) (Some g).
Definition withAtv (s : Session) (a : option string) : Session :=
  mkSession a (createdAt s) (players s) (settings s) (game s).
Definition withRound (g : Game) (st : GState) (r : option Round) : Game :=
  mkGame (roundIndex g) (setterOrder g) (setterPointer g) st r.

(** [buildMasked(raw, guessedSet)]:
<<
  for (const ch of raw) {
    if (/[A-Z]/.test(ch)) out += guessedSet.has(ch) ? ch : "_";
    else out += ch; // show digits/space/punct
  }
>> *)
Definition maskChar (guessedSet : gset ascii) (ch : ascii) : ascii :=
  if isUpperAZ ch then (if bool_decide (ch ∈ guessedSet) then ch else "_"%char)
  else ch.
Definition buildMasked (raw : string) (guessedSet : gset ascii) : string :=
  smap (maskChar guessedSet) raw.

(** [normalizePhrase] with the allow-list that includes the digits *)
Definition normalizePhrase : string → option string :=
  normalizePhrase allowedLettersDigits.

(** [currentTurnPlayerId(s)] *)
Definition currentTurnPlayerId (s : Session) : option string :=
  match game s with
  | None => None
  | Some g =>
      match round g with
      | None => None
      | Some r =>
          match guesserOrder r with
          | None | Some [] => None
          | Some order => order !! (turnIndex r mod length order)%nat
          end
      end
  end.

(** [advanceTurn(s)], on the round *)
Definition advanceTurn (r : Round) : Round :=
  match guesserOrder r with
  | None | Some [] => r
  | Some order =>
      mkRound (raw r) (masked r) (guessedLetters r) (hint r) (hintShown r)
        (setterId r) (winnerId r) (guesserOrder r)
        ((turnIndex r + 1) mod length order)%nat
  end.

(** The payload built by [emitGameState] *)
Definition gameStateView (s : Session) : View :=
  let g := game s in
  let r := g ≫= round in
  {| v_state := from_option state Idle g;
     v_roundsTotal := rounds (settings s);
     v_roundIndex := from_option roundIndex (-1) g;
     v_setterId := r ≫= setterId;
     v_currentTurnId :=
       match g with
       | Some g' => if bool_decide (state g' = Active)
                    then currentTurnPlayerId s else None
       | None => None
       end;
     v_hintShown := from_option hintShown false r;
     v_masked := from_option masked EmptyString r;
     v_guessedLetters := from_option guessedLetters [] r;
     v_winnerId := r ≫= winnerId;
     v_scores := scoresView (players s) |}.

(** [emitSessionPlayers(code)] and [emitGameState(code)], for the session
    object [s] stored under [code] *)
Definition emitSessionPlayers (code : string) (s : Session) : list Emit :=
  [(ToRoom code, SessionPlayers code (playersView (players s)))].
Definition emitGameState (code : string) (s : Session) : list Emit :=
  [(ToRoom code, GameState (gameStateView s))].

(** [buildSetterOrder(s)] *)
Definition buildSetterOrder (s : Session) : list string :=
  repeatIds (lapsOf (rounds (settings s))) (id <$> players s).

(** [startWaitingForPhrase(s)]; the code that the function recovers by
    searching [sessions] for [s] is the code [s] was looked up under. *)
Definition startWaitingForPhrase (code : string) (s : Session) (g : Game)
  : Session * list Emit :=
  let r := {| raw := EmptyString; masked := EmptyString; guessedLetters := []; hint := EmptyString;
              hintShown := false;
              setterId := setterOrder g !! setterPointer g;
              winnerId := None; guesserOrder := None; turnIndex := 0 |} in
  let s' := withGame s (withRound g WaitingPhrase (Some r)) in
  (s', emitSessionPlayers code s' ++ emitGameState code s').

(** [maybeGameOver(s)]: [Some] is the [true] result with its effects. *)
Definition maybeGameOver (code : string) (s : Session) (g : Game)
  : option (Session * list Emit) :=
  if bool_decide (length (setterOrder g) ≤ setterPointer g)%nat then
    let s' := withGame s (withRound g Over None) in
    Some (s', emitGameState code s')
  else None.

(** *** Handlers that work on the session of [socket.data.code] *)

(** [player:rename] *)
Definition playerRename (sid code nm : string) (s : Session)
  : Session * list Emit :=
  match jsFind (hasId sid) (players s) with
  | None => (s, [])
  | Some _ =>
      let nn := slice0 24 (trim nm) in
      match nn with
      | EmptyString => (s, [])
      | _ =>
          let s' := withPlayers s (updateFirst (hasId sid) (setName nn) (players s)) in
          (s', emitSessionPlayers code s' ++ emitGameState code s')
      end
  end.

(** [Number.isInteger(x) && lo <= x && x <= hi]; a payload field that is
    not an integer is [None]. *)
Definition intIn (x : option Z) (lo hi : Z) : option Z :=
  match x with
  | Some v => if bool_decide (lo ≤ v ∧ v ≤ hi) then Some v else None
  | None => None
  end.

(** The three conditional assignments of [manager:setSettings] *)
Definition applySettings (r mn mx : option Z) (st : Settings) : Settings :=
  let st1 := match intIn r 1 20 with
             | Some v => mkSettings v (minLen st) (maxLen st) | None => st end in
  let st2 := match intIn mn 1 40 with
             | Some v => mkSettings (rounds st1) v (maxLen st1) | None => st1 end in
  match intIn mx (minLen st2) 60 with
  | Some v => mkSettings (rounds st2) (minLen st2) v | None => st2
  end.

(** [if (s.game && s.game.state && s.game.state !== "idle") return;] *)
Definition locked (s : Session) : bool :=
  match game s with
  | Some g => negb (bool_decide (state g = Idle))
  | None => false
  end.

(** [manager:setSettings] *)
Definition managerSetSettings (sid code : string) (r mn mx : option Z) (s : Session)
  : Session * list Emit :=
  match jsFind (hasId sid) (players s) with
  | Some me =>
      if isManager me then
        if locked s then (s, [])
        else
          let s' := withSettings s (applySettings r mn mx (settings s)) in
          (s', emitGameState code s')
      else (s, [])
  | None => (s, [])
  end.

Definition isMgr (sid : string) (p : Player) : bool := hasId sid p && isManager p.

(** [s.game = s.game || {}] followed by the three assignments *)
Definition gameForStart (s : Session) : Game :=
  match game s with
  | Some g => mkGame 0 (buildSetterOrder s) 0 (state g) (round g)
  | None => mkGame 0 (buildSetterOrder s) 0 Idle None
  end.

(** [manager:startGame] *)
Definition managerStartGame (sid code : string) (s : Session)
  : Session * list Emit :=
  match jsFind (isMgr sid) (players s) with
  | None => (s, [])
  | Some _ =>
      if bool_decide (length (players s) < 2)%nat then
        (s, [(ToSocket sid, ErrorStart "Need at least 2 players to start.")])
      else
        let g := gameForStart s in
        match setterOrder g with
        | [] =>
            let s' := withGame s (withRound g Idle (round g)) in
            (s', emitGameState code s')
        | _ :: _ => startWaitingForPhrase code s g
        end
  end.

(** [manager:nextRound] *)
Definition managerNextRound (sid code : string) (s : Session)
  : Session * list Emit :=
  match game s with
  | None => (s, [])
  | Some g =>
      match jsFind (isMgr sid) (players s) with
      | None => (s, [])
      | Some _ =>
          let g' := mkGame (roundIndex g) (setterOrder g) (setterPointer g + 1)
                      (state g) (round g) in
          match maybeGameOver code s g' with
          | Some res => res
          | None => startWaitingForPhrase code s g'
          end
      end
  end.

Definition phraseLengthMsg : string := "Phrase must be 3–50 characters.".
Definition phraseCharsMsg : string :=
  "Only letters, numbers, spaces, apostrophes, dashes, and periods are allowed.".

(** [players.filter(p => p.id !== r.setterId).map(p => p.id)] *)
Definition guessersOf (setter : option string) (ps : list Player) : list string :=
  id <$> List.filter (λ p, negb (bool_decide (Some (id p) = setter))) ps.

(** [setter:submitPhrase] *)
Definition setterSubmitPhrase (sid code phrase hnt : string) (s : Session)
  : Session * list Emit :=
  match game s with
  | None => (s, [])
  | Some g =>
      if negb (bool_decide (state g = WaitingPhrase)) then (s, []) else
      match round g with
      | None => (s, [])
      | Some r =>
          if negb (bool_decide (setterId r = Some sid)) then (s, []) else
          let rawInput := trim phrase in
          if bool_decide (len rawInput < 3 ∨ len rawInput > 50) then
            (s, [(ToSocket sid, ErrorPhrase phraseLengthMsg)])
          else
            match normalizePhrase rawInput with
            | None | Some EmptyString =>
                (s, [(ToSocket sid, ErrorPhrase phraseCharsMsg)])
            | Some norm =>
                let r' := {| raw := norm;
                             masked := buildMasked norm ∅;
                             guessedLetters := [];
                             hint := slice0 120 hnt;
                             hintShown := false;
                             setterId := setterId r;
                             winnerId := winnerId r;
                             guesserOrder := Some (guessersOf (setterId r) (players s));
                             turnIndex := 0 |} in
                let s' := withGame s (withRound g Active (Some r')) in
                (s', emitGameState code s' ++ [(ToSocket sid, SetterOk)])
            end
      end
  end.

(** [setter:showHint]; reading [r.setterId] of a [null] round throws. *)
Definition setterShowHint (sid code : string) (s : Session)
  : option (Session * list Emit) :=
  match game s with
  | None => Some (s, [])
  | Some g =>
      if negb (bool_decide (state g = Active)) then Some (s, []) else
      match round g with
      | None => None
      | Some r =>
          if negb (bool_decide (setterId r = Some sid)) then Some (s, []) else
          if hintShown r then Some (s, [])
          else
            let r' := mkRound (raw r) (masked r) (guessedLetters r) (hint r) true
                        (setterId r) (winnerId r) (guesserOrder r) (turnIndex r) in
            let s' := withGame s (withRound g (state g) (Some r')) in
            Some (s', (ToRoom code, GameHint (hint r)) :: emitGameState code s')
      end
  end.

(** [String(letter || '').toUpperCase()] matched against [/^[A-Z]$/] *)
Definition letterOf (letter : string) : option ascii :=
  match toUpperCase letter with
  | String c EmptyString => if isUpperAZ c then Some c else None
  | _ => None
  end.

(** [const pts = r.hintShown ? 1 : 2] *)
Definition solverPoints (r : Round) : nat := if hintShown r then 1%nat else 2%nat.

(** [player:guessLetter] *)
Definition playerGuessLetter (sid code letter : string) (s : Session)
  : Session * list Emit :=
  match game s with
  | None => (s, [])
  | Some g =>
      if negb (bool_decide (state g = Active)) then (s, []) else
      if negb (bool_decide (currentTurnPlayerId s = Some sid)) then (s, []) else
      match round g, letterOf letter with
      | Some r, Some L =>
          if bool_decide (L ∈ guessedLetters r) then (s, []) else
          let guessed := guessedLetters r ++ [L] in
          let m := buildMasked (raw r) (list_to_set guessed) in
          let r1 := mkRound (raw r) m guessed (hint r) (hintShown r)
                      (setterId r) (winnerId r) (guesserOrder r) (turnIndex r) in
          if negb (includes m "_"%char) then
            let r2 := mkRound (raw r1) (masked r1) (guessedLetters r1) (hint r1)
                        (hintShown r1) (setterId r1) (Some sid)
                        (guesserOrder r1) (turnIndex r1) in
            let s' := withGame (withPlayers s (credit sid (solverPoints r) (players s)))
                        (withRound g Won (Some r2)) in
            (s', emitSessionPlayers code s' ++ emitGameState code s')
          else
            let s' := withGame s (withRound g (state g) (Some (advanceTurn r1))) in
            (s', emitGameState code s')
      | _, _ => (s, [])
      end
  end.

(** [player:solve] *)
Definition playerSolve (sid code guess : string) (s : Session)
  : Session * list Emit :=
  match game s with
  | None => (s, [])
  | Some g =>
      if negb (bool_decide (state g = Active)) then (s, []) else
      if negb (bool_decide (currentTurnPlayerId s = Some sid)) then (s, []) else
      match round g, normalizePhrase guess with
      | Some r, Some (String c rest as normGuess) =>
          if bool_decide (normGuess = raw r) then
            let r' := mkRound (raw r) (raw r) (guessedLetters r) (hint r)
                        (hintShown r) (setterId r) (Some sid)
                        (guesserOrder r) (turnIndex r) in
            let s' := withGame (withPlayers s (credit sid (solverPoints r) (players s)))
                        (withRound g Won (Some r')) in
            (s', emitSessionPlayers code s' ++ emitGameState code s')
          else
            let s' := withGame s (withRound g (state g) (Some (advanceTurn r))) in
            (s', emitGameState code s')
      | _, _ => (s, [])
      end
  end.

(** *** The registry and the handlers that change it *)

(** An inbound socket event with its connection id; [now] is the value of
    [Date.now()] where the handler reads it, [code] of [AtvCreateSession]
    the code that [makeCode] returned. *)
Inductive Event :=
| AtvCreateSession (sid : string) (now : Z) (code : string)
| AtvGetPlayers (sid : string) (now : Z) (code : string)
| PlayerJoin (sid : string) (now : Z) (code nm : string)
| PlayerRejoin (sid : string) (now : Z) (code nm : string)
| PlayerRename (sid nm : string)
| ManagerSetSettings (sid : string) (r mn mx : option Z)
| ManagerStartGame (sid : string)
| ManagerNextRound (sid : string)
| SetterSubmitPhrase (sid phrase hnt : string)
| SetterShowHint (sid : string)
| PlayerGuessLetter (sid letter : string)
| PlayerSolve (sid guess : string)
| Disconnect (sid : string).

Definition withSessions (srv : Server) (m : gmap string Session) : Server :=
  mkServer m (sockCode srv).
Definition putSession (srv : Server) (code : string) (s : Session) : Server :=
  mkServer (<[code := s]> (sessions srv)) (sockCode srv).
Definition bind (srv : Server) (sid code : string) : Server :=
  mkServer (sessions srv) (<[sid := code]> (sockCode srv)).

(** [getSession(code)]: an expired session is deleted on lookup. *)
Definition getSession (now : Z) (code : string) (srv : Server)
  : option Session * Server :=
  match sessions srv !! code with
  | None => (None, srv)
  | Some s =>
      if bool_decide (now - createdAt s > CODE_TTL_MS)
      then (None, withSessions srv (delete code (sessions srv)))
      else (Some s, srv)
  end.

(** [const code = socket.data.code; const s = sessions.get(code);
     if (!s) return;] and then a handler on the session object *)
Definition inSession (srv : Server) (sid : string)
    (h : string → Session → option (Session * list Emit))
  : option (Server * list Emit) :=
  match sockCode srv !! sid with
  | None => Some (srv, [])
  | Some code =>
      match sessions srv !! code with
      | None => Some (srv, [])
      | Some s =>
          match h code s with
          | Some (s', out) => Some (putSession srv code s', out)
          | None => None
          end
      end
  end.

(** The session that [createSession] stores *)
Definition newSession (atv : string) (now : Z) : Session :=
  {| atvSocketId := Some atv; createdAt := now; players := [];
     settings := mkSettings 3 3 50; game := None |}.

(** [atv:createSession]; [makeCode] returns a code of four characters of
    its alphabet that is not a key of [sessions]. *)
Definition atvCreateSession (sid : string) (now : Z) (code : string) (srv : Server)
  : option (Server * list Emit) :=
  if isCode code && bool_decide (sessions srv !! code = None) then
    let s := newSession sid now in
    Some (bind (putSession srv code s) sid code,
          (ToSocket sid, SessionCreated code)
            :: emitSessionPlayers code s ++ emitGameState code s)
  else None.

(** [String(code || '').trim().toUpperCase()] *)
Definition cleanCode (code : string) : string := toUpperCase (trim code).

(** [atv:getPlayers] *)
Definition atvGetPlayers (sid : string) (now : Z) (code0 : string) (srv : Server)
  : Server * list Emit :=
  let code := cleanCode code0 in
  match getSession now code srv with
  | (None, srv') => (srv', [(ToSocket sid, SessionEnded)])
  | (Some s, srv') =>
      let s' := withAtv s (Some sid) in
      (bind (putSession srv' code s') sid code,
       (ToSocket sid, SessionCreated code)
         :: emitSessionPlayers code s' ++ emitGameState code s')
  end.

Definition joinInvalidMsg : string := "Invalid or expired code.".
Definition joinFullMsg : string := "Game is full (max 10 players).".

(** [String(name || "Player").slice(0, 16)] *)
Definition safeName (nm : string) : string := slice0 16 (orElse nm "Player").

(** [player:join] *)
Definition playerJoin (sid : string) (now : Z) (code0 nm : string) (srv : Server)
  : Server * list Emit :=
  let code := cleanCode code0 in
  match getSession now code srv with
  | (None, srv') => (srv', [(ToSocket sid, ErrorJoin joinInvalidMsg)])
  | (Some s, srv') =>
      if bool_decide (10 ≤ length (players s))%nat then
        (srv', [(ToSocket sid, ErrorJoin joinFullMsg)])
      else
        let isMgr := bool_decide (length (players s) = 0%nat) in
        let s' := withPlayers s (players s ++ [mkPlayer sid (safeName nm) isMgr 0]) in
        (bind (putSession srv' code s') sid code,
         (ToSocket sid, PlayerJoined code isMgr)
           :: emitSessionPlayers code s' ++ emitGameState code s')
  end.

Definition hasName (nm : string) (p : Player) : bool := bool_decide (name p = nm).

(** [player:rejoin]: a player of that name gets the new socket id,
    otherwise a player is appended. *)
Definition playerRejoin (sid : string) (now : Z) (code0 nm : string) (srv : Server)
  : Server * list Emit :=
  let code := cleanCode code0 in
  match getSession now code srv with
  | (None, srv') => (srv', [])
  | (Some s, srv') =>
      let existing := jsFind (hasName (safeName nm)) (players s) in
      let ps :=
        match existing with
        | Some _ => updateFirst (hasName (safeName nm)) (setId sid) (players s)
        | None => players s ++ [mkPlayer sid (safeName nm) false 0]
        end in
      let s' := withPlayers s ps in
      (bind (putSession srv' code s') sid code,
       (ToSocket sid, PlayerJoined code (from_option isManager false existing))
         :: emitSessionPlayers code s' ++ emitGameState code s')
  end.

(** [arr.indexOf(x)] followed by [splice(idx, 1)] when found *)
Fixpoint removeFirst (x : string) (l : list string) : list string :=
  match l with
  | [] => []
  | y :: r => if bool_decide (y = x) then r else y :: removeFirst x r
  end.

(** The part of [disconnect] that follows the removal of the player from
    [players]: the guesser order of the round loses the player, and a
    round without guessers ends. *)
Definition dropGuesser (removedId : string) (s : Session) : Session :=
  match game s with
  | None => s
  | Some g =>
      match round g with
      | None => s
      | Some r =>
          match guesserOrder r with
          | None => s
          | Some order =>
              let order' := removeFirst removedId order in
              let ended := bool_decide (length order' = 0%nat)
                           && bool_decide (state g = Active) in
              let r' := mkRound (raw r) (masked r) (guessedLetters r) (hint r)
                          (hintShown r) (setterId r)
                          (if ended then None else winnerId r)
                          (Some order') (turnIndex r) in
              withGame s (withRound g (if ended then Won else state g) (Some r'))
          end
      end
  end.

(** The phone branch of [disconnect], on the session *)
Definition removePlayer (sid : string) (s : Session) : Session :=
  match findIndex (hasId sid) (players s) with
  | None => s
  | Some idx =>
      let wasManager := from_option isManager false (players s !! idx) in
      let ps := delete idx (players s) in
      let ps' := if wasManager then promoteFirst ps else ps in
      dropGuesser sid (withPlayers s ps')
  end.

(** [disconnect]; the socket is gone afterwards. *)
Definition disconnect (sid : string) (srv : Server) : Server * list Emit :=
  let gone := mkServer (sessions srv) (delete sid (sockCode srv)) in
  match sockCode srv !! sid with
  | None => (gone, [])
  | Some code =>
      match sessions srv !! code with
      | None => (gone, [])
      | Some s =>
          if bool_decide (atvSocketId s = Some sid) then
            if bool_decide (0 < length (players s))%nat then
              (putSession gone code (withAtv s None), [])
            else
              (withSessions gone (delete code (sessions srv)),
               [(ToRoom code, SessionEnded)])
          else
            let s' := removePlayer sid s in
            (putSession gone code s',
             emitSessionPlayers code s' ++ emitGameState code s')
      end
  end.

Definition total {A} (h : string → Session → A) : string → Session → option A :=
  λ code s, Some (h code s).

(** One inbound event, run to completion *)
Definition handle (srv : Server) (e : Event) : option (Server * list Emit) :=
  match e with
  | AtvCreateSession sid now code => atvCreateSession sid now code srv
  | AtvGetPlayers sid now code => Some (atvGetPlayers sid now code srv)
  | PlayerJoin sid now code nm => Some (playerJoin sid now code nm srv)
  | PlayerRejoin sid now code nm => Some (playerRejoin sid now code nm srv)
  | PlayerRename sid nm => inSession srv sid (total (λ c, playerRename sid c nm))
  | ManagerSetSettings sid r mn mx =>
      inSession srv sid (total (λ c, managerSetSettings sid c r mn mx))
  | ManagerStartGame sid => inSession srv sid (total (managerStartGame sid))
  | ManagerNextRound sid => inSession srv sid (total (managerNextRound sid))
  | SetterSubmitPhrase sid phrase hnt =>
      inSession srv sid (total (λ c, setterSubmitPhrase sid c phrase hnt))
  | SetterShowHint sid => inSession srv sid (setterShowHint sid)
  | PlayerGuessLetter sid letter =>
      inSession srv sid (total (λ c, playerGuessLetter sid c letter))
  | PlayerSolve sid guess => inSession srv sid (total (λ c, playerSolve sid c guess))
  | Disconnect sid => Some (disconnect sid srv)
  end.

(** The server at start-up *)
Definition init : Server := mkServer ∅ ∅.

(** The servers and the messages that a sequence of events leads to *)
Fixpoint run (srv : Server) (es : list Event) : option (Server * list Emit) :=
  match es with
  | [] => Some (srv, [])
  | e :: rest =>
      match handle srv e with
      | None => None
      | Some (srv', out) =>
          match run srv' rest with
          | None => None
          | Some (srv'', out') => Some (srv'', out ++ out')
          end
      end
  end.

Inductive reachable : Server → Prop :=
| reach_init : reachable init
| reach_step srv e srv' out :
    reachable srv → handle srv e = Some (srv', out) → reachable srv'.

(** The effect of an event on a session that the registry holds before and
    after the event, when the event changes that session at all
    (see [baseline_handle_old]) *)
Definition onSession (e : Event) (code : string) (s : Session) : Session :=
  match e with
  | AtvCreateSession _ _ _ => s
  | AtvGetPlayers sid _ _ => withAtv s (Some sid)
  | PlayerJoin sid _ _ nm =>
      if bool_decide (10 ≤ length (players s))%nat then s
      else withPlayers s
             (players s ++ [mkPlayer sid (safeName nm)
                              (bool_decide (length (players s) = 0%nat)) 0])
  | PlayerRejoin sid _ _ nm =>
      withPlayers s
        match jsFind (hasName (safeName nm)) (players s) with
        | Some _ => updateFirst (hasName (safeName nm)) (setId sid) (players s)
        | None => players s ++ [mkPlayer sid (safeName nm) false 0]
        end
  | PlayerRename sid nm => (playerRename sid code nm s).1
  | ManagerSetSettings sid r mn mx => (managerSetSettings sid code r mn mx s).1
  | ManagerStartGame sid => (managerStartGame sid code s).1
  | ManagerNextRound sid => (managerNextRound sid code s).1
  | SetterSubmitPhrase sid phrase hnt => (setterSubmitPhrase sid code phrase hnt s).1
  | SetterShowHint sid => from_option fst s (setterShowHint sid code s)
  | PlayerGuessLetter sid letter => (playerGuessLetter sid code letter s).1
  | PlayerSolve sid guess => (playerSolve sid code guess s).1
  | Disconnect sid =>
      if bool_decide (atvSocketId s = Some sid) then withAtv s None
      else removePlayer sid s
  end.

(** The round with another secret phrase, to state that a view does not
    read [raw] *)
Definition withRaw (x : string) (s : Session) : Session :=
  match game s with
  | Some g =>
      match round g with
      | Some r =>
          withGame s (withRound g (state g)
            (Some (mkRound x (masked r) (guessedLetters r) (hint r) (hintShown r)
                     (setterId r) (winnerId r) (guesserOrder r) (turnIndex r))))
      | None => s
      end
  | None => s
  end.

Definition isStart (e : Event) : bool :=
  match e with ManagerStartGame _ => true | _ => false end.
Definition isNext (e : Event) : bool :=
  match e with ManagerNextRound _ => true | _ => false end.

(** The bounds that [manager:setSettings] keeps on [rounds] *)
Definition settingsOk (s : Session) : Prop := 1 ≤ rounds (settings s) ≤ 20.

Definition pointerOk (s : Session) : Prop :=
  ∀ g, game s = Some g →
    overAtEnd (state g) (setterOrder g) (setterPointer g) (round g = None).

(** What an event other than [manager:startGame] and [manager:nextRound]
    keeps of a game *)
Definition playFrame (g g' : Game) : Prop :=
  setterOrder g' = setterOrder g ∧ setterPointer g' = setterPointer g
  ∧ (state g' = Over ↔ state g = Over)
  ∧ (round g = None → round g' = None).

(** *** Scenarios *)

(** The server that a sequence of events leads to from start-up *)
Definition serverAfter (es : list Event) : Server :=
  from_option fst init (run init es).

(** Alice and Bob join the session ABCD of a presentation display. *)
Definition lobby : list Event :=
  [AtvCreateSession "atv1" 0 "ABCD";
   PlayerJoin "alice" 10 "abcd" "Alice";
   PlayerJoin "bob" 20 "ABCD" "Bob"].

(** Alice starts the game and is the first setter. *)
Definition started : list Event := lobby ++ [ManagerStartGame "alice"].

(** Alice advances twice, and then sends [manager:startGame] again. *)
Definition twoAdvances : list Event :=
  started ++ [ManagerNextRound "alice"; ManagerNextRound "alice"].
Definition restarted : list Event := twoAdvances ++ [ManagerStartGame "alice"].

(** Alice advances through the six setter turns, which ends the game, and
    then sends [manager:startGame] again. *)
Definition playedOut : list Event :=
  started ++ replicate 6 (ManagerNextRound "alice").
Definition startedAgain : list Event := playedOut ++ [ManagerStartGame "alice"].

(** Ten phones join the session ABCD. *)
Definition fullLobby : list Event :=
  AtvCreateSession "atv1" 0 "ABCD"
  :: ((λ sid, PlayerJoin sid 10 "ABCD" sid)
        <$> ["p0"; "p1"; "p2"; "p3"; "p4"; "p5"; "p6"; "p7"; "p8"; "p9"]).

(** A phone sends [player:rejoin] to a session that nobody has joined,
    and another phone joins afterwards. *)
Definition rejoinFirst : list Event :=
  [AtvCreateSession "atv1" 0 "ABCD";
   PlayerRejoin "bob" 10 "ABCD" "Bob";
   PlayerJoin "alice" 20 "ABCD" "Alice"].

(** The session after [r.hintShown = true] *)
Definition showHintOf (s : Session) (g : Game) (r : Round) : Session :=
  withGame s (withRound g (state g)
    (Some (mkRound (raw r) (masked r) (guessedLetters r) (hint r) true
             (setterId r) (winnerId r) (guesserOrder r) (turnIndex r)))).

(** The hint of the round being played, or just resolved, has been shown. *)
Definition hintRevealed (s : Session) : Prop :=
  ∃ g r, game s = Some g ∧ round g = Some r ∧ hintShown r = true
         ∧ (state g = Active ∨ state g = Won).

(** The events that replace the round by a new one *)
Definition startsRound (e : Event) : bool := isStart e || isNext e.

(** A round is being played and Alice, its setter, shows the hint. *)
Definition playing : list Event :=
  started ++ [SetterSubmitPhrase "alice" "hello world" "a greeting"].

(** The manager raises [minLen] to 10 before the game; the setter then
    submits a phrase of three characters. *)
Definition shortPhrase : list Event :=
  lobby ++ [ManagerSetSettings "alice" None (Some 10) None;
            ManagerStartGame "alice";
            SetterSubmitPhrase "alice" "abc" EmptyString].

(** While a round is unresolved its mask is the mask of the phrase under
    the letters guessed so far, and the phrase has no lower-case letter. *)
Definition maskOk (s : Session) : Prop :=
  ∀ g r, game s = Some g → round g = Some r →
    noLower (raw r) = true
    ∧ (state g = WaitingPhrase ∨ state g = Active →
       masked r = buildMasked (raw r) (list_to_set (guessedLetters r))).

(** The setter submits a phrase without letters. *)
Definition digitsPhrase : list Event :=
  started ++ [SetterSubmitPhrase "alice" "1984" "a novel"].

Definition isRejoin (e : Event) : bool :=
  match e with PlayerRejoin _ _ _ _ => true | _ => false end.

(** Scenario A of the specification: Bob guesses O, then the other letters
    of HELLO WORLD. *)
Definition guessedO : list Event := playing ++ [PlayerGuessLetter "bob" "O"].
Definition allButD : list Event :=
  guessedO ++ (PlayerGuessLetter "bob" <$> ["h"; "e"; "l"; "w"; "r"]).
Definition scenarioA : list Event := allButD ++ [PlayerGuessLetter "bob" "d"].

(** Scenario B: Bob solves the phrase after O has been guessed. *)
Definition scenarioB : list Event := guessedO ++ [PlayerSolve "bob" "Hello  world"].

(** Scenario D: Carol has joined too and the manager leaves during the
    round. *)
Definition scenarioD : list Event :=
  lobby ++ [PlayerJoin "carol" 30 "ABCD" "Carol";
            ManagerStartGame "alice";
            SetterSubmitPhrase "alice" "hello world" "a greeting";
            Disconnect "alice"].

(** Scenario E: the presentation display drops and comes back on a new
    socket with the code of its session. *)
Definition scenarioE : list Event :=
  lobby ++ [Disconnect "atv1"; AtvGetPlayers "atv2" 40 "abcd"].

(** *** Code generation and the debug routes *)

(** [sessions.has(code)] *)
Definition has (srv : Server) (code : string) : bool :=
  bool_decide (is_Some (sessions srv !! code)).

(** [createSession(atvSocketId)]: the code, the registry with the new
    session, and the draws that are left *)
Definition createSession (atv : string) (now : Z) (draws : list nat) (srv : Server)
  : option (string * Server * list nat) :=
  match makeCode 4 (has srv) draws with
  | Some (code, rest) => Some (code, putSession srv code (newSession atv now), rest)
  | None => None
  end.

(** [app.get("/debug/reset", ...)]: [sessions.clear()] *)
Definition debugReset (srv : Server) : Server := withSessions srv ∅.

(** [app.get("/debug/create", ...)]: [createSession("HTTP_DEBUG")]; the
    response carries the code. *)
Definition debugCreate (now : Z) (draws : list nat) (srv : Server)
  : option (string * Server * list nat) :=
  createSession "HTTP_DEBUG" now draws srv.

(** *** Further definitions used in the statements *)

(** The socket that sent the event *)
Definition sender (e : Event) : string :=
  match e with
  | AtvCreateSession sid _ _ | AtvGetPlayers sid _ _ | PlayerJoin sid _ _ _
  | PlayerRejoin sid _ _ _ | PlayerRename sid _ | ManagerSetSettings sid _ _ _
  | ManagerStartGame sid | ManagerNextRound sid | SetterSubmitPhrase sid _ _
  | SetterShowHint sid | PlayerGuessLetter sid _ | PlayerSolve sid _
  | Disconnect sid => sid
  end.

(** Messages that go to the room of one session or to one socket *)
Definition localTo (code sid : string) (out : list Emit) : Prop :=
  Forall (λ m, m.1 = ToRoom code ∨ m.1 = ToSocket sid) out.

(** The events that a handler runs on the session of [socket.data.code] *)
Definition inGame (e : Event) : bool :=
  match e with
  | PlayerRename _ _ | ManagerSetSettings _ _ _ _ | ManagerStartGame _
  | ManagerNextRound _ | SetterSubmitPhrase _ _ _ | SetterShowHint _
  | PlayerGuessLetter _ _ | PlayerSolve _ _ => true
  | _ => false
  end.

(** What one event does to the players list of a session
    (see [baseline_players_step]) *)
Inductive Change := Kept | Joined | Rejoined | Renamed | Credited | Left.

Inductive playersStep (ps : list Player) : Change → list Player → Prop :=
| step_none : playersStep ps Kept ps
| step_join sid nm :
    (length ps < 10)%nat →
    playersStep ps Joined
      (ps ++ [mkPlayer sid (safeName nm) (bool_decide (length ps = 0%nat)) 0])
| step_rejoin_new sid nm :
    jsFind (hasName (safeName nm)) ps = None →
    playersStep ps Rejoined (ps ++ [mkPlayer sid (safeName nm) false 0])
| step_rejoin_old sid nm p :
    jsFind (hasName (safeName nm)) ps = Some p →
    playersStep ps Rejoined (updateFirst (hasName (safeName nm)) (setId sid) ps)
| step_rename sid nn :
    nn ≠ EmptyString → (String.length nn ≤ 24)%nat →
    playersStep ps Renamed (updateFirst (hasId sid) (setName nn) ps)
| step_credit sid pts :
    (1 ≤ pts ≤ 2)%nat → playersStep ps Credited (credit sid pts ps)
| step_leave i p :
    ps !! i = Some p →
    playersStep ps Left
      (if isManager p then promoteFirst (delete i ps) else delete i ps).

(** The changes that the handler of an event can make *)
Definition changes (e : Event) : list Change :=
  match e with
  | PlayerJoin _ _ _ _ => [Kept; Joined]
  | PlayerRejoin _ _ _ _ => [Rejoined]
  | PlayerRename _ _ => [Kept; Renamed]
  | PlayerGuessLetter _ _ | PlayerSolve _ _ => [Kept; Credited]
  | Disconnect _ => [Kept; Left]
  | _ => [Kept]
  end.

(** A round exists while a phrase is awaited, guessed or resolved. *)
Definition roundPresent (s : Session) : Prop :=
  ∀ g, game s = Some g → state g ≠ Idle → state g ≠ Over → is_Some (round g).

(** The setter of a round is not one of its guessers. *)
Definition setterApart (s : Session) : Prop :=
  ∀ g r x order, game s = Some g → round g = Some r →
    setterId r = Some x → guesserOrder r = Some order → x ∉ order.

(** The letters guessed in the round are distinct capitals. *)
Definition guessedOk (s : Session) : Prop :=
  ∀ g r, game s = Some g → round g = Some r → lettersOk (guessedLetters r).

(** The phrase of the round has only characters of the allow-list. *)
Definition rawAllowed (s : Session) : Prop :=
  ∀ g r, game s = Some g → round g = Some r →
    sall (includes allowedLettersDigits) (raw r) = true.

End Baseline.

(** ** The server with the wrong-guess limit *)

Module WrongLimit.

(** [settings: { rounds: 3, minLen: 3, maxLen: 50, wrongLimit: 6,
                 unlimitedWrong: false }] *)
Record Settings := mkSettings {
  rounds : Z; minLen : Z; maxLen : Z; wrongLimit : Z; unlimitedWrong : bool
}.

(** [game.round], as [startWaitingForPhrase] creates it *)
Record Round := mkRound {
  raw : string;
  masked : string;
  guessedLetters : list ascii;
  hint : string;
  hintShown : bool;
  setterId : option string;
  winnerId : option string;
  wrongCount : Z;
  guesserOrder : list string;
  turnIndex : nat
}.

Record Game := mkGame {
  setterOrder : list string;
  setterPointer : nat;
  state : GState;
  round : option Round
}.

Record Session := mkSession {
  atvSocketId : string;
  createdAt : Z;
  players : list Player;
  settings : Settings;
  game : option Game
}.

(** The payload of [game:state] *)
Record View := mkView {
  v_state : GState;
  v_roundsTotal : Z;
  v_roundIndex : Z;
  v_setterId : option string;
  v_currentTurnId : option string;
  v_hintShown : bool;
  v_masked : string;
  v_guessedLetters : list ascii;
  v_winnerId : option string;
  v_wrongLimit : option Z;
  v_wrongCount : Z;
  v_scores : list ScoreView
}.

Definition Emit : Type := Target * Msg View.

Record Server := mkServer {
  sessions : gmap string Session;
  sockCode : gmap string string
}.

Definition withPlayers (s : Session) (ps : list Player) : Session :=
  mkSession (atvSocketId s) (createdAt s) ps (settings s) (game s).
Definition withSettings (s : Session) (st : Settings) : Session :=
  mkSession (atvSocketId s) (createdAt s) (players s) st (game s).
Definition withGame (s : Session) (g : Game) : Session :=
  mkSession (atvSocketId s) (createdAt s) (players s) (settings s) (Some g).
Definition withRound (g : Game) (st : GState) (r : option Round) : Game :=
  mkGame (setterOrder g) (setterPointer g) st r.

(** [buildMasked(raw, guessedSet)]:
<<
  for (const ch of raw) {
    if (/[A-Za-z]/.test(ch))
      out += guessedSet.has(ch.toUpperCase()) ? ch.toUpperCase() : "_";
    else out += ch;
  }
>> *)
Definition maskChar (guessedSet : gset ascii) (ch : ascii) : ascii :=
  if isLetter ch
  then (if bool_decide (upperChar ch ∈ guessedSet) then upperChar ch else "_"%char)
  else ch.
Definition buildMasked (raw : string) (guessedSet : gset ascii) : string :=
  smap (maskChar guessedSet) raw.

(** [normalizePhrase] with the allow-list without digits *)
Definition normalizePhrase : string → option string :=
  normalizePhrase allowedLetters.

(** [currentTurnPlayerId(s)] *)
Definition currentTurnPlayerId (s : Session) : option string :=
  match game s with
  | None => None
  | Some g =>
      match round g with
      | None => None
      | Some r =>
          match guesserOrder r with
          | [] => None
          | order => order !! (turnIndex r mod length order)%nat
          end
      end
  end.

Definition withTurn (r : Round) (t : nat) : Round :=
  mkRound (raw r) (masked r) (guessedLetters r) (hint r) (hintShown r)
    (setterId r) (winnerId r) (wrongCount r) (guesserOrder r) t.

(** [advanceTurn(s)], on the round *)
Definition advanceTurn (r : Round) : Round :=
  match guesserOrder r with
  | [] => r
  | order => withTurn r ((turnIndex r + 1) mod length order)%nat
  end.

(** The payload built by [emitGameState] *)
Definition gameStateView (s : Session) : View :=
  let g := game s in
  let r := g ≫= round in
  {| v_state := from_option state Idle g;
     v_roundsTotal := rounds (settings s);
     v_roundIndex := from_option (λ g', Z.of_nat (setterPointer g')) (-1) g;
     v_setterId := r ≫= setterId;
     v_currentTurnId :=
       match g with
       | Some g' => if bool_decide (state g' = Active)
                    then currentTurnPlayerId s else None
       | None => None
       end;
     v_hintShown := from_option hintShown false r;
     v_masked := from_option masked EmptyString r;
     v_guessedLetters := from_option guessedLetters [] r;
     v_winnerId := r ≫= winnerId;
     v_wrongLimit := if unlimitedWrong (settings s) then None
                     else Some (wrongLimit (settings s));
     v_wrongCount := from_option wrongCount 0 r;
     v_scores := scoresView (players s) |}.

Definition emitSessionPlayers (code : string) (s : Session) : list Emit :=
  [(ToRoom code, SessionPlayers code (playersView (players s)))].
Definition emitGameState (code : string) (s : Session) : list Emit :=
  [(ToRoom code, GameState (gameStateView s))].

(** [buildSetterOrder(s)] *)
Definition buildSetterOrder (s : Session) : list string :=
  repeatIds (lapsOf (rounds (settings s))) (id <$> players s).

(** [startWaitingForPhrase(s)] *)
Definition startWaitingForPhrase (code : string) (s : Session) (g : Game)
  : Session * list Emit :=
  let r := {| raw := EmptyString; masked := EmptyString; guessedLetters := []; hint := EmptyString;
              hintShown := false;
              setterId := setterOrder g !! setterPointer g;
              winnerId := None; wrongCount := 0;
              guesserOrder := []; turnIndex := 0 |} in
  let s' := withGame s (withRound g WaitingPhrase (Some r)) in
  (s', emitSessionPlayers code s' ++ emitGameState code s').

(** [maybeGameOver(s)]: [Some] is the [true] result with its effects. *)
Definition maybeGameOver (code : string) (s : Session) (g : Game)
  : option (Session * list Emit) :=
  if bool_decide (length (setterOrder g) ≤ setterPointer g)%nat then
    let s' := withGame s (withRound g Over None) in
    Some (s', emitGameState code s')
  else None.

(** [player:rename] *)
Definition playerRename (sid code nm : string) (s : Session)
  : Session * list Emit :=
  let nn := slice0 24 (trim nm) in
  match nn with
  | EmptyString => (s, [])
  | _ =>
      match jsFind (hasId sid) (players s) with
      | None => (s, [])
      | Some _ =>
          let s' := withPlayers s (updateFirst (hasId sid) (setName nn) (players s)) in
          (s', emitSessionPlayers code s' ++ emitGameState code s')
      end
  end.

Definition intIn (x : option Z) (lo hi : Z) : option Z :=
  match x with
  | Some v => if bool_decide (lo ≤ v ∧ v ≤ hi) then Some v else None
  | None => None
  end.

(** The five conditional assignments of [manager:setSettings]; a payload
    field of another type than the handler tests for is [None]. *)
Definition applySettings (r mn mx wl : option Z) (uw : option bool) (st : Settings)
  : Settings :=
  let st1 := match intIn r 1 20 with
             | Some v => mkSettings v (minLen st) (maxLen st) (wrongLimit st)
                           (unlimitedWrong st)
             | None => st end in
  let st2 := match intIn mn 1 40 with
             | Some v => mkSettings (rounds st1) v (maxLen st1) (wrongLimit st1)
                           (unlimitedWrong st1)
             | None => st1 end in
  let st3 := match intIn mx (minLen st2) 60 with
             | Some v => mkSettings (rounds st2) (minLen st2) v (wrongLimit st2)
                           (unlimitedWrong st2)
             | None => st2 end in
  let st4 := match uw with
             | Some b => mkSettings (rounds st3) (minLen st3) (maxLen st3)
                           (wrongLimit st3) b
             | None => st3 end in
  match wl with
  | Some v =>
      if unlimitedWrong st4 then st4
      else mkSettings (rounds st4) (minLen st4) (maxLen st4)
             (Z.max 1 (Z.min 26 v)) (unlimitedWrong st4)
  | None => st4
  end.

(** [manager:setSettings] *)
Definition managerSetSettings (sid code : string) (r mn mx wl : option Z)
    (uw : option bool) (s : Session) : Session * list Emit :=
  match jsFind (hasId sid) (players s) with
  | Some me =>
      if isManager me then
        let s' := withSettings s (applySettings r mn mx wl uw (settings s)) in
        (s', emitGameState code s')
      else (s, [])
  | None => (s, [])
  end.

Definition isMgr (sid : string) (p : Player) : bool := hasId sid p && isManager p.

(** [s.game = s.game || {}] followed by the two assignments *)
Definition gameForStart (s : Session) : Game :=
  match game s with
  | Some g => mkGame (buildSetterOrder s) 0 (state g) (round g)
  | None => mkGame (buildSetterOrder s) 0 Idle None
  end.

(** [manager:startGame] *)
Definition managerStartGame (sid code : string) (s : Session)
  : Session * list Emit :=
  match jsFind (isMgr sid) (players s) with
  | None => (s, [])
  | Some _ =>
      let g := gameForStart s in
      match setterOrder g with
      | [] =>
          let s' := withGame s (withRound g Idle (round g)) in
          (s', emitGameState code s')
      | _ :: _ => startWaitingForPhrase code s g
      end
  end.

(** [manager:nextRound] *)
Definition managerNextRound (sid code : string) (s : Session)
  : Session * list Emit :=
  match game s with
  | None => (s, [])
  | Some g =>
      match jsFind (isMgr sid) (players s) with
      | None => (s, [])
      | Some _ =>
          let g' := mkGame (setterOrder g) (setterPointer g + 1) (state g) (round g) in
          match maybeGameOver code s g' with
          | Some res => res
          | None => startWaitingForPhrase code s g'
          end
      end
  end.

(** The decimal numeral of an integer, as a template literal prints it *)
Definition showZ (z : Z) : string :=
  DecimalString.NilZero.string_of_int (Z.to_int z).

(** [`Phrase must be ${minLen}–${maxLen} characters.`] *)
Definition phraseLengthMsg (st : Settings) : string :=
  "Phrase must be " +:+ showZ (minLen st) +:+ "–" +:+ showZ (maxLen st)
    +:+ " characters.".

Definition guessersOf (setter : option string) (ps : list Player) : list string :=
  id <$> List.filter (λ p, negb (bool_decide (Some (id p) = setter))) ps.

(** [setter:submitPhrase] *)
Definition setterSubmitPhrase (sid code phrase hnt : string) (s : Session)
  : Session * list Emit :=
  match game s with
  | None => (s, [])
  | Some g =>
      if negb (bool_decide (state g = WaitingPhrase)) then (s, []) else
      match round g with
      | None => (s, [])
      | Some r =>
          if negb (bool_decide (setterId r = Some sid)) then (s, []) else
          let rawInput := trim phrase in
          if bool_decide (len rawInput < minLen (settings s)
                          ∨ len rawInput > maxLen (settings s)) then
            (s, [(ToSocket sid, ErrorPhrase (phraseLengthMsg (settings s)))])
          else
            let up := toUpperCase rawInput in
            let r' := {| raw := up;
                         masked := buildMasked up ∅;
                         guessedLetters := [];
                         hint := slice0 120 hnt;
                         hintShown := false;
                         setterId := setterId r;
                         winnerId := winnerId r;
                         wrongCount := 0;
                         guesserOrder := guessersOf (setterId r) (players s);
                         turnIndex := 0 |} in
            let s' := withGame s (withRound g Active (Some r')) in
            (s', emitGameState code s' ++ [(ToSocket sid, SetterOk)])
      end
  end.

(** [setter:showHint]; reading [r.setterId] of a [null] round throws. *)
Definition setterShowHint (sid code : string) (s : Session)
  : option (Session * list Emit) :=
  match game s with
  | None => Some (s, [])
  | Some g =>
      if negb (bool_decide (state g = Active)) then Some (s, []) else
      match round g with
      | None => None
      | Some r =>
          if negb (bool_decide (setterId r = Some sid)) then Some (s, []) else
          if hintShown r then Some (s, [])
          else
            let r' := mkRound (raw r) (masked r) (guessedLetters r) (hint r) true
                        (setterId r) (winnerId r) (wrongCount r)
                        (guesserOrder r) (turnIndex r) in
            let s' := withGame s (withRound g (state g) (Some r')) in
            Some (s', (ToRoom code, GameHint (hint r)) :: emitGameState code s')
      end
  end.

(** [// Points to setter: 1 if hint not shown, 2 if hint shown]
    [const pts = r.hintShown ? 2 : 1;] *)
Definition setterPoints (r : Round) : nat := if hintShown r then 2%nat else 1%nat.

(** [const pts = r.hintShown ? 1 : 2; // solver: 2 without hint, 1 with hint] *)
Definition solverPoints (r : Round) : nat := if hintShown r then 1%nat else 2%nat.

(** [who.score = (who.score || 0) + pts] for the first player whose id is
    the winner's; no player is credited when the id is [undefined]. *)
Definition creditOpt (who : option string) (pts : nat) (ps : list Player)
  : list Player :=
  match who with
  | Some w => credit w pts ps
  | None => ps
  end.

(** [finishRoundWithSetterWin(s, code)], for the round [r] of the game [g] *)
Definition finishRoundWithSetterWin (code : string) (s : Session) (g : Game) (r : Round)
  : Session * list Emit :=
  let r' := mkRound (raw r) (raw r) (guessedLetters r) (hint r) (hintShown r)
              (setterId r) (setterId r) (wrongCount r) (guesserOrder r)
              (turnIndex r) in
  let s' := withGame (withPlayers s (creditOpt (setterId r) (setterPoints r) (players s)))
              (withRound g Won (Some r')) in
  (s', emitGameState code s').

Definition letterOf (letter : string) : option ascii :=
  match toUpperCase letter with
  | String c EmptyString => if isUpperAZ c then Some c else None
  | _ => None
  end.

(** The common end of a wrong letter and of a failed solve:
<<
  r.wrongCount = (r.wrongCount || 0) + 1;
  const limited = !s.settings.unlimitedWrong;
  const limit = s.settings.wrongLimit ?? 6;
  if (limited && r.wrongCount >= limit) { finishRoundWithSetterWin(s, code); return; }
  advanceTurn(s);
  emitGameState(code);
>> *)
Definition wrongGuess (code : string) (s : Session) (g : Game) (r : Round)
  : Session * list Emit :=
  let r1 := mkRound (raw r) (masked r) (guessedLetters r) (hint r) (hintShown r)
              (setterId r) (winnerId r) (wrongCount r + 1) (guesserOrder r)
              (turnIndex r) in
  if negb (unlimitedWrong (settings s))
     && bool_decide (wrongLimit (settings s) ≤ wrongCount r1)
  then finishRoundWithSetterWin code s g r1
  else
    let s' := withGame s (withRound g (state g) (Some (advanceTurn r1))) in
    (s', emitGameState code s').

(** [player:guessLetter] *)
Definition playerGuessLetter (sid code letter : string) (s : Session)
  : Session * list Emit :=
  match game s with
  | None => (s, [])
  | Some g =>
      if negb (bool_decide (state g = Active)) then (s, []) else
      if negb (bool_decide (currentTurnPlayerId s = Some sid)) then (s, []) else
      match round g, letterOf letter with
      | Some r, Some L =>
          if bool_decide (L ∈ guessedLetters r) then (s, []) else
          let guessed := guessedLetters r ++ [L] in
          let r0 := mkRound (raw r) (masked r) guessed (hint r) (hintShown r)
                      (setterId r) (winnerId r) (wrongCount r) (guesserOrder r)
                      (turnIndex r) in
          if includes (raw r) L then
            let m := buildMasked (raw r) (list_to_set guessed) in
            let r1 := mkRound (raw r) m guessed (hint r) (hintShown r)
                        (setterId r) (winnerId r) (wrongCount r) (guesserOrder r)
                        (turnIndex r) in
            if negb (includes m "_"%char) then
              let r2 := mkRound (raw r1) (masked r1) (guessedLetters r1) (hint r1)
                          (hintShown r1) (setterId r1) (Some sid) (wrongCount r1)
                          (guesserOrder r1) (turnIndex r1) in
              let s' := withGame
                          (withPlayers s (credit sid (solverPoints r) (players s)))
                          (withRound g Won (Some r2)) in
              (s', emitGameState code s')
            else
              let s' := withGame s (withRound g (state g) (Some (advanceTurn r1))) in
              (s', emitGameState code s')
          else wrongGuess code s g r0
      | _, _ => (s, [])
      end
  end.

(** [player:solve] *)
Definition playerSolve (sid code guess : string) (s : Session)
  : Session * list Emit :=
  match game s with
  | None => (s, [])
  | Some g =>
      if negb (bool_decide (state g = Active)) then (s, []) else
      if negb (bool_decide (currentTurnPlayerId s = Some sid)) then (s, []) else
      match round g, normalizePhrase guess with
      | Some r, Some (String c rest as normGuess) =>
          if bool_decide (normGuess = raw r) then
            let r' := mkRound (raw r) (raw r) (guessedLetters r) (hint r)
                        (hintShown r) (setterId r) (Some sid) (wrongCount r)
                        (guesserOrder r) (turnIndex r) in
            let s' := withGame (withPlayers s (credit sid (solverPoints r) (players s)))
                        (withRound g Won (Some r')) in
            (s', emitGameState code s')
          else wrongGuess code s g r
      | _, _ => (s, [])
      end
  end.

(** *** The registry and the handlers that change it *)

(** An inbound socket event.  [newCode] of [ManagerEndGame] is [None] when
    the presentation socket is no longer connected, and otherwise the code
    that [makeCode] returned for the session that replaces the ended one. *)
Inductive Event :=
| AtvCreateSession (sid : string) (now : Z) (code : string)
| AtvGetPlayers (sid : string) (now : Z) (code : string)
| PlayerJoin (sid : string) (now : Z) (code nm : string)
| PlayerRejoin (sid : string) (now : Z) (code nm : string)
| PlayerRename (sid nm : string)
| ManagerSetSettings (sid : string) (r mn mx wl : option Z) (uw : option bool)
| ManagerStartGame (sid : string)
| ManagerNextRound (sid : string)
| ManagerEndGame (sid : string) (now : Z) (newCode : option string)
| SetterSubmitPhrase (sid phrase hnt : string)
| SetterShowHint (sid : string)
| PlayerGuessLetter (sid letter : string)
| PlayerSolve (sid guess : string)
| Disconnect (sid : string).

Definition withSessions (srv : Server) (m : gmap string Session) : Server :=
  mkServer m (sockCode srv).
Definition putSession (srv : Server) (code : string) (s : Session) : Server :=
  mkServer (<[code := s]> (sessions srv)) (sockCode srv).
Definition bind (srv : Server) (sid code : string) : Server :=
  mkServer (sessions srv) (<[sid := code]> (sockCode srv)).

(** [getSession(code)] *)
Definition getSession (now : Z) (code : string) (srv : Server)
  : option Session * Server :=
  match sessions srv !! code with
  | None => (None, srv)
  | Some s =>
      if bool_decide (now - createdAt s > CODE_TTL_MS)
      then (None, withSessions srv (delete code (sessions srv)))
      else (Some s, srv)
  end.

Definition inSession (srv : Server) (sid : string)
    (h : string → Session → option (Session * list Emit))
  : option (Server * list Emit) :=
  match sockCode srv !! sid with
  | None => Some (srv, [])
  | Some code =>
      match sessions srv !! code with
      | None => Some (srv, [])
      | Some s =>
          match h code s with
          | Some (s', out) => Some (putSession srv code s', out)
          | None => None
          end
      end
  end.

Definition newSession (atv : string) (now : Z) : Session :=
  {| atvSocketId := atv; createdAt := now; players := [];
     settings := mkSettings 3 3 50 6 false; game := None |}.

(** [atv:createSession] *)
Definition atvCreateSession (sid : string) (now : Z) (code : string) (srv : Server)
  : option (Server * list Emit) :=
  if isCode code && bool_decide (sessions srv !! code = None) then
    let s := newSession sid now in
    Some (bind (putSession srv code s) sid code,
          (ToSocket sid, SessionCreated code)
            :: emitSessionPlayers code s ++ emitGameState code s)
  else None.

(** [atv:getPlayers] *)
Definition atvGetPlayers (sid : string) (now : Z) (code : string) (srv : Server)
  : Server * list Emit :=
  match getSession now code srv with
  | (None, srv') => (srv', [(ToSocket sid, SessionEnded)])
  | (Some s, srv') =>
      (bind srv' sid code, emitSessionPlayers code s ++ emitGameState code s)
  end.

Definition cleanCode (code : string) : string := toUpperCase (trim code).
Definition joinInvalidMsg : string := "Invalid or expired code.".
Definition safeName (nm : string) : string := slice0 16 (orElse nm "Player").

(** [player:join] *)
Definition playerJoin (sid : string) (now : Z) (code0 nm : string) (srv : Server)
  : Server * list Emit :=
  let code := cleanCode code0 in
  match getSession now code srv with
  | (None, srv') => (srv', [(ToSocket sid, ErrorJoin joinInvalidMsg)])
  | (Some s, srv') =>
      let isMgr := bool_decide (length (players s) = 0%nat) in
      let s' := withPlayers s (players s ++ [mkPlayer sid (safeName nm) isMgr 0]) in
      (bind (putSession srv' code s') sid code,
       (ToSocket sid, PlayerJoined code isMgr)
         :: emitSessionPlayers code s' ++ emitGameState code s')
  end.

(** [player:rejoin]: the player of this socket id is renamed, otherwise a
    player is appended, as manager when the list is empty. *)
Definition playerRejoin (sid : string) (now : Z) (code0 nm : string) (srv : Server)
  : Server * list Emit :=
  let code := cleanCode code0 in
  match getSession now code srv with
  | (None, srv') => (srv', [(ToSocket sid, ErrorJoin joinInvalidMsg)])
  | (Some s, srv') =>
      let '(ps, mgr) :=
        match jsFind (hasId sid) (players s) with
        | None =>
            let isMgr := bool_decide (length (players s) = 0%nat) in
            (players s ++ [mkPlayer sid (safeName nm) isMgr 0], isMgr)
        | Some p =>
            (updateFirst (hasId sid) (setName (slice0 16 (orElse nm (name p))))
               (players s), isManager p)
        end in
      let s' := withPlayers s ps in
      (bind (putSession srv' code s') sid code,
       (ToSocket sid, PlayerJoined code mgr)
         :: emitSessionPlayers code s' ++ emitGameState code s')
  end.

(** [manager:endGame] *)
Definition managerEndGame (sid : string) (now : Z) (newCode : option string)
    (srv : Server) : option (Server * list Emit) :=
  match sockCode srv !! sid with
  | None => Some (srv, [])
  | Some code =>
      match sessions srv !! code with
      | None => Some (srv, [])
      | Some s =>
          match jsFind (isMgr sid) (players s) with
          | None => Some (srv, [])
          | Some _ =>
              let atvId := atvSocketId s in
              let srv1 := withSessions srv (delete code (sessions srv)) in
              match newCode with
              | None => Some (srv1, [(ToRoom code, SessionEnded)])
              | Some nc =>
                  if isCode nc && bool_decide (sessions srv1 !! nc = None) then
                    let s' := newSession atvId now in
                    Some (bind (putSession srv1 nc s') atvId nc,
                          (ToRoom code, SessionEnded)
                            :: (ToSocket atvId, SessionCreated nc)
                            :: emitSessionPlayers nc s' ++ emitGameState nc s')
                  else None
              end
          end
      end
  end.

Fixpoint removeFirst (x : string) (l : list string) : list string :=
  match l with
  | [] => []
  | y :: r => if bool_decide (y = x) then r else y :: removeFirst x r
  end.

(** The round part of [disconnect]: the guesser order loses the player, and
    an active round without guessers is finished for the setter. *)
Definition dropGuesser (code removedId : string) (s : Session)
  : Session * list Emit :=
  match game s with
  | None => (s, [])
  | Some g =>
      match round g with
      | None => (s, [])
      | Some r =>
          let r' := mkRound (raw r) (masked r) (guessedLetters r) (hint r)
                      (hintShown r) (setterId r) (winnerId r) (wrongCount r)
                      (removeFirst removedId (guesserOrder r)) (turnIndex r) in
          if bool_decide (length (guesserOrder r') = 0%nat)
             && bool_decide (state g = Active)
          then finishRoundWithSetterWin code s g r'
          else (withGame s (withRound g (state g) (Some r')), [])
      end
  end.

(** The phone branch of [disconnect], on the session *)
Definition removePlayer (code sid : string) (s : Session) : Session * list Emit :=
  match findIndex (hasId sid) (players s) with
  | None => (s, [])
  | Some idx =>
      let wasManager := from_option isManager false (players s !! idx) in
      let ps := delete idx (players s) in
      let ps' := if wasManager then promoteFirst ps else ps in
      dropGuesser code sid (withPlayers s ps')
  end.

(** [disconnect] *)
Definition disconnect (sid : string) (srv : Server) : Server * list Emit :=
  let gone := mkServer (sessions srv) (delete sid (sockCode srv)) in
  match sockCode srv !! sid with
  | None => (gone, [])
  | Some code =>
      match sessions srv !! code with
      | None => (gone, [])
      | Some s =>
          if bool_decide (atvSocketId s = sid) then
            (withSessions gone (delete code (sessions srv)),
             [(ToRoom code, SessionEnded)])
          else
            let '(s', out) := removePlayer code sid s in
            (putSession gone code s',
             out ++ emitSessionPlayers code s' ++ emitGameState code s')
      end
  end.

Definition total {A} (h : string → Session → A) : string → Session → option A :=
  λ code s, Some (h code s).

(** One inbound event, run to completion *)
Definition handle (srv : Server) (e : Event) : option (Server * list Emit) :=
  match e with
  | AtvCreateSession sid now code => atvCreateSession sid now code srv
  | AtvGetPlayers sid now code => Some (atvGetPlayers sid now code srv)
  | PlayerJoin sid now code nm => Some (playerJoin sid now code nm srv)
  | PlayerRejoin sid now code nm => Some (playerRejoin sid now code nm srv)
  | PlayerRename sid nm => inSession srv sid (total (λ c, playerRename sid c nm))
  | ManagerSetSettings sid r mn mx wl uw =>
      inSession srv sid (total (λ c, managerSetSettings sid c r mn mx wl uw))
  | ManagerStartGame sid => inSession srv sid (total (managerStartGame sid))
  | ManagerNextRound sid => inSession srv sid (total (managerNextRound sid))
  | ManagerEndGame sid now nc => managerEndGame sid now nc srv
  | SetterSubmitPhrase sid phrase hnt =>
      inSession srv sid (total (λ c, setterSubmitPhrase sid c phrase hnt))
  | SetterShowHint sid => inSession srv sid (setterShowHint sid)
  | PlayerGuessLetter sid letter =>
      inSession srv sid (total (λ c, playerGuessLetter sid c letter))
  | PlayerSolve sid guess => inSession srv sid (total (λ c, playerSolve sid c guess))
  | Disconnect sid => Some (disconnect sid srv)
  end.

Definition init : Server := mkServer ∅ ∅.

Fixpoint run (srv : Server) (es : list Event) : option (Server * list Emit) :=
  match es with
  | [] => Some (srv, [])
  | e :: rest =>
      match handle srv e with
      | None => None
      | Some (srv', out) =>
          match run srv' rest with
          | None => None
          | Some (srv'', out') => Some (srv'', out ++ out')
          end
      end
  end.

Inductive reachable : Server → Prop :=
| reach_init : reachable init
| reach_step srv e srv' out :
    reachable srv → handle srv e = Some (srv', out) → reachable srv'.

(** The effect of an event on a session that the registry holds before and
    after the event, when the event changes that session at all
    (see [wronglimit_handle_old]) *)
Definition onSession (e : Event) (code : string) (s : Session) : Session :=
  match e with
  | AtvCreateSession _ _ _ | AtvGetPlayers _ _ _ => s
  | ManagerEndGame _ now _ =>
      (* the session that replaces the ended one may get the same code *)
      newSession (atvSocketId s) now
  | PlayerJoin sid _ _ nm =>
      withPlayers s
        (players s ++ [mkPlayer sid (safeName nm)
                         (bool_decide (length (players s) = 0%nat)) 0])
  | PlayerRejoin sid _ _ nm =>
      withPlayers s
        match jsFind (hasId sid) (players s) with
        | None =>
            players s ++ [mkPlayer sid (safeName nm)
                            (bool_decide (length (players s) = 0%nat)) 0]
        | Some p =>
            updateFirst (hasId sid) (setName (slice0 16 (orElse nm (name p))))
              (players s)
        end
  | PlayerRename sid nm => (playerRename sid code nm s).1
  | ManagerSetSettings sid r mn mx wl uw =>
      (managerSetSettings sid code r mn mx wl uw s).1
  | ManagerStartGame sid => (managerStartGame sid code s).1
  | ManagerNextRound sid => (managerNextRound sid code s).1
  | SetterSubmitPhrase sid phrase hnt => (setterSubmitPhrase sid code phrase hnt s).1
  | SetterShowHint sid => from_option fst s (setterShowHint sid code s)
  | PlayerGuessLetter sid letter => (playerGuessLetter sid code letter s).1
  | PlayerSolve sid guess => (playerSolve sid code guess s).1
  | Disconnect sid => (removePlayer code sid s).1
  end.

Definition withRaw (x : string) (s : Session) : Session :=
  match game s with
  | Some g =>
      match round g with
      | Some r =>
          withGame s (withRound g (state g)
            (Some (mkRound x (masked r) (guessedLetters r) (hint r) (hintShown r)
                     (setterId r) (winnerId r) (wrongCount r) (guesserOrder r)
                     (turnIndex r))))
      | None => s
      end
  | None => s
  end.

Definition isStart (e : Event) : bool :=
  match e with ManagerStartGame _ => true | _ => false end.
Definition isNext (e : Event) : bool :=
  match e with ManagerNextRound _ => true | _ => false end.

Definition showHintOf (s : Session) (g : Game) (r : Round) : Session :=
  withGame s (withRound g (state g)
    (Some (mkRound (raw r) (masked r) (guessedLetters r) (hint r) true
             (setterId r) (winnerId r) (wrongCount r) (guesserOrder r)
             (turnIndex r)))).

Definition hintRevealed (s : Session) : Prop :=
  ∃ g r, game s = Some g ∧ round g = Some r ∧ hintShown r = true
         ∧ (state g = Active ∨ state g = Won).

(** The events that replace the round, or the whole session, by a new one *)
Definition startsRound (e : Event) : bool :=
  match e with
  | ManagerStartGame _ | ManagerNextRound _ | ManagerEndGame _ _ _ => true
  | _ => false
  end.

(** *** Scenarios *)

Definition serverAfter (es : list Event) : Server :=
  from_option fst init (run init es).

(** Alice and Bob join the session ABCD of a presentation display. *)
Definition lobby : list Event :=
  [AtvCreateSession "atv1" 0 "ABCD";
   PlayerJoin "alice" 10 "abcd" "Alice";
   PlayerJoin "bob" 20 "ABCD" "Bob"].

(** Alice starts the game and is the first setter. *)
Definition started : list Event := lobby ++ [ManagerStartGame "alice"].

(** Alice submits a phrase: a round is being played. *)
Definition playing : list Event :=
  started ++ [SetterSubmitPhrase "alice" "hello world" "a greeting"].

(** The manager changes [rounds] after the game has started. *)
Definition lateSettings : list Event :=
  started ++ [ManagerSetSettings "alice" (Some 5) None None None None].

(** The setter submits a phrase with a character outside the allow-list. *)
Definition badChars : list Event :=
  started ++ [SetterSubmitPhrase "alice" "a@b" EmptyString].




Definition maskOk (s : Session) : Prop :=
  ∀ g r, game s = Some g → round g = Some r →
    noLower (raw r) = true
    ∧ (state g = WaitingPhrase ∨ state g = Active →
       masked r = buildMasked (raw r) (list_to_set (guessedLetters r))).

(** Scenario A of the specification: Bob guesses O, then the other letters
    of HELLO WORLD. *)
Definition guessedO : list Event := playing ++ [PlayerGuessLetter "bob" "O"].
Definition allButD : list Event :=
  guessedO ++ (PlayerGuessLetter "bob" <$> ["h"; "e"; "l"; "w"; "r"]).
Definition scenarioA : list Event := allButD ++ [PlayerGuessLetter "bob" "d"].

(** Scenario B: Bob solves the phrase after O has been guessed. *)
Definition scenarioB : list Event := guessedO ++ [PlayerSolve "bob" "Hello  world"].

(** *** Code generation and the debug routes *)

(** [sessions.has(code)] *)
Definition has (srv : Server) (code : string) : bool :=
  bool_decide (is_Some (sessions srv !! code)).

(** [do { code = makeCode(); } while (sessions.has(code));] of
    [createSession]; the result tells how often the body has run. *)
Fixpoint createCodeLoop (fuel : nat) (srv : Server) (draws : list nat) (runs : nat)
  : option (string * list nat * nat) :=
  match fuel with
  | O => None
  | S k =>
      match makeCode 4 (has srv) draws with
      | None => None
      | Some (code, rest) =>
          if has srv code then createCodeLoop k srv rest (S runs)
          else Some (code, rest, S runs)
      end
  end.

(** [createSession(atvSocketId)] *)
Definition createSession (atv : string) (now : Z) (draws : list nat) (srv : Server)
  : option (string * Server * list nat) :=
  match createCodeLoop (S (length draws)) srv draws 0 with
  | Some (code, rest, _) =>
      Some (code, putSession srv code (newSession atv now), rest)
  | None => None
  end.

(** [app.get("/debug/reset", ...)]: [sessions.clear()] *)
Definition debugReset (srv : Server) : Server := withSessions srv ∅.

(** [app.get("/debug/create", ...)]; [suffix] is
    [Math.random().toString(36).slice(2, 8)]. *)
Definition debugCreate (suffix : string) (now : Z) (draws : list nat) (srv : Server)
  : option (string * Server * list nat) :=
  createSession ("HTTP_DEBUG_ATV_" +:+ suffix) now draws srv.

(** *** Further definitions used in the statements *)

(** The socket that sent the event *)
Definition sender (e : Event) : string :=
  match e with
  | AtvCreateSession sid _ _ | AtvGetPlayers sid _ _ | PlayerJoin sid _ _ _
  | PlayerRejoin sid _ _ _ | PlayerRename sid _ | ManagerSetSettings sid _ _ _ _ _
  | ManagerStartGame sid | ManagerNextRound sid | ManagerEndGame sid _ _
  | SetterSubmitPhrase sid _ _ | SetterShowHint sid | PlayerGuessLetter sid _
  | PlayerSolve sid _ | Disconnect sid => sid
  end.

(** The events that a handler runs on the session of [socket.data.code] *)
Definition inGame (e : Event) : bool :=
  match e with
  | PlayerRename _ _ | ManagerSetSettings _ _ _ _ _ _ | ManagerStartGame _
  | ManagerNextRound _ | SetterSubmitPhrase _ _ _ | SetterShowHint _
  | PlayerGuessLetter _ _ | PlayerSolve _ _ => true
  | _ => false
  end.

(** The manager lowers [maxLen] to 10 and then raises [minLen] to 40. *)
Definition crossedLimits : list Event :=
  lobby ++ [ManagerSetSettings "alice" None None (Some 10) None None;
            ManagerSetSettings "alice" None (Some 40) None None None].

(** The setter submits a phrase with an underscore. *)
Definition underscored : list Event :=
  started ++ [SetterSubmitPhrase "alice" "a_b" EmptyString].

(** What one event does to the players list of a session
    (see [wronglimit_players_step]) *)
Inductive Change := Kept | Joined | Renamed | Credited | Left | Ended.

Inductive playersStep (ps : list Player) : Change → list Player → Prop :=
| step_none : playersStep ps Kept ps
| step_join sid nm :
    playersStep ps Joined
      (ps ++ [mkPlayer sid (safeName nm) (bool_decide (length ps = 0%nat)) 0])
| step_rejoin_old sid nm p :
    jsFind (hasId sid) ps = Some p →
    playersStep ps Renamed
      (updateFirst (hasId sid) (setName (slice0 16 (orElse nm (name p)))) ps)
| step_rename sid nn :
    nn ≠ EmptyString → (String.length nn ≤ 24)%nat →
    playersStep ps Renamed (updateFirst (hasId sid) (setName nn) ps)
| step_credit sid pts :
    (1 ≤ pts ≤ 2)%nat → playersStep ps Credited (credit sid pts ps)
| step_leave i p :
    ps !! i = Some p →
    playersStep ps Left
      (if isManager p then promoteFirst (delete i ps) else delete i ps)
| step_leave_credit i p sid pts :
    ps !! i = Some p → (1 ≤ pts ≤ 2)%nat →
    playersStep ps Left
      (credit sid pts
         (if isManager p then promoteFirst (delete i ps) else delete i ps))
| step_end : playersStep ps Ended [].

(** The changes that the handler of an event can make *)
Definition changes (e : Event) : list Change :=
  match e with
  | PlayerJoin _ _ _ _ => [Joined]
  | PlayerRejoin _ _ _ _ => [Joined; Renamed]
  | PlayerRename _ _ => [Kept; Renamed]
  | PlayerGuessLetter _ _ | PlayerSolve _ _ => [Kept; Credited]
  | Disconnect _ => [Kept; Left]
  | ManagerEndGame _ _ _ => [Ended]
  | _ => [Kept]
  end.

(** A round exists while a phrase is awaited, guessed or resolved. *)
Definition roundPresent (s : Session) : Prop :=
  ∀ g, game s = Some g → state g ≠ Idle → state g ≠ Over → is_Some (round g).

(** The setter of a round is not one of its guessers. *)
Definition setterApart (s : Session) : Prop :=
  ∀ g r x, game s = Some g → round g = Some r →
    setterId r = Some x → x ∉ guesserOrder r.

(** The letters guessed in the round are distinct capitals. *)
Definition guessedOk (s : Session) : Prop :=
  ∀ g r, game s = Some g → round g = Some r → lettersOk (guessedLetters r).


(** The ranges that [manager:setSettings] keeps the settings in *)
Definition settingsInRange (st : Settings) : Prop :=
  1 ≤ rounds st ≤ 20 ∧ 1 ≤ minLen st ≤ 40 ∧ 1 ≤ maxLen st ≤ 60
  ∧ 1 ≤ wrongLimit st ≤ 26.

End WrongLimit.

(** ** The first server of [server.js]: the projected game state

    Only the data and [emitGameState] of the first variant ("sessions +
    rounds + guesses + hint + scoring") are embedded; its handlers advance
    the rounds with timers and are not part of this development. *)

Module Early.

Record Settings := mkSettings { rounds : Z; minLen : Z; maxLen : Z }.

(** The round skeleton of [startNextRound]; [phrase] is always [null]. *)
Record Round := mkRound {
  setterId : string;
  hint : string;
  masked : string;
  raw : string;
  guessedLetters : list ascii;
  hintShown : bool;
  turnIndex : nat;
  guesserOrder : list string;
  winnerId : option string
}.

Record Game := mkGame {
  roundIndex : Z;
  setterIndex : Z;
  state : GState;
  round : option Round
}.

Record Session := mkSession {
  atvSocketId : string;
  createdAt : Z;
  players : list Player;
  settings : Settings;
  game : option Game
}.

(** The payload of [game:state]:
    [// do NOT send raw phrase; only setter gets a local echo via ack] *)
Record View := mkView {
  v_state : GState;
  v_roundsTotal : Z;
  v_roundIndex : Z;
  v_setterId : option string;
  v_hintShown : bool;
  v_masked : string;
  v_guessedLetters : list ascii;
  v_winnerId : option string;
  v_scores : list ScoreView
}.

Definition gameStateView (s : Session) : View :=
  let g := game s in
  let r := g ≫= round in
  {| v_state := from_option state Idle g;
     v_roundsTotal := rounds (settings s);
     v_roundIndex := from_option roundIndex (-1) g;
     v_setterId := setterId <$> r;
     v_hintShown := from_option hintShown false r;
     v_masked := from_option masked EmptyString r;
     v_guessedLetters := from_option guessedLetters [] r;
     v_winnerId := r ≫= winnerId;
     v_scores := scoresView (players s) |}.

(** The round with another secret phrase *)
Definition withRaw (x : string) (s : Session) : Session :=
  match game s with
  | Some g =>
      match round g with
      | Some r =>
          mkSession (atvSocketId s) (createdAt s) (players s) (settings s)
            (Some (mkGame (roundIndex g) (setterIndex g) (state g)
                     (Some (mkRound (setterId r) (hint r) (masked r) x
                              (guessedLetters r) (hintShown r) (turnIndex r)
                              (guesserOrder r) (winnerId r)))))
      | None => s
      end
  | None => s
  end.

(** [normalizePhrase] of the first server, which calls [input.toUpperCase()]
    on the string it is given; its allow-list has no digits. *)
Definition normalizePhrase : string → option string :=
  normalizePhrase allowedLetters.

End Early.

(** * Properties *)

(** ** Proof automation *)

(** Case analysis over the eight bits of a character *)
Ltac each_ascii c := destruct c as [[] [] [] [] [] [] [] []].

(** Use the equation of a handler result, keeping the lookup [Hs'] *)
Ltac step_eq Hs' := revert Hs'; simplify_eq; intros Hs'; simpl in Hs'.

(** A lookup in the new registry that contradicts the old one *)
Ltac absurd_lookup Hs' :=
  first [congruence
        |apply lookup_delete_Some in Hs' as [_ ?]; congruence
        |rewrite lookup_insert_ne in Hs' by congruence; congruence].

(** Case analysis over the tests of a handler *)
Ltac handler_cases :=
  repeat first
    [ progress simplify_eq/=
    | case_bool_decide
    | case_match ].

(** ** Examples of normalisation *)

Example normalize_hello :
  normalizePhrase allowedLetters "  hello   world " = Some "HELLO WORLD".
Proof. reflexivity. Qed.

Example normalize_bad :
  normalizePhrase allowedLetters "a_b" = None.
Proof. reflexivity. Qed.

Example normalize_digits :
  normalizePhrase allowedLettersDigits "route 66" = Some "ROUTE 66"
  ∧ normalizePhrase allowedLetters "route 66" = None.
Proof. split; reflexivity. Qed.

Example words_ex :
  PhraseSpec.words "  to be   or not" = ["to"; "be"; "or"; "not"].
Proof. reflexivity. Qed.

Example canonical_ex : PhraseSpec.canonical " it's  a-b. " = "IT'S A-B.".
Proof. reflexivity. Qed.

(** ** Characters *)



Lemma blank_isSpace c : PhraseSpec.blank c = isSpace c.
Proof. each_ascii c; reflexivity. Qed.



Lemma upperChar_not_lower c : isLowerAZ (upperChar c) = false.
Proof. each_ascii c; reflexivity. Qed.

Lemma upperChar_id c : isLowerAZ c = false → upperChar c = c.
Proof. unfold upperChar. by intros ->. Qed.

Lemma isUpperAZ_upperChar c : isLetter c = true → isUpperAZ (upperChar c) = true.
Proof. each_ascii c; (reflexivity || discriminate). Qed.

Lemma isLetter_upper_only c :
  isLowerAZ c = false → isLetter c = isUpperAZ c.
Proof. unfold isLetter. intros ->. by rewrite orb_false_r. Qed.

Lemma sall_ext p q s : (∀ c, p c = q c) → sall p s = sall q s.
Proof. intros E. induction s as [|c r IH]; simpl; [done|]. by rewrite E, IH. Qed.


Lemma orElse_empty s : orElse s EmptyString = s.
Proof. by destruct s. Qed.

(** ** Whitespace collapsing and trimming give the words joined by spaces *)

Lemma trimStart_collapse_run s :
  trimStart (collapseGo true s) = collapseGo true s.
Proof.
  induction s as [|c r IH]; simpl; [done|].
  destruct (isSpace c) eqn:Hc; simpl; [done|]. by rewrite Hc.
Qed.

Lemma trimStart_collapse s :
  trimStart (collapseGo false s) = collapseGo true s.
Proof.
  destruct s as [|c r]; simpl; [done|].
  destruct (isSpace c) eqn:Hc; simpl.
  - apply trimStart_collapse_run.
  - by rewrite Hc.
Qed.

Lemma words_cons c r :
  PhraseSpec.words (String c r)
  = if isSpace c then PhraseSpec.words r
    else match r with
         | EmptyString => [String c EmptyString]
         | String d _ =>
             if isSpace d then String c EmptyString :: PhraseSpec.words r
             else match PhraseSpec.words r with
                  | w :: ws => String c w :: ws
                  | [] => [String c EmptyString]
                  end
         end.
Proof.
  cbn [PhraseSpec.words]. rewrite blank_isSpace.
  destruct r as [|d r']; [done|]. by rewrite blank_isSpace.
Qed.

Lemma words_nonempty s : Forall (λ w, w ≠ EmptyString) (PhraseSpec.words s).
Proof.
  induction s as [|c r IH]; [constructor|]. rewrite words_cons.
  destruct (isSpace c); [done|].
  destruct r as [|d r']; [by repeat constructor|].
  destruct (isSpace d); [by constructor|].
  destruct (PhraseSpec.words (String d r')) as [|w ws]; [by repeat constructor|].
  inversion IH; subst. by constructor.
Qed.

Lemma words_head_nonspace c r :
  isSpace c = false → PhraseSpec.words (String c r) ≠ [].
Proof.
  intros Hc. rewrite words_cons, Hc.
  destruct r as [|d r']; [done|].
  destruct (isSpace d); [done|].
  by destruct (PhraseSpec.words (String d r')).
Qed.

Lemma unwords_empty ws :
  Forall (λ w, w ≠ EmptyString) ws →
  PhraseSpec.unwords ws = EmptyString → ws = [].
Proof.
  destruct ws as [|w rest]; [done|].
  intros Hne. inversion Hne as [|? ? Hw _]; subst. simpl.
  destruct rest; [done|]. destruct w; [done|]. discriminate.
Qed.

Lemma unwords_cons_char c w ws :
  PhraseSpec.unwords (String c w :: ws) = String c (PhraseSpec.unwords (w :: ws)).
Proof. simpl. by destruct ws. Qed.

Lemma trimEnd_collapse_words s :
  trimEnd (collapseGo true s) = PhraseSpec.unwords (PhraseSpec.words s).
Proof.
  induction s as [|c r IH]; [done|].
  rewrite words_cons. cbn [collapseGo].
  destruct (isSpace c) eqn:Hc; [exact IH|].
  cbn [trimEnd]. destruct r as [|d r'].
  { simpl. by rewrite Hc. }
  destruct (isSpace d) eqn:Hd.
  - (* the word ends at [c] *)
    cbn [collapseGo] in *. rewrite Hd in *. cbn [trimEnd].
    rewrite IH.
    pose proof (words_nonempty (String d r')) as Hne.
    destruct (PhraseSpec.words (String d r')) as [|w ws] eqn:Hw.
    + simpl. by rewrite Hc.
    + destruct (PhraseSpec.unwords (w :: ws)) eqn:Hu.
      { by apply unwords_empty in Hu. }
      change (PhraseSpec.unwords (String c EmptyString :: w :: ws))
        with (String c (String " " (PhraseSpec.unwords (w :: ws)))).
      by rewrite Hu.
  - (* the word continues with [d] *)
    assert (collapseGo false (String d r') = collapseGo true (String d r')) as ->.
    { simpl. by rewrite Hd. }
    rewrite IH.
    pose proof (words_nonempty (String d r')) as Hne.
    pose proof (words_head_nonspace d r' Hd) as Hnil.
    destruct (PhraseSpec.words (String d r')) as [|w ws] eqn:Hw; [done|].
    rewrite unwords_cons_char.
    destruct (PhraseSpec.unwords (w :: ws)) eqn:Hu; [|done].
    by apply unwords_empty in Hu.
Qed.

Lemma trim_collapse_words s :
  trim (collapseWhitespace s) = PhraseSpec.unwords (PhraseSpec.words s).
Proof.
  unfold trim, collapseWhitespace.
  by rewrite trimStart_collapse, trimEnd_collapse_words.
Qed.

(** ** The phrase normaliser *)







(** ** The masker *)

Lemma fullAlphabet_spec c : bool_decide (c ∈ fullAlphabet) = isUpperAZ c.
Proof. each_ascii c; vm_compute; reflexivity. Qed.

Lemma smap_ext f g s : (∀ c, includes s c = true → f c = g c) → smap f s = smap g s.
Proof.
  induction s as [|c r IH]; simpl; [done|]. intros E. f_equal.
  - apply E. by rewrite bool_decide_true.
  - apply IH. intros d Hd. apply E. by rewrite Hd, orb_true_r.
Qed.

Lemma smap_id f s : (∀ c, includes s c = true → f c = c) → smap f s = s.
Proof.
  induction s as [|c r IH]; simpl; [done|]. intros E. f_equal.
  - apply E. by rewrite bool_decide_true.
  - apply IH. intros d Hd. apply E. by rewrite Hd, orb_true_r.
Qed.

Lemma sall_includes p s c : sall p s = true → includes s c = true → p c = true.
Proof.
  induction s as [|d r IH]; simpl; [done|].
  intros [Hd Hr]%andb_true_iff [Hc|Hc]%orb_true_iff; [|by apply IH].
  apply bool_decide_eq_true in Hc. by subst.
Qed.

Lemma noLower_includes s c :
  noLower s = true → includes s c = true → isLowerAZ c = false.
Proof.
  intros Hs Hc. apply (sall_includes _ _ _ Hs) in Hc. by apply negb_true_iff.
Qed.

Lemma noLower_toUpperCase s : noLower (toUpperCase s) = true.
Proof.
  induction s as [|c r IH]; [done|]. unfold noLower in *.
  cbn [toUpperCase smap sall]. rewrite upperChar_not_lower. exact IH.
Qed.

Lemma toUpperCase_noLower s : noLower s = true → toUpperCase s = s.
Proof.
  intros H. apply smap_id. intros c Hc. apply upperChar_id.
  by eapply noLower_includes.
Qed.

Lemma baseline_maskChar_spec g c :
  isLowerAZ c = false → Baseline.maskChar g c = specMaskChar g c.
Proof.
  intros Hc. unfold Baseline.maskChar, specMaskChar.
  by rewrite (isLetter_upper_only _ Hc), (upperChar_id _ Hc).
Qed.

Lemma wronglimit_maskChar_spec g c :
  isLowerAZ c = false → WrongLimit.maskChar g c = specMaskChar g c.
Proof.
  intros Hc. unfold WrongLimit.maskChar, specMaskChar.
  by rewrite (upperChar_id _ Hc).
Qed.

Lemma baseline_buildMasked_spec raw g :
  noLower raw = true → Baseline.buildMasked raw g = specMask raw g.
Proof.
  intros H. apply smap_ext. intros c Hc.
  apply baseline_maskChar_spec. by eapply noLower_includes.
Qed.

Lemma wronglimit_buildMasked_spec raw g :
  noLower raw = true → WrongLimit.buildMasked raw g = specMask raw g.
Proof.
  intros H. apply smap_ext. intros c Hc.
  apply wronglimit_maskChar_spec. by eapply noLower_includes.
Qed.

Lemma specMask_full raw : specMask raw fullAlphabet = raw.
Proof.
  apply smap_id. intros c _. unfold specMaskChar.
  destruct (isLetter c) eqn:Hc; [|done].
  by rewrite fullAlphabet_spec, (isUpperAZ_upperChar _ Hc).
Qed.

Lemma specMask_empty raw : specMask raw ∅ = hideLetters raw.
Proof.
  apply smap_ext. intros c _. unfold specMaskChar.
  destruct (isLetter c); [|done]. by rewrite bool_decide_false.
Qed.

Lemma charAt_smap f s i : charAt (smap f s) i = f <$> charAt s i.
Proof.
  revert i. induction s as [|c r IH]; intros [|i]; simpl; auto.
Qed.

(** The baseline masker leaves every string unchanged under the full
    alphabet; the other masker returns the upper-cased string. *)
Lemma baseline_buildMasked_full raw : Baseline.buildMasked raw fullAlphabet = raw.
Proof.
  apply smap_id. intros c _. unfold Baseline.maskChar.
  rewrite fullAlphabet_spec. by destruct (isUpperAZ c).
Qed.

Lemma wronglimit_buildMasked_full raw :
  WrongLimit.buildMasked raw fullAlphabet = toUpperCase raw.
Proof.
  apply smap_ext. intros c _. unfold WrongLimit.maskChar.
  rewrite fullAlphabet_spec.
  destruct (isLetter c) eqn:Hc.
  - by rewrite (isUpperAZ_upperChar _ Hc).
  - apply eq_sym, upperChar_id. unfold isLetter in Hc.
    by apply orb_false_iff in Hc as [_ ?].
Qed.

(** C5 (as amended).  On a phrase without lower-case letters, which is what
    the handlers pass, both maskers are the character-wise map of the
    specification: a letter is shown when it is in the guessed set and is
    an underscore otherwise, any other character is shown verbatim, and the
    character at every position only depends on the character of the
    phrase at that position.  With the full alphabet guessed the result is
    the phrase itself, and with nothing guessed exactly the letters are
    hidden. *)
Theorem buildMasked_upper_phrase (raw : string) (guessed : gset ascii)
    (Hraw : noLower raw = true) :
  Baseline.buildMasked raw guessed = specMask raw guessed
  ∧ WrongLimit.buildMasked raw guessed = specMask raw guessed
  ∧ (∀ i, charAt (specMask raw guessed) i = specMaskChar guessed <$> charAt raw i)
  ∧ Baseline.buildMasked raw fullAlphabet = raw
  ∧ WrongLimit.buildMasked raw fullAlphabet = raw
  ∧ Baseline.buildMasked raw ∅ = hideLetters raw
  ∧ WrongLimit.buildMasked raw ∅ = hideLetters raw.
Proof.
  split_and!.
  - by apply baseline_buildMasked_spec.
  - by apply wronglimit_buildMasked_spec.
  - intros i. apply charAt_smap.
  - apply baseline_buildMasked_full.
  - by rewrite wronglimit_buildMasked_full, toUpperCase_noLower.
  - by rewrite baseline_buildMasked_spec, specMask_empty.
  - by rewrite wronglimit_buildMasked_spec, specMask_empty.
Qed.

Lemma buildMasked_upper_phrase_witness :
  noLower "HELLO WORLD" = true
  ∧ Baseline.buildMasked "HELLO WORLD" {["O"%char]} = "____O _O___"
  ∧ WrongLimit.buildMasked "HELLO WORLD" fullAlphabet = "HELLO WORLD"
  ∧ WrongLimit.buildMasked "HELLO WORLD" ∅ = "_____ _____".
Proof.
  assert (H : noLower "HELLO WORLD" = true) by reflexivity.
  split; [exact H|].
  destruct (buildMasked_upper_phrase "HELLO WORLD" {["O"%char]} H)
    as (Hb & _ & _ & _ & Hf & _ & He).
  split; [rewrite Hb; vm_compute; reflexivity|].
  split; [exact Hf|]. rewrite He. reflexivity.
Defined.

(** C5, as stated, fails on a lower-case phrase: the masker of the
    wrong-limit server reveals a lower-case letter as its upper-case form,
    so the full alphabet does not give the phrase back, and the baseline
    masker treats a lower-case letter as a character to show, so the empty
    set does not hide it. *)
Lemma buildMasked_lowercase_counterexample :
  WrongLimit.buildMasked "a" fullAlphabet = "A"
  ∧ WrongLimit.buildMasked "a" fullAlphabet ≠ "a"
  ∧ Baseline.buildMasked "a" ∅ = "a"
  ∧ ¬ (∀ raw, WrongLimit.buildMasked raw fullAlphabet = raw).
Proof.
  split_and!; [by vm_compute | by vm_compute | by vm_compute |].
  intros H. specialize (H "a"). by vm_compute in H.
Qed.

(** ** The baseline server: what one event does to one session *)

Section BaselineSteps.
Import Baseline.

Lemma baseline_getSession_cases now code srv :
  getSession now code srv = (None, srv)
  ∨ getSession now code srv = (None, withSessions srv (delete code (sessions srv)))
  ∨ ∃ s, sessions srv !! code = Some s ∧ now - createdAt s ≤ CODE_TTL_MS
         ∧ getSession now code srv = (Some s, srv).
Proof.
  unfold getSession. destruct (sessions srv !! code) as [s|] eqn:Hs; [|by left].
  case_bool_decide; [by right; left|].
  right; right. exists s. split_and!; [done|lia|done].
Qed.

Lemma baseline_inSession_old srv sid h srv' out code (s s' : Session) :
  inSession srv sid h = Some (srv', out) →
  sessions srv !! code = Some s → sessions srv' !! code = Some s' →
  s' = s ∨ ∃ o, h code s = Some (s', o).
Proof.
  unfold inSession. intros H Hs Hs'.
  destruct (sockCode srv !! sid) as [c|]; [|by left; simplify_eq].
  destruct (sessions srv !! c) as [s0|] eqn:Hc; [|by left; simplify_eq].
  destruct (h c s0) as [[s1 o]|] eqn:Hh; [|done]. simplify_eq. simpl in Hs'.
  destruct (decide (c = code)) as [->|Hne].
  - rewrite lookup_insert_eq in Hs'. simplify_eq. right. by exists out.
  - rewrite lookup_insert_ne in Hs' by done. left. by simplify_eq.
Qed.

Lemma baseline_inSession_new srv sid h srv' out code :
  inSession srv sid h = Some (srv', out) →
  sessions srv !! code = None → sessions srv' !! code = None.
Proof.
  unfold inSession. intros H Hs.
  destruct (sockCode srv !! sid) as [c|]; [|by simplify_eq].
  destruct (sessions srv !! c) as [s0|] eqn:Hc; [|by simplify_eq].
  destruct (h c s0) as [[s1 o]|] eqn:Hh; [|done]. simplify_eq. simpl.
  rewrite lookup_insert_ne; [done|]. intros ->. congruence.
Qed.

Ltac in_session_case H Hs Hs' :=
  destruct (baseline_inSession_old _ _ _ _ _ _ _ _ H Hs Hs') as [?|[o Ho]];
  [by left
  |right; unfold total in Ho; simpl;
   first [injection Ho as Ho; by rewrite Ho | by rewrite Ho]].

Lemma baseline_handle_old srv e srv' out code s s' :
  handle srv e = Some (srv', out) →
  sessions srv !! code = Some s → sessions srv' !! code = Some s' →
  s' = s ∨ s' = onSession e code s.
Proof.
  intros H Hs Hs'. destruct e; simpl in H.
  - (* atv:createSession *)
    unfold atvCreateSession in H.
    destruct (isCode code0 && bool_decide (sessions srv !! code0 = None)) eqn:Hc;
      [|done].
    apply andb_true_iff in Hc as [_ Hf%bool_decide_eq_true]. simplify_eq.
    simpl in Hs'. rewrite lookup_insert_ne in Hs' by congruence.
    left. by simplify_eq.
  - (* atv:getPlayers *)
    unfold atvGetPlayers in H.
    destruct (baseline_getSession_cases now (cleanCode code0) srv)
      as [E|[E|(s0 & Hs0 & _ & E)]]; rewrite E in H; step_eq Hs'.
    + left. by simplify_eq.
    + left. apply lookup_delete_Some in Hs' as [_ ?]. by simplify_eq.
    + destruct (decide (cleanCode code0 = code)) as [<-|Hne].
      * rewrite lookup_insert_eq in Hs'. right. by simplify_eq.
      * rewrite lookup_insert_ne in Hs' by done. left. by simplify_eq.
  - (* player:join *)
    unfold playerJoin in H.
    destruct (baseline_getSession_cases now (cleanCode code0) srv)
      as [E|[E|(s0 & Hs0 & _ & E)]]; rewrite E in H; step_eq Hs'.
    + left. by simplify_eq.
    + left. apply lookup_delete_Some in Hs' as [_ ?]. by simplify_eq.
    + case_bool_decide as Hfull; step_eq Hs'.
      { left. by simplify_eq. }
      destruct (decide (cleanCode code0 = code)) as [<-|Hne].
      * rewrite lookup_insert_eq in Hs'. right. simplify_eq. simpl.
        by rewrite (bool_decide_false _ Hfull).
      * rewrite lookup_insert_ne in Hs' by done. left. by simplify_eq.
  - (* player:rejoin *)
    unfold playerRejoin in H.
    destruct (baseline_getSession_cases now (cleanCode code0) srv)
      as [E|[E|(s0 & Hs0 & _ & E)]]; rewrite E in H; step_eq Hs'.
    + left. by simplify_eq.
    + left. apply lookup_delete_Some in Hs' as [_ ?]. by simplify_eq.
    + destruct (decide (cleanCode code0 = code)) as [<-|Hne].
      * rewrite lookup_insert_eq in Hs'. right. by simplify_eq.
      * rewrite lookup_insert_ne in Hs' by done. left. by simplify_eq.
  - in_session_case H Hs Hs'.
  - in_session_case H Hs Hs'.
  - in_session_case H Hs Hs'.
  - in_session_case H Hs Hs'.
  - in_session_case H Hs Hs'.
  - in_session_case H Hs Hs'.
  - in_session_case H Hs Hs'.
  - in_session_case H Hs Hs'.
  - (* disconnect *)
    unfold disconnect in H.
    destruct (sockCode srv !! sid) as [c|]; [|left; step_eq Hs'; congruence].
    destruct (sessions srv !! c) as [s0|] eqn:Hc;
      [|left; step_eq Hs'; congruence].
    case_bool_decide as Hatv.
    + case_bool_decide; step_eq Hs'.
      * destruct (decide (c = code)) as [->|Hne].
        -- rewrite lookup_insert_eq in Hs'. right. simplify_eq. simpl.
           by rewrite (bool_decide_true _ Hatv).
        -- rewrite lookup_insert_ne in Hs' by done. left. by simplify_eq.
      * left. apply lookup_delete_Some in Hs' as [_ ?]. by simplify_eq.
    + step_eq Hs'.
      destruct (decide (c = code)) as [->|Hne].
      * rewrite lookup_insert_eq in Hs'. right. simplify_eq. simpl.
        by rewrite (bool_decide_false _ Hatv).
      * rewrite lookup_insert_ne in Hs' by done. left. by simplify_eq.
Qed.

Lemma baseline_handle_new srv e srv' out code s' :
  handle srv e = Some (srv', out) →
  sessions srv !! code = None → sessions srv' !! code = Some s' →
  ∃ atv now, s' = newSession atv now.
Proof.
  intros H Hs Hs'.
  assert (sessions srv' !! code = None → False) as Habs by (intros ?; congruence).
  destruct e; simpl in H;
    try (exfalso; apply Habs; by eapply baseline_inSession_new).
  - unfold atvCreateSession in H.
    destruct (isCode code0 && bool_decide (sessions srv !! code0 = None)); [|done].
    step_eq Hs'.
    destruct (decide (code0 = code)) as [->|Hne].
    + rewrite lookup_insert_eq in Hs'. simplify_eq. eauto.
    + rewrite lookup_insert_ne in Hs' by done. congruence.
  - unfold atvGetPlayers in H.
    destruct (baseline_getSession_cases now (cleanCode code0) srv)
      as [E|[E|(s0 & Hs0 & _ & E)]]; rewrite E in H; step_eq Hs';
      absurd_lookup Hs'.
  - unfold playerJoin in H.
    destruct (baseline_getSession_cases now (cleanCode code0) srv)
      as [E|[E|(s0 & Hs0 & _ & E)]]; rewrite E in H;
      try case_bool_decide; step_eq Hs'; absurd_lookup Hs'.
  - unfold playerRejoin in H.
    destruct (baseline_getSession_cases now (cleanCode code0) srv)
      as [E|[E|(s0 & Hs0 & _ & E)]]; rewrite E in H; step_eq Hs';
      absurd_lookup Hs'.
  - unfold disconnect in H.
    destruct (sockCode srv !! sid) as [c|]; [|step_eq Hs'; congruence].
    destruct (sessions srv !! c) as [s0|] eqn:Hc; [|step_eq Hs'; congruence].
    repeat case_bool_decide; step_eq Hs'; absurd_lookup Hs'.
Qed.

(** A property of sessions that holds of a new session and is kept by the
    effect of every event holds of every session of a reachable server. *)
Lemma baseline_invariant (Inv : Session → Prop) :
  (∀ atv now, Inv (newSession atv now)) →
  (∀ e code s, Inv s → Inv (onSession e code s)) →
  ∀ srv, reachable srv → ∀ code s, sessions srv !! code = Some s → Inv s.
Proof.
  intros Hnew Hstep srv Hr. induction Hr as [|srv e srv' out Hr IH Hh].
  - intros code s Hs. simpl in Hs. by rewrite lookup_empty in Hs.
  - intros code s' Hs'.
    destruct (sessions srv !! code) as [s|] eqn:Hs.
    + destruct (baseline_handle_old _ _ _ _ _ _ _ Hh Hs Hs') as [->| ->]; eauto.
    + destruct (baseline_handle_new _ _ _ _ _ _ Hh Hs Hs') as (atv & now & ->); eauto.
Qed.

End BaselineSteps.

(** ** The baseline server: setter order and setter pointer *)

Section BaselinePointer.
Import Baseline.

Lemma repeatIds_length n (ids : list string) :
  length (repeatIds n ids) = (n * length ids)%nat.
Proof. induction n as [|n IH]; simpl; [done|]. rewrite length_app, IH. lia. Qed.

Lemma lapsOf_rounds r : 1 ≤ r → lapsOf r = Z.to_nat r.
Proof. intros H. unfold lapsOf. rewrite bool_decide_false by lia. f_equal. lia. Qed.

Lemma Baseline_intIn_Some x lo hi v :
  intIn x lo hi = Some v → x = Some v ∧ lo ≤ v ≤ hi.
Proof.
  unfold intIn. destruct x as [w|]; [|done]. case_bool_decide; [|done].
  intros [= ->]. done.
Qed.

Lemma applySettings_rounds r mn mx st :
  1 ≤ rounds st ≤ 20 → 1 ≤ rounds (applySettings r mn mx st) ≤ 20.
Proof.
  intros H. unfold applySettings.
  destruct (intIn r 1 20) as [v|] eqn:Hr;
    [apply Baseline_intIn_Some in Hr as [_ ?]|];
    destruct (intIn mn 1 40); simpl; destruct (intIn mx _ 60); simpl; lia.
Qed.

Lemma baseline_settingsOk_step e code s :
  settingsOk s → settingsOk (onSession e code s).
Proof.
  unfold settingsOk. intros H.
  destruct e; simpl; try done.
  - by case_bool_decide.
  - unfold playerRename. by handler_cases.
  - unfold managerSetSettings. handler_cases; try done.
    by apply applySettings_rounds.
  - unfold managerStartGame, startWaitingForPhrase. by handler_cases.
  - unfold managerNextRound, maybeGameOver, startWaitingForPhrase.
    by handler_cases.
  - unfold setterSubmitPhrase. by handler_cases.
  - unfold setterShowHint. by handler_cases.
  - unfold playerGuessLetter. by handler_cases.
  - unfold playerSolve. by handler_cases.
  - unfold removePlayer, dropGuesser. by handler_cases.
Qed.

Lemma baseline_play_frame e code s g :
  isStart e = false → isNext e = false → game s = Some g →
  ∃ g', game (onSession e code s) = Some g' ∧ playFrame g g'.
Proof.
  intros Hst Hnx Hg.
  assert (playFrame g g) as Hrefl by (by repeat split).
  destruct e; try done; simpl.
  - eauto.
  - eauto.
  - case_bool_decide; eauto.
  - eauto.
  - unfold playerRename. handler_cases; eauto.
  - unfold managerSetSettings. handler_cases; eauto.
  - unfold setterSubmitPhrase. rewrite Hg.
    handler_cases; eauto; (eexists; split; [reflexivity|]);
      repeat split; simpl; try done; congruence.
  - unfold setterShowHint. rewrite Hg.
    handler_cases; eauto; (eexists; split; [reflexivity|]);
      repeat split; simpl; try done; congruence.
  - unfold playerGuessLetter. rewrite Hg.
    handler_cases; eauto; (eexists; split; [reflexivity|]);
      repeat split; simpl; try done; congruence.
  - unfold playerSolve. rewrite Hg.
    handler_cases; eauto; (eexists; split; [reflexivity|]);
      repeat split; simpl; try done; congruence.
  - case_bool_decide; [eauto|].
    unfold removePlayer, dropGuesser.
    handler_cases; eauto; (eexists; split; [reflexivity|]);
      repeat split; simpl; try done; congruence.
Qed.

Lemma baseline_play_nogame e code s :
  isStart e = false → game s = None → game (onSession e code s) = None.
Proof.
  intros Hst Hg. destruct e; try done; simpl; try done.
  - by case_bool_decide.
  - unfold playerRename. by handler_cases.
  - unfold managerSetSettings. by handler_cases.
  - unfold managerNextRound. by rewrite Hg.
  - unfold setterSubmitPhrase. by rewrite Hg.
  - unfold setterShowHint. by rewrite Hg.
  - unfold playerGuessLetter. by rewrite Hg.
  - unfold playerSolve. by rewrite Hg.
  - case_bool_decide; [done|].
    unfold removePlayer, dropGuesser. handler_cases; done.
Qed.

Lemma baseline_buildSetterOrder s :
  settingsOk s →
  buildSetterOrder s = repeatIds (Z.to_nat (rounds (settings s))) (id <$> players s)
  ∧ Z.of_nat (length (buildSetterOrder s))
    = Z.of_nat (length (players s)) * rounds (settings s).
Proof.
  intros [H1 H20]. unfold buildSetterOrder. rewrite lapsOf_rounds by done.
  split; [done|]. rewrite repeatIds_length, length_fmap. lia.
Qed.

Lemma baseline_start_accepted sid code s m :
  settingsOk s → jsFind (isMgr sid) (players s) = Some m →
  (2 ≤ length (players s))%nat →
  ∃ g', game (managerStartGame sid code s).1 = Some g'
        ∧ setterOrder g' = buildSetterOrder s
        ∧ setterPointer g' = 0%nat ∧ state g' = WaitingPhrase
        ∧ (length (setterOrder g') > 0)%nat.
Proof.
  intros Hok Hm H2. unfold managerStartGame. rewrite Hm.
  rewrite bool_decide_false by lia.
  destruct (baseline_buildSetterOrder s Hok) as [_ Hlen].
  assert (length (buildSetterOrder s) > 0)%nat as Hpos.
  { destruct Hok. nia. }
  assert (setterOrder (gameForStart s) = buildSetterOrder s) as Ho.
  { unfold gameForStart. by destruct (game s). }
  assert (setterPointer (gameForStart s) = 0%nat) as Hp.
  { unfold gameForStart. by destruct (game s). }
  destruct (setterOrder (gameForStart s)) as [|x l] eqn:E.
  { rewrite <- Ho in Hpos. simpl in Hpos. lia. }
  simpl. eexists. split; [reflexivity|]. simpl. rewrite E, Hp.
  split_and!; try done. simpl. lia.
Qed.

Lemma baseline_start_cases sid code s :
  (managerStartGame sid code s).1 = s
  ∨ ∃ m, jsFind (isMgr sid) (players s) = Some m ∧ (2 ≤ length (players s))%nat.
Proof.
  unfold managerStartGame.
  destruct (jsFind (isMgr sid) (players s)) as [m|]; [|by left].
  case_bool_decide; [by left|]. right. exists m. split; [done|lia].
Qed.

Lemma baseline_next_cases sid code s :
  (managerNextRound sid code s).1 = s
  ∨ ∃ g g' m, game s = Some g ∧ jsFind (isMgr sid) (players s) = Some m
      ∧ game (managerNextRound sid code s).1 = Some g'
      ∧ setterOrder g' = setterOrder g
      ∧ setterPointer g' = (setterPointer g + 1)%nat
      ∧ overAtEnd (state g') (setterOrder g') (setterPointer g') (round g' = None).
Proof.
  unfold managerNextRound.
  destruct (game s) as [g|] eqn:Hg; [|by left].
  destruct (jsFind (isMgr sid) (players s)) as [m|] eqn:Hm; [|by left].
  right. exists g. unfold maybeGameOver, startWaitingForPhrase. simpl.
  case_bool_decide as Hend; simpl.
  - eexists _, m. by split_and!.
  - eexists _, m. by split_and!.
Qed.

Lemma baseline_pointerOk_step e code s :
  settingsOk s → pointerOk s → pointerOk (onSession e code s).
Proof.
  intros Hok Hp.
  destruct (isStart e) eqn:Hst; [|destruct (isNext e) eqn:Hnx].
  - destruct e; try done. simpl.
    destruct (baseline_start_cases sid code s) as [->|(m & Hm & H2)]; [done|].
    destruct (baseline_start_accepted sid code s m Hok Hm H2)
      as (g' & Hg' & _ & Hptr & Hstate & Hlen).
    intros g Hg. rewrite Hg' in Hg. simplify_eq.
    unfold overAtEnd. rewrite Hstate, Hptr. split; [|done].
    split; [done|]. intros ?. lia.
  - destruct e; try done. simpl.
    destruct (baseline_next_cases sid code s)
      as [->|(g & g' & m & _ & _ & Hg' & _ & _ & Hover)]; [done|].
    intros g0 Hg0. rewrite Hg' in Hg0. by simplify_eq.
  - intros g' Hg'.
    destruct (game s) as [g|] eqn:Hg.
    + destruct (baseline_play_frame e code s g Hst Hnx Hg)
        as (g1 & Hg1 & Ho & Hptr & Hover & Hround).
      rewrite Hg1 in Hg'. simplify_eq.
      destruct (Hp g Hg) as [Hiff Hnone].
      unfold overAtEnd. rewrite Ho, Hptr, Hover. split; [done|].
      intros ?. apply Hround. by apply Hnone.
    + by rewrite (baseline_play_nogame e code s Hst Hg) in Hg'.
Qed.

Lemma baseline_reachable_ok srv :
  reachable srv →
  ∀ code s, sessions srv !! code = Some s → settingsOk s ∧ pointerOk s.
Proof.
  apply (baseline_invariant (λ s, settingsOk s ∧ pointerOk s)).
  - intros atv now. split; [by unfold settingsOk|]. by intros g Hg.
  - intros e code s [Hok Hp]. split.
    + by apply baseline_settingsOk_step.
    + by apply baseline_pointerOk_step.
Qed.

Lemma baseline_run_reachable es srv :
  reachable srv → reachable (from_option fst srv (run srv es)).
Proof.
  revert srv. induction es as [|e es IH]; intros srv Hr; [done|]. simpl.
  destruct (handle srv e) as [[srv1 out1]|] eqn:He; [|done].
  assert (reachable srv1) as Hr1 by (by eapply reach_step).
  specialize (IH srv1 Hr1).
  by destruct (run srv1 es) as [[srv2 out2]|].
Qed.

Lemma baseline_serverAfter_reachable es : reachable (serverAfter es).
Proof. apply baseline_run_reachable, reach_init. Qed.

Lemma baseline_handle_inSession srv sid code s h res :
  sockCode srv !! sid = Some code → sessions srv !! code = Some s →
  h code s = res →
  inSession srv sid (total h) = Some (putSession srv code res.1, res.2).
Proof.
  intros Hc Hs <-. unfold inSession, total. rewrite Hc, Hs.
  by destruct (h code s).
Qed.

(** C2 (as amended).  In every session of a reachable baseline server: the
    game is ["over"] exactly when [setterPointer] has reached
    [setterOrder.length], and then the round is cleared; a game start by
    the manager, which the handler accepts in every state of the game when
    the session has two players, makes [setterOrder] the join-order list of
    player ids repeated once per configured lap, of length
    [players.length * settings.rounds], with the pointer at 0 and the state
    ["waiting_phrase"]; [manager:nextRound] by the manager adds exactly 1 to
    the pointer; no event other than [manager:startGame] changes the setter
    order, moves the pointer otherwise, or leaves the state ["over"], which
    is entered only by the [manager:nextRound] that brings the pointer to
    the length of the order; and [manager:startGame] either leaves the
    session as it is or starts the game anew, with the order rebuilt and
    the pointer back at 0. *)
Theorem setterPointer_lifecycle srv code s
    (Hr : reachable srv) (Hs : sessions srv !! code = Some s) :
  (∀ g, game s = Some g →
     overAtEnd (state g) (setterOrder g) (setterPointer g) (round g = None))
  ∧ (∀ sid m,
       sockCode srv !! sid = Some code →
       jsFind (isMgr sid) (players s) = Some m →
       (2 ≤ length (players s))%nat →
       ∃ srv' out s' g',
         handle srv (ManagerStartGame sid) = Some (srv', out)
         ∧ sessions srv' !! code = Some s' ∧ game s' = Some g'
         ∧ setterOrder g'
           = repeatIds (Z.to_nat (rounds (settings s))) (id <$> players s)
         ∧ Z.of_nat (length (setterOrder g'))
           = Z.of_nat (length (players s)) * rounds (settings s)
         ∧ setterPointer g' = 0%nat ∧ state g' = WaitingPhrase)
  ∧ (∀ sid m g,
       sockCode srv !! sid = Some code →
       jsFind (isMgr sid) (players s) = Some m →
       game s = Some g →
       ∃ srv' out s' g',
         handle srv (ManagerNextRound sid) = Some (srv', out)
         ∧ sessions srv' !! code = Some s' ∧ game s' = Some g'
         ∧ setterOrder g' = setterOrder g
         ∧ setterPointer g' = (setterPointer g + 1)%nat)
  ∧ (∀ e srv' out s' g,
       isStart e = false →
       handle srv e = Some (srv', out) →
       sessions srv' !! code = Some s' → game s = Some g →
       ∃ g', game s' = Some g'
         ∧ setterOrder g' = setterOrder g
         ∧ (setterPointer g' = setterPointer g
            ∨ (isNext e = true ∧ setterPointer g' = (setterPointer g + 1)%nat))
         ∧ (state g = Over → state g' = Over ∧ round g' = None)
         ∧ (state g ≠ Over → state g' = Over →
            isNext e = true ∧ setterPointer g' = length (setterOrder g')))
  ∧ (∀ sid srv' out s',
       handle srv (ManagerStartGame sid) = Some (srv', out) →
       sessions srv' !! code = Some s' →
       s' = s
       ∨ ∃ g', game s' = Some g'
           ∧ setterOrder g'
             = repeatIds (Z.to_nat (rounds (settings s))) (id <$> players s)
           ∧ Z.of_nat (length (setterOrder g'))
             = Z.of_nat (length (players s)) * rounds (settings s)
           ∧ setterPointer g' = 0%nat ∧ state g' = WaitingPhrase).
Proof.
  destruct (baseline_reachable_ok srv Hr code s Hs) as [Hok Hp].
  split_and!.
  - exact Hp.
  - intros sid m Hc Hm H2.
    destruct (baseline_start_accepted sid code s m Hok Hm H2)
      as (g' & Hg' & Ho & Hptr & Hst & _).
    destruct (baseline_buildSetterOrder s Hok) as [Hb Hlen].
    eexists _, _, _, g'. split.
    { simpl. exact (baseline_handle_inSession srv sid code s _ _ Hc Hs eq_refl). }
    simpl. rewrite lookup_insert_eq. split; [done|].
    split; [done|]. rewrite Ho. by split_and!.
  - intros sid m g Hc Hm Hg.
    destruct (baseline_next_cases sid code s)
      as [E|(g0 & g' & m' & Hg0 & _ & Hg' & Ho & Hptr & _)].
    { exfalso. revert E. unfold managerNextRound, maybeGameOver,
        startWaitingForPhrase. rewrite Hg, Hm. simpl.
      case_bool_decide; simpl; intros E; rewrite <- E in Hg; simpl in Hg;
        injection Hg as Hg; apply (f_equal setterPointer) in Hg;
        simpl in Hg; lia. }
    rewrite Hg in Hg0. simplify_eq.
    eexists _, _, _, g'. split.
    { simpl. exact (baseline_handle_inSession srv sid code s _ _ Hc Hs eq_refl). }
    simpl. rewrite lookup_insert_eq. by split_and!.
  - intros e srv' out s' g Hst Hh Hs' Hg.
    assert (reachable srv') as Hr' by (by eapply reach_step).
    destruct (baseline_reachable_ok srv' Hr' code s' Hs') as [_ Hp'].
    assert (∃ g', game s' = Some g' ∧ setterOrder g' = setterOrder g
              ∧ (setterPointer g' = setterPointer g
                 ∨ (isNext e = true
                    ∧ setterPointer g' = (setterPointer g + 1)%nat)))
      as (g' & Hg' & Ho & Hptr).
    { destruct (baseline_handle_old _ _ _ _ _ _ _ Hh Hs Hs') as [->| ->].
      { exists g. split_and!; auto. }
      destruct (isNext e) eqn:Hnx.
      - destruct e; try done. simpl.
        destruct (baseline_next_cases sid code s)
          as [->|(g0 & g' & m' & Hg0 & _ & Hg' & Ho & Hptr & _)].
        { exists g. split_and!; auto. }
        rewrite Hg in Hg0. simplify_eq. exists g'. split_and!; auto.
      - destruct (baseline_play_frame e code s g Hst Hnx Hg)
          as (g' & Hg' & Ho & Hptr & _).
        exists g'. split_and!; auto. }
    exists g'. split_and!; try done.
    + intros Hover. destruct (Hp g Hg) as [Hiff _].
      destruct (Hp' g' Hg') as [Hiff' Hnone'].
      assert (state g' = Over) as Hover'.
      { apply Hiff'. rewrite Ho. apply Hiff in Hover.
        destruct Hptr as [->|[_ ->]]; lia. }
      split; [done|]. by apply Hnone'.
    + intros Hno Hover'. destruct (Hp g Hg) as [Hiff _].
      destruct (Hp' g' Hg') as [Hiff' _].
      apply Hiff' in Hover'. rewrite Ho in Hover'.
      assert (¬ (length (setterOrder g) ≤ setterPointer g)%nat) as Hlt.
      { intros ?. apply Hno. by apply Hiff. }
      destruct Hptr as [E|[Hnx E]]; rewrite E in *; [lia|].
      split; [done|]. rewrite Ho. lia.
  - intros sid srv' out s' Hh Hs'.
    destruct (baseline_handle_old _ _ _ _ _ _ _ Hh Hs Hs') as [->| ->];
      [by left|]. simpl.
    destruct (baseline_start_cases sid code s) as [->|(m & Hm & H2)]; [by left|].
    destruct (baseline_start_accepted sid code s m Hok Hm H2)
      as (g' & Hg' & Ho & Hptr & Hst & _).
    destruct (baseline_buildSetterOrder s Hok) as [Hb Hlen].
    right. exists g'. rewrite Ho. by split_and!.
Qed.

Lemma setterPointer_lifecycle_witness :
  ∃ s g,
    sessions (serverAfter started) !! "ABCD" = Some s
    ∧ game s = Some g
    ∧ setterOrder g = ["alice"; "bob"; "alice"; "bob"; "alice"; "bob"]
    ∧ overAtEnd (state g) (setterOrder g) (setterPointer g) (round g = None).
Proof.
  eexists _, _.
  split; [vm_compute; reflexivity|].
  split; [vm_compute; reflexivity|].
  split; [vm_compute; reflexivity|].
  refine (proj1 (setterPointer_lifecycle (serverAfter started) "ABCD" _
                   (baseline_serverAfter_reachable started) _) _ _).
  - vm_compute. reflexivity.
  - vm_compute. reflexivity.
Defined.

(** C2, as stated, fails for a second [manager:startGame], which the
    handler accepts whatever the state of the game is: the pointer goes back
    from 2 to 0, and a game that is ["over"], with the pointer at the end of
    the order, is in state ["waiting_phrase"] again. *)
Lemma restart_resets_pointer_counterexample :
  (∃ s g s' g',
     sessions (serverAfter twoAdvances) !! "ABCD" = Some s
     ∧ game s = Some g ∧ setterPointer g = 2%nat
     ∧ sessions (serverAfter restarted) !! "ABCD" = Some s'
     ∧ handle (serverAfter twoAdvances) (ManagerStartGame "alice")
       = Some (serverAfter restarted,
               emitSessionPlayers "ABCD" s' ++ emitGameState "ABCD" s')
     ∧ game s' = Some g' ∧ setterPointer g' = 0%nat)
  ∧ (∃ s g s' g',
       sessions (serverAfter playedOut) !! "ABCD" = Some s
       ∧ game s = Some g ∧ state g = Over ∧ round g = None
       ∧ setterPointer g = 6%nat ∧ length (setterOrder g) = 6%nat
       ∧ sessions (serverAfter startedAgain) !! "ABCD" = Some s'
       ∧ game s' = Some g' ∧ state g' = WaitingPhrase
       ∧ setterPointer g' = 0%nat ∧ is_Some (round g')).
Proof.
  split.
  - eexists _, _, _, _.
    split; [vm_compute; reflexivity|]. split; [reflexivity|].
    split; [reflexivity|]. split; [vm_compute; reflexivity|].
    split; [vm_compute; reflexivity|]. split; reflexivity.
  - eexists _, _, _, _.
    split; [vm_compute; reflexivity|]. split; [reflexivity|].
    split; [reflexivity|]. split; [reflexivity|].
    split; [reflexivity|]. split; [reflexivity|].
    split; [vm_compute; reflexivity|]. split; [reflexivity|].
    split; [reflexivity|]. split; [reflexivity|]. simpl. eauto.
Qed.

End BaselinePointer.

(** ** The baseline server: membership *)

Section BaselineMembership.
Import Baseline.

(** C10.  A [player:join] to a live session that already has 10 or more
    players is answered by [error:join] with the message "Game is full
    (max 10 players)." to the requesting socket only, and leaves the whole
    server state unchanged; and whatever the session, a [player:join] never
    makes a players list longer than 10 (or than it already was). *)
Theorem playerJoin_capacity srv sid now code nm s
    (Hs : sessions srv !! cleanCode code = Some s)
    (Hlive : now - createdAt s ≤ CODE_TTL_MS) :
  ((10 ≤ length (players s))%nat →
     handle srv (PlayerJoin sid now code nm)
     = Some (srv, [(ToSocket sid, ErrorJoin "Game is full (max 10 players).")]))
  ∧ (∀ srv' out c s',
       handle srv (PlayerJoin sid now code nm) = Some (srv', out) →
       sessions srv' !! c = Some s' →
       ∃ s0, sessions srv !! c = Some s0
             ∧ (length (players s') ≤ Nat.max 10 (length (players s0)))%nat).
Proof.
  assert (getSession now (cleanCode code) srv = (Some s, srv)) as Hget.
  { unfold getSession. rewrite Hs. by rewrite bool_decide_false by lia. }
  split.
  - intros Hfull. simpl. unfold playerJoin. rewrite Hget.
    by rewrite bool_decide_true.
  - intros srv' out c s' Hh Hs'.
    destruct (sessions srv !! c) as [s0|] eqn:Hc.
    + exists s0. split; [done|].
      destruct (baseline_handle_old _ _ _ _ _ _ _ Hh Hc Hs') as [->| ->]; [lia|].
      simpl. case_bool_decide; [lia|]. simpl. rewrite length_app. simpl. lia.
    + destruct (baseline_handle_new _ _ _ _ _ _ Hh Hc Hs') as (atv & t & ->).
      exfalso. simpl in Hh. unfold playerJoin in Hh. rewrite Hget in Hh.
      case_bool_decide; step_eq Hs'; absurd_lookup Hs'.
Qed.

Lemma playerJoin_capacity_witness :
  ∃ s, sessions (serverAfter fullLobby) !! "ABCD" = Some s
       ∧ length (players s) = 10%nat
       ∧ handle (serverAfter fullLobby) (PlayerJoin "late" 30 " abcd " "Late")
         = Some (serverAfter fullLobby,
                 [(ToSocket "late", ErrorJoin "Game is full (max 10 players).")]).
Proof.
  eexists. split; [vm_compute; reflexivity|]. split; [vm_compute; reflexivity|].
  refine (proj1 (playerJoin_capacity (serverAfter fullLobby) "late" 30 " abcd "
                   "Late" _ _ _) _).
  - vm_compute. reflexivity.
  - vm_compute. discriminate.
  - vm_compute. lia.
Defined.

(** C3, the failing input.  A [player:rejoin] that reaches a session without
    players appends the player with [isManager: false]: the players list is
    not empty and has no manager, and a later [player:join] does not get the
    role either, since the list is no longer empty. *)
Theorem rejoin_into_empty_session_no_manager :
  ∃ s, sessions (serverAfter (take 2 rejoinFirst)) !! "ABCD" = Some s
       ∧ players s = [mkPlayer "bob" "Bob" false 0]
       ∧ managers (players s) = []
       ∧ ∃ s', sessions (serverAfter rejoinFirst) !! "ABCD" = Some s'
               ∧ length (players s') = 2%nat
               ∧ managers (players s') = [].
Proof.
  eexists. split; [vm_compute; reflexivity|].
  split; [reflexivity|]. split; [reflexivity|].
  eexists. split; [vm_compute; reflexivity|]. by split.
Qed.

End BaselineMembership.

(** ** The wrong-limit server: what one event does to one session *)

Section WrongLimitSteps.
Import WrongLimit.

Lemma wronglimit_getSession_cases now code srv :
  getSession now code srv = (None, srv)
  ∨ getSession now code srv = (None, withSessions srv (delete code (sessions srv)))
  ∨ ∃ s, sessions srv !! code = Some s ∧ now - createdAt s ≤ CODE_TTL_MS
         ∧ getSession now code srv = (Some s, srv).
Proof.
  unfold getSession. destruct (sessions srv !! code) as [s|] eqn:Hs; [|by left].
  case_bool_decide; [by right; left|].
  right; right. exists s. split_and!; [done|lia|done].
Qed.

Lemma wronglimit_inSession_old srv sid h srv' out code (s s' : Session) :
  inSession srv sid h = Some (srv', out) →
  sessions srv !! code = Some s → sessions srv' !! code = Some s' →
  s' = s ∨ ∃ o, h code s = Some (s', o).
Proof.
  unfold inSession. intros H Hs Hs'.
  destruct (sockCode srv !! sid) as [c|]; [|by left; simplify_eq].
  destruct (sessions srv !! c) as [s0|] eqn:Hc; [|by left; simplify_eq].
  destruct (h c s0) as [[s1 o]|] eqn:Hh; [|done]. simplify_eq. simpl in Hs'.
  destruct (decide (c = code)) as [->|Hne].
  - rewrite lookup_insert_eq in Hs'. simplify_eq. right. by exists out.
  - rewrite lookup_insert_ne in Hs' by done. left. by simplify_eq.
Qed.

Lemma wronglimit_inSession_new srv sid h srv' out code :
  inSession srv sid h = Some (srv', out) →
  sessions srv !! code = None → sessions srv' !! code = None.
Proof.
  unfold inSession. intros H Hs.
  destruct (sockCode srv !! sid) as [c|]; [|by simplify_eq].
  destruct (sessions srv !! c) as [s0|] eqn:Hc; [|by simplify_eq].
  destruct (h c s0) as [[s1 o]|] eqn:Hh; [|done]. simplify_eq. simpl.
  rewrite lookup_insert_ne; [done|]. intros ->. congruence.
Qed.

Ltac wl_session_case H Hs Hs' :=
  destruct (wronglimit_inSession_old _ _ _ _ _ _ _ _ H Hs Hs') as [?|[o Ho]];
  [by left
  |right; unfold total in Ho; simpl;
   first [injection Ho as Ho; by rewrite Ho | by rewrite Ho]].

(** A lookup that an insertion or a deletion leaves as it was *)
Ltac same_lookup Hs' :=
  left;
  first [congruence
        |apply lookup_delete_Some in Hs' as [_ ?]; congruence
        |rewrite lookup_insert_ne in Hs' by congruence; congruence].

Lemma wronglimit_handle_old srv e srv' out code s s' :
  handle srv e = Some (srv', out) →
  sessions srv !! code = Some s → sessions srv' !! code = Some s' →
  s' = s ∨ s' = onSession e code s.
Proof.
  intros H Hs Hs'. destruct e; simpl in H.
  - (* atv:createSession *)
    unfold atvCreateSession in H.
    destruct (isCode code0 && bool_decide (sessions srv !! code0 = None)) eqn:Hc;
      [|done].
    apply andb_true_iff in Hc as [_ Hf%bool_decide_eq_true].
    step_eq Hs'. same_lookup Hs'.
  - (* atv:getPlayers *)
    unfold atvGetPlayers in H.
    destruct (wronglimit_getSession_cases now code0 srv)
      as [E|[E|(s0 & Hs0 & _ & E)]]; rewrite E in H; step_eq Hs';
      same_lookup Hs'.
  - (* player:join *)
    unfold playerJoin in H.
    destruct (wronglimit_getSession_cases now (cleanCode code0) srv)
      as [E|[E|(s0 & Hs0 & _ & E)]]; rewrite E in H; step_eq Hs';
      try same_lookup Hs'.
    destruct (decide (cleanCode code0 = code)) as [<-|Hne].
    + rewrite lookup_insert_eq in Hs'. right. by simplify_eq.
    + rewrite lookup_insert_ne in Hs' by done. left. by simplify_eq.
  - (* player:rejoin *)
    unfold playerRejoin in H.
    destruct (wronglimit_getSession_cases now (cleanCode code0) srv)
      as [E|[E|(s0 & Hs0 & _ & E)]]; rewrite E in H;
      [step_eq Hs'; same_lookup Hs'..|].
    destruct (decide (cleanCode code0 = code)) as [<-|Hne].
    + right. rewrite Hs in Hs0. simplify_eq. simpl.
      destruct (jsFind (hasId sid) (players s0)); step_eq Hs';
        rewrite lookup_insert_eq in Hs'; by simplify_eq.
    + left. destruct (jsFind (hasId sid) (players s0)); step_eq Hs';
        rewrite lookup_insert_ne in Hs' by done; congruence.
  - wl_session_case H Hs Hs'.
  - wl_session_case H Hs Hs'.
  - wl_session_case H Hs Hs'.
  - wl_session_case H Hs Hs'.
  - (* manager:endGame *)
    unfold managerEndGame in H.
    destruct (sockCode srv !! sid) as [c|]; [|step_eq Hs'; same_lookup Hs'].
    destruct (sessions srv !! c) as [s0|] eqn:Hc; [|step_eq Hs'; same_lookup Hs'].
    destruct (jsFind (isMgr sid) (players s0)); [|step_eq Hs'; same_lookup Hs'].
    destruct newCode as [nc|]; [|step_eq Hs'; same_lookup Hs'].
    destruct (isCode nc && bool_decide (_ = None)) eqn:Hnc; [|done].
    apply andb_true_iff in Hnc as [_ Hf%bool_decide_eq_true]. simpl in Hf.
    step_eq Hs'.
    destruct (decide (nc = code)) as [->|Hne].
    + rewrite lookup_insert_eq in Hs'.
      apply lookup_delete_None in Hf as [->|Hf]; [|congruence].
      right. simpl. congruence.
    + rewrite lookup_insert_ne in Hs' by done. left.
      apply lookup_delete_Some in Hs' as [_ ?]. congruence.
  - wl_session_case H Hs Hs'.
  - wl_session_case H Hs Hs'.
  - wl_session_case H Hs Hs'.
  - wl_session_case H Hs Hs'.
  - (* disconnect *)
    unfold disconnect in H.
    destruct (sockCode srv !! sid) as [c|]; [|step_eq Hs'; same_lookup Hs'].
    destruct (sessions srv !! c) as [s0|] eqn:Hc;
      [|step_eq Hs'; same_lookup Hs'].
    case_bool_decide as Hatv; [step_eq Hs'; same_lookup Hs'|].
    destruct (removePlayer c sid s0) as [s1 o1] eqn:Hrm. step_eq Hs'.
    destruct (decide (c = code)) as [->|Hne].
    + rewrite lookup_insert_eq in Hs'. right. simplify_eq. simpl.
      by rewrite Hrm.
    + rewrite lookup_insert_ne in Hs' by done. left. by simplify_eq.
Qed.

Lemma wronglimit_handle_new srv e srv' out code s' :
  handle srv e = Some (srv', out) →
  sessions srv !! code = None → sessions srv' !! code = Some s' →
  ∃ atv now, s' = newSession atv now.
Proof.
  intros H Hs Hs'.
  assert (sessions srv' !! code = None → False) as Habs by (intros ?; congruence).
  destruct e; simpl in H;
    try (exfalso; apply Habs; by eapply wronglimit_inSession_new).
  - unfold atvCreateSession in H.
    destruct (isCode code0 && bool_decide (sessions srv !! code0 = None)); [|done].
    step_eq Hs'.
    destruct (decide (code0 = code)) as [->|Hne].
    + rewrite lookup_insert_eq in Hs'. simplify_eq. eauto.
    + rewrite lookup_insert_ne in Hs' by done. congruence.
  - unfold atvGetPlayers in H.
    destruct (wronglimit_getSession_cases now code0 srv)
      as [E|[E|(s0 & Hs0 & _ & E)]]; rewrite E in H; step_eq Hs';
      absurd_lookup Hs'.
  - unfold playerJoin in H.
    destruct (wronglimit_getSession_cases now (cleanCode code0) srv)
      as [E|[E|(s0 & Hs0 & _ & E)]]; rewrite E in H; step_eq Hs';
      absurd_lookup Hs'.
  - unfold playerRejoin in H.
    destruct (wronglimit_getSession_cases now (cleanCode code0) srv)
      as [E|[E|(s0 & Hs0 & _ & E)]]; rewrite E in H;
      try destruct (jsFind (hasId sid) (players s0)); step_eq Hs';
      absurd_lookup Hs'.
  - unfold managerEndGame in H.
    destruct (sockCode srv !! sid) as [c|]; [|step_eq Hs'; congruence].
    destruct (sessions srv !! c) as [s0|] eqn:Hc; [|step_eq Hs'; congruence].
    destruct (jsFind (isMgr sid) (players s0)); [|step_eq Hs'; congruence].
    destruct newCode as [nc|]; [|step_eq Hs'; absurd_lookup Hs'].
    destruct (isCode nc && bool_decide (_ = None)) eqn:Hnc; [|done].
    step_eq Hs'.
    destruct (decide (nc = code)) as [->|Hne].
    + rewrite lookup_insert_eq in Hs'. simplify_eq. eauto.
    + rewrite lookup_insert_ne in Hs' by done.
      apply lookup_delete_Some in Hs' as [_ ?]. congruence.
  - unfold disconnect in H.
    destruct (sockCode srv !! sid) as [c|]; [|step_eq Hs'; congruence].
    destruct (sessions srv !! c) as [s0|] eqn:Hc; [|step_eq Hs'; congruence].
    assert (c ≠ code) by congruence.
    case_bool_decide; [step_eq Hs'; absurd_lookup Hs'|].
    destruct (removePlayer c sid s0) as [s1 o1]. step_eq Hs'.
    absurd_lookup Hs'.
Qed.

Lemma wronglimit_invariant (Inv : Session → Prop) :
  (∀ atv now, Inv (newSession atv now)) →
  (∀ e code s, Inv s → Inv (onSession e code s)) →
  ∀ srv, reachable srv → ∀ code s, sessions srv !! code = Some s → Inv s.
Proof.
  intros Hnew Hstep srv Hr. induction Hr as [|srv e srv' out Hr IH Hh].
  - intros code s Hs. simpl in Hs. by rewrite lookup_empty in Hs.
  - intros code s' Hs'.
    destruct (sessions srv !! code) as [s|] eqn:Hs.
    + destruct (wronglimit_handle_old _ _ _ _ _ _ _ Hh Hs Hs') as [->| ->]; eauto.
    + destruct (wronglimit_handle_new _ _ _ _ _ _ Hh Hs Hs') as (atv & now & ->); eauto.
Qed.

End WrongLimitSteps.

(** ** Showing the hint *)

Section BaselineHint.
Import Baseline.

Lemma baseline_putSession_same srv code s :
  sessions srv !! code = Some s → putSession srv code s = srv.
Proof.
  intros Hs. destruct srv as [m c]. unfold putSession. simpl in *.
  f_equal. by apply insert_id.
Qed.

Lemma baseline_showHint srv sid code s g r :
  sockCode srv !! sid = Some code → sessions srv !! code = Some s →
  game s = Some g → state g = Active → round g = Some r →
  setterId r = Some sid →
  let shown := showHintOf s g r in
  let srv1 := putSession srv code shown in
  (hintShown r = false →
     handle srv (SetterShowHint sid)
     = Some (srv1, [(ToRoom code, GameHint (hint r));
                    (ToRoom code, GameState (gameStateView shown))]))
  ∧ (hintShown r = true → handle srv (SetterShowHint sid) = Some (srv, []))
  ∧ handle srv1 (SetterShowHint sid) = Some (srv1, [])
  ∧ run srv [SetterShowHint sid; SetterShowHint sid] = run srv [SetterShowHint sid].
Proof.
  intros Hc Hs Hg Hst Hr Hset shown srv1.
  assert (setterShowHint sid code shown = Some (shown, [])) as Hsecond.
  { unfold setterShowHint, shown, showHintOf. simpl.
    rewrite Hst. rewrite bool_decide_true by done. simpl.
    by rewrite Hset, bool_decide_true. }
  assert (handle srv1 (SetterShowHint sid) = Some (srv1, [])) as H1.
  { simpl. unfold inSession, srv1. simpl. rewrite Hc, lookup_insert_eq, Hsecond.
    f_equal. f_equal. apply baseline_putSession_same. simpl.
    apply lookup_insert_eq. }
  assert (hintShown r = false →
          handle srv (SetterShowHint sid)
          = Some (srv1, [(ToRoom code, GameHint (hint r));
                         (ToRoom code, GameState (gameStateView shown))])) as H0.
  { intros Hh. simpl. unfold inSession. rewrite Hc, Hs.
    unfold setterShowHint. rewrite Hg, Hst. rewrite bool_decide_true by done.
    simpl. rewrite Hr, Hset. rewrite bool_decide_true by done. simpl.
    rewrite Hh. unfold srv1, shown, showHintOf. by rewrite ?Hst, ?Hset. }
  assert (hintShown r = true → handle srv (SetterShowHint sid) = Some (srv, []))
    as Ht.
  { intros Hh. simpl. unfold inSession. rewrite Hc, Hs.
    unfold setterShowHint. rewrite Hg, Hst. rewrite bool_decide_true by done.
    simpl. rewrite Hr, Hset. rewrite bool_decide_true by done. simpl.
    rewrite Hh. by rewrite baseline_putSession_same. }
  split_and!; try done.
  destruct (hintShown r) eqn:Hh.
  - cbn [run]. rewrite (Ht eq_refl). cbn [run]. by rewrite (Ht eq_refl).
  - cbn [run]. rewrite (H0 eq_refl). cbn [run]. by rewrite H1.
Qed.

Lemma baseline_hint_step e code s :
  startsRound e = false → hintRevealed s → hintRevealed (onSession e code s).
Proof.
  unfold startsRound. intros [Hst Hnx]%orb_false_iff (g & r & Hg & Hr & Hh & Hs).
  assert (hintRevealed s) as Hrefl by (by exists g, r).
  destruct e; try done; simpl;
    unfold playerRename, managerSetSettings, setterSubmitPhrase, setterShowHint,
      playerGuessLetter, playerSolve, removePlayer, dropGuesser;
    simpl; rewrite ?Hg; simpl; rewrite ?Hr;
    handler_cases; try done; try (by exists g, r);
    try (destruct Hs; congruence);
    eexists _, _; (split; [reflexivity|]); (split; [reflexivity|]);
    split; simpl; unfold advanceTurn; handler_cases; auto.
Qed.

Lemma baseline_hint_one_way srv e srv' out code s s' :
  handle srv e = Some (srv', out) →
  sessions srv !! code = Some s → sessions srv' !! code = Some s' →
  startsRound e = false → hintRevealed s → hintRevealed s'.
Proof.
  intros Hh Hs Hs' He Hrev.
  destruct (baseline_handle_old _ _ _ _ _ _ _ Hh Hs Hs') as [->| ->]; [done|].
  by apply baseline_hint_step.
Qed.

End BaselineHint.

Section WrongLimitHint.
Import WrongLimit.

Lemma wronglimit_putSession_same srv code s :
  sessions srv !! code = Some s → putSession srv code s = srv.
Proof.
  intros Hs. destruct srv as [m c]. unfold putSession. simpl in *.
  f_equal. by apply insert_id.
Qed.

Lemma wronglimit_showHint srv sid code s g r :
  sockCode srv !! sid = Some code → sessions srv !! code = Some s →
  game s = Some g → state g = Active → round g = Some r →
  setterId r = Some sid →
  let shown := showHintOf s g r in
  let srv1 := putSession srv code shown in
  (hintShown r = false →
     handle srv (SetterShowHint sid)
     = Some (srv1, [(ToRoom code, GameHint (hint r));
                    (ToRoom code, GameState (gameStateView shown))]))
  ∧ (hintShown r = true → handle srv (SetterShowHint sid) = Some (srv, []))
  ∧ handle srv1 (SetterShowHint sid) = Some (srv1, [])
  ∧ run srv [SetterShowHint sid; SetterShowHint sid] = run srv [SetterShowHint sid].
Proof.
  intros Hc Hs Hg Hst Hr Hset shown srv1.
  assert (setterShowHint sid code shown = Some (shown, [])) as Hsecond.
  { unfold setterShowHint, shown, showHintOf. simpl.
    rewrite Hst. rewrite bool_decide_true by done. simpl.
    by rewrite Hset, bool_decide_true. }
  assert (handle srv1 (SetterShowHint sid) = Some (srv1, [])) as H1.
  { simpl. unfold inSession, srv1. simpl. rewrite Hc, lookup_insert_eq, Hsecond.
    f_equal. f_equal. apply wronglimit_putSession_same. simpl.
    apply lookup_insert_eq. }
  assert (hintShown r = false →
          handle srv (SetterShowHint sid)
          = Some (srv1, [(ToRoom code, GameHint (hint r));
                         (ToRoom code, GameState (gameStateView shown))])) as H0.
  { intros Hh. simpl. unfold inSession. rewrite Hc, Hs.
    unfold setterShowHint. rewrite Hg, Hst. rewrite bool_decide_true by done.
    simpl. rewrite Hr, Hset. rewrite bool_decide_true by done. simpl.
    rewrite Hh. unfold srv1, shown, showHintOf. by rewrite ?Hst, ?Hset. }
  assert (hintShown r = true → handle srv (SetterShowHint sid) = Some (srv, []))
    as Ht.
  { intros Hh. simpl. unfold inSession. rewrite Hc, Hs.
    unfold setterShowHint. rewrite Hg, Hst. rewrite bool_decide_true by done.
    simpl. rewrite Hr, Hset. rewrite bool_decide_true by done. simpl.
    rewrite Hh. by rewrite wronglimit_putSession_same. }
  split_and!; try done.
  destruct (hintShown r) eqn:Hh.
  - cbn [run]. rewrite (Ht eq_refl). cbn [run]. by rewrite (Ht eq_refl).
  - cbn [run]. rewrite (H0 eq_refl). cbn [run]. by rewrite H1.
Qed.

Lemma wronglimit_hint_step e code s :
  startsRound e = false → hintRevealed s → hintRevealed (onSession e code s).
Proof.
  unfold startsRound. intros He (g & r & Hg & Hr & Hh & Hs).
  assert (hintRevealed s) as Hrefl by (by exists g, r).
  destruct e; try done; simpl;
    unfold playerRename, managerSetSettings, setterSubmitPhrase, setterShowHint,
      playerGuessLetter, playerSolve, removePlayer, dropGuesser, wrongGuess,
      finishRoundWithSetterWin;
    simpl; rewrite ?Hg; simpl; rewrite ?Hr;
    handler_cases; try done; try (by exists g, r);
    try (destruct Hs; congruence);
    eexists _, _; (split; [reflexivity|]); (split; [reflexivity|]);
    split; simpl; unfold advanceTurn; handler_cases; auto.
Qed.

Lemma wronglimit_hint_one_way srv e srv' out code s s' :
  handle srv e = Some (srv', out) →
  sessions srv !! code = Some s → sessions srv' !! code = Some s' →
  startsRound e = false → hintRevealed s → hintRevealed s'.
Proof.
  intros Hh Hs Hs' He Hrev.
  destruct (wronglimit_handle_old _ _ _ _ _ _ _ Hh Hs Hs') as [->| ->]; [done|].
  by apply wronglimit_hint_step.
Qed.

End WrongLimitHint.

(** C8.  In both servers, for the setter of a round in state ["active"]:
    the first [setter:showHint] sets [hintShown] and emits [game:hint] with
    the hint text once, followed by the new [game:state]; a call when the
    hint is already shown changes nothing and emits nothing; so two calls in
    a row leave the same server and the same messages as one call.  And once
    the hint of a round is shown, it stays shown after every event that does
    not replace the round by a new one. *)
Theorem showHint_idempotent_one_way :
  (∀ srv sid code s g r,
     Baseline.sockCode srv !! sid = Some code →
     Baseline.sessions srv !! code = Some s →
     Baseline.game s = Some g → Baseline.state g = Active →
     Baseline.round g = Some r → Baseline.setterId r = Some sid →
     let shown := Baseline.showHintOf s g r in
     let srv1 := Baseline.putSession srv code shown in
     (Baseline.hintShown r = false →
        Baseline.handle srv (Baseline.SetterShowHint sid)
        = Some (srv1, [(ToRoom code, GameHint (Baseline.hint r));
                       (ToRoom code, GameState (Baseline.gameStateView shown))]))
     ∧ (Baseline.hintShown r = true →
          Baseline.handle srv (Baseline.SetterShowHint sid) = Some (srv, []))
     ∧ Baseline.handle srv1 (Baseline.SetterShowHint sid) = Some (srv1, [])
     ∧ Baseline.run srv [Baseline.SetterShowHint sid; Baseline.SetterShowHint sid]
       = Baseline.run srv [Baseline.SetterShowHint sid])
  ∧ (∀ srv e srv' out code s s',
       Baseline.handle srv e = Some (srv', out) →
       Baseline.sessions srv !! code = Some s →
       Baseline.sessions srv' !! code = Some s' →
       Baseline.startsRound e = false →
       Baseline.hintRevealed s → Baseline.hintRevealed s')
  ∧ (∀ srv sid code s g r,
       WrongLimit.sockCode srv !! sid = Some code →
       WrongLimit.sessions srv !! code = Some s →
       WrongLimit.game s = Some g → WrongLimit.state g = Active →
       WrongLimit.round g = Some r → WrongLimit.setterId r = Some sid →
       let shown := WrongLimit.showHintOf s g r in
       let srv1 := WrongLimit.putSession srv code shown in
       (WrongLimit.hintShown r = false →
          WrongLimit.handle srv (WrongLimit.SetterShowHint sid)
          = Some (srv1, [(ToRoom code, GameHint (WrongLimit.hint r));
                         (ToRoom code, GameState (WrongLimit.gameStateView shown))]))
       ∧ (WrongLimit.hintShown r = true →
            WrongLimit.handle srv (WrongLimit.SetterShowHint sid) = Some (srv, []))
       ∧ WrongLimit.handle srv1 (WrongLimit.SetterShowHint sid) = Some (srv1, [])
       ∧ WrongLimit.run srv [WrongLimit.SetterShowHint sid;
                             WrongLimit.SetterShowHint sid]
         = WrongLimit.run srv [WrongLimit.SetterShowHint sid])
  ∧ (∀ srv e srv' out code s s',
       WrongLimit.handle srv e = Some (srv', out) →
       WrongLimit.sessions srv !! code = Some s →
       WrongLimit.sessions srv' !! code = Some s' →
       WrongLimit.startsRound e = false →
       WrongLimit.hintRevealed s → WrongLimit.hintRevealed s').
Proof.
  split_and!.
  - apply baseline_showHint.
  - apply baseline_hint_one_way.
  - apply wronglimit_showHint.
  - apply wronglimit_hint_one_way.
Qed.

Lemma showHint_idempotent_one_way_witness :
  Baseline.run (Baseline.serverAfter Baseline.playing)
    [Baseline.SetterShowHint "alice"; Baseline.SetterShowHint "alice"]
  = Baseline.run (Baseline.serverAfter Baseline.playing)
      [Baseline.SetterShowHint "alice"]
  ∧ WrongLimit.run (WrongLimit.serverAfter WrongLimit.playing)
      [WrongLimit.SetterShowHint "alice"; WrongLimit.SetterShowHint "alice"]
    = WrongLimit.run (WrongLimit.serverAfter WrongLimit.playing)
        [WrongLimit.SetterShowHint "alice"].
Proof.
  destruct showHint_idempotent_one_way as (HB & _ & HW & _).
  split.
  - eapply (HB _ "alice" "ABCD").
    + vm_compute. reflexivity.
    + vm_compute. reflexivity.
    + vm_compute. reflexivity.
    + vm_compute. reflexivity.
    + vm_compute. reflexivity.
    + vm_compute. reflexivity.
  - eapply (HW _ "alice" "ABCD").
    + vm_compute. reflexivity.
    + vm_compute. reflexivity.
    + vm_compute. reflexivity.
    + vm_compute. reflexivity.
    + vm_compute. reflexivity.
    + vm_compute. reflexivity.
Defined.

(** ** Settings *)

Lemma baseline_applySettings_bounds r mn mx st :
  let st' := Baseline.applySettings r mn mx st in
  (Baseline.rounds st' = Baseline.rounds st
   ∨ (r = Some (Baseline.rounds st') ∧ 1 ≤ Baseline.rounds st' ≤ 20))
  ∧ (Baseline.minLen st' = Baseline.minLen st
     ∨ (mn = Some (Baseline.minLen st') ∧ 1 ≤ Baseline.minLen st' ≤ 40))
  ∧ (Baseline.maxLen st' = Baseline.maxLen st
     ∨ (mx = Some (Baseline.maxLen st')
        ∧ Baseline.minLen st' ≤ Baseline.maxLen st' ≤ 60)).
Proof.
  unfold Baseline.applySettings.
  destruct (Baseline.intIn r 1 20) as [v1|] eqn:H1;
    [apply Baseline_intIn_Some in H1 as [-> ?]|];
    (destruct (Baseline.intIn mn 1 40) as [v2|] eqn:H2;
      [apply Baseline_intIn_Some in H2 as [-> ?]|]);
    simpl;
    (destruct (Baseline.intIn mx _ 60) as [v3|] eqn:H3;
      [apply Baseline_intIn_Some in H3 as [-> ?]|]);
    simpl; split_and!; auto.
Qed.

Lemma wronglimit_intIn_Some x lo hi v :
  WrongLimit.intIn x lo hi = Some v → x = Some v ∧ lo ≤ v ≤ hi.
Proof.
  unfold WrongLimit.intIn. destruct x as [w|]; [|done]. case_bool_decide; [|done].
  intros [= ->]. done.
Qed.

Lemma wronglimit_applySettings_bounds r mn mx wl uw st :
  let st' := WrongLimit.applySettings r mn mx wl uw st in
  (WrongLimit.rounds st' = WrongLimit.rounds st
   ∨ (r = Some (WrongLimit.rounds st') ∧ 1 ≤ WrongLimit.rounds st' ≤ 20))
  ∧ (WrongLimit.minLen st' = WrongLimit.minLen st
     ∨ (mn = Some (WrongLimit.minLen st') ∧ 1 ≤ WrongLimit.minLen st' ≤ 40))
  ∧ (WrongLimit.maxLen st' = WrongLimit.maxLen st
     ∨ (mx = Some (WrongLimit.maxLen st')
        ∧ WrongLimit.minLen st' ≤ WrongLimit.maxLen st' ≤ 60))
  ∧ (WrongLimit.unlimitedWrong st' = WrongLimit.unlimitedWrong st
     ∨ uw = Some (WrongLimit.unlimitedWrong st'))
  ∧ (WrongLimit.wrongLimit st' = WrongLimit.wrongLimit st
     ∨ (∃ v, wl = Some v ∧ WrongLimit.unlimitedWrong st' = false
             ∧ WrongLimit.wrongLimit st' = Z.max 1 (Z.min 26 v)
             ∧ 1 ≤ WrongLimit.wrongLimit st' ≤ 26)).
Proof.
  unfold WrongLimit.applySettings.
  destruct (WrongLimit.intIn r 1 20) as [v1|] eqn:H1;
    [apply wronglimit_intIn_Some in H1 as [-> ?]|];
    (destruct (WrongLimit.intIn mn 1 40) as [v2|] eqn:H2;
      [apply wronglimit_intIn_Some in H2 as [-> ?]|]);
    simpl;
    (destruct (WrongLimit.intIn mx _ 60) as [v3|] eqn:H3;
      [apply wronglimit_intIn_Some in H3 as [-> ?]|]);
    simpl; destruct uw as [b|]; simpl; destruct wl as [w|]; simpl;
    try (destruct b); try (destruct (WrongLimit.unlimitedWrong st) eqn:Hu);
    simpl; split_and!; auto;
    right; exists w; split_and!; auto; lia.
Qed.

(** C4 (as amended).  [manager:setSettings] changes nothing and emits
    nothing when the caller is not the manager, in both servers, and in the
    baseline server also when the game is in another state than ["idle"].
    Otherwise it only replaces the settings and emits [game:state]; every
    field either keeps its value or takes the integer of the payload, which
    is then in its range: rounds 1-20, minLen 1-40, maxLen between the new
    minLen and 60, and in the wrong-limit server wrongLimit clamped to
    1-26, set only while [unlimitedWrong] is off.  The wrong-limit server has
    no idle lock: its manager changes the settings in every game state. *)
Theorem setSettings_guarded_and_bounded :
  (∀ sid code r mn mx s,
     let res := Baseline.managerSetSettings sid code r mn mx s in
     let st' := Baseline.applySettings r mn mx (Baseline.settings s) in
     (callerIsManager sid (Baseline.players s) = false ∨ Baseline.locked s = true →
        res = (s, []))
     ∧ (callerIsManager sid (Baseline.players s) = true →
        Baseline.locked s = false →
        res = (Baseline.withSettings s st',
               [(ToRoom code,
                 GameState (Baseline.gameStateView (Baseline.withSettings s st')))]))
     ∧ (Baseline.rounds st' = Baseline.rounds (Baseline.settings s)
        ∨ (r = Some (Baseline.rounds st') ∧ 1 ≤ Baseline.rounds st' ≤ 20))
     ∧ (Baseline.minLen st' = Baseline.minLen (Baseline.settings s)
        ∨ (mn = Some (Baseline.minLen st') ∧ 1 ≤ Baseline.minLen st' ≤ 40))
     ∧ (Baseline.maxLen st' = Baseline.maxLen (Baseline.settings s)
        ∨ (mx = Some (Baseline.maxLen st')
           ∧ Baseline.minLen st' ≤ Baseline.maxLen st' ≤ 60)))
  ∧ (∀ sid code r mn mx wl uw s,
       let res := WrongLimit.managerSetSettings sid code r mn mx wl uw s in
       let st' := WrongLimit.applySettings r mn mx wl uw (WrongLimit.settings s) in
       (callerIsManager sid (WrongLimit.players s) = false → res = (s, []))
       ∧ (callerIsManager sid (WrongLimit.players s) = true →
          res = (WrongLimit.withSettings s st',
                 [(ToRoom code,
                   GameState
                     (WrongLimit.gameStateView (WrongLimit.withSettings s st')))]))
       ∧ (WrongLimit.rounds st' = WrongLimit.rounds (WrongLimit.settings s)
          ∨ (r = Some (WrongLimit.rounds st') ∧ 1 ≤ WrongLimit.rounds st' ≤ 20))
       ∧ (WrongLimit.minLen st' = WrongLimit.minLen (WrongLimit.settings s)
          ∨ (mn = Some (WrongLimit.minLen st') ∧ 1 ≤ WrongLimit.minLen st' ≤ 40))
       ∧ (WrongLimit.maxLen st' = WrongLimit.maxLen (WrongLimit.settings s)
          ∨ (mx = Some (WrongLimit.maxLen st')
             ∧ WrongLimit.minLen st' ≤ WrongLimit.maxLen st' ≤ 60))
       ∧ (WrongLimit.unlimitedWrong st'
          = WrongLimit.unlimitedWrong (WrongLimit.settings s)
          ∨ uw = Some (WrongLimit.unlimitedWrong st'))
       ∧ (WrongLimit.wrongLimit st' = WrongLimit.wrongLimit (WrongLimit.settings s)
          ∨ (∃ v, wl = Some v ∧ WrongLimit.unlimitedWrong st' = false
                  ∧ WrongLimit.wrongLimit st' = Z.max 1 (Z.min 26 v)
                  ∧ 1 ≤ WrongLimit.wrongLimit st' ≤ 26))).
Proof.
  split.
  - intros sid code r mn mx s res st'.
    destruct (baseline_applySettings_bounds r mn mx (Baseline.settings s))
      as (H1 & H2 & H3).
    split_and!; try done.
    + unfold res, Baseline.managerSetSettings, callerIsManager.
      destruct (jsFind (hasId sid) (Baseline.players s)) as [me|]; simpl; [|done].
      intros [->| ->]; [done|]. by destruct (isManager me).
    + unfold res, Baseline.managerSetSettings, callerIsManager.
      destruct (jsFind (hasId sid) (Baseline.players s)) as [me|]; simpl; [|done].
      by intros -> ->.
  - intros sid code r mn mx wl uw s res st'.
    destruct (wronglimit_applySettings_bounds r mn mx wl uw (WrongLimit.settings s))
      as (H1 & H2 & H3 & H4 & H5).
    split_and!; try done.
    + unfold res, WrongLimit.managerSetSettings, callerIsManager.
      destruct (jsFind (hasId sid) (WrongLimit.players s)) as [me|]; simpl; [|done].
      by intros ->.
    + unfold res, WrongLimit.managerSetSettings, callerIsManager.
      destruct (jsFind (hasId sid) (WrongLimit.players s)) as [me|]; simpl; [|done].
      by intros ->.
Qed.

Lemma setSettings_guarded_and_bounded_witness :
  ∃ s, Baseline.sessions (Baseline.serverAfter Baseline.started) !! "ABCD" = Some s
       ∧ Baseline.locked s = true
       ∧ Baseline.managerSetSettings "alice" "ABCD" (Some 5) None None s = (s, []).
Proof.
  eexists. split; [vm_compute; reflexivity|]. split; [vm_compute; reflexivity|].
  refine (proj1 (proj1 setSettings_guarded_and_bounded "alice" "ABCD" (Some 5)
                   None None _) _).
  right. vm_compute. reflexivity.
Defined.

(** C4, as stated, fails in the wrong-limit server: after the game has
    started (state ["waiting_phrase"]) the manager's [manager:setSettings]
    still changes [rounds]. *)
Lemma setSettings_not_locked_counterexample :
  ∃ s0 g s1,
    WrongLimit.sessions (WrongLimit.serverAfter WrongLimit.started) !! "ABCD"
      = Some s0
    ∧ WrongLimit.game s0 = Some g ∧ WrongLimit.state g = WaitingPhrase
    ∧ WrongLimit.rounds (WrongLimit.settings s0) = 3
    ∧ WrongLimit.sessions (WrongLimit.serverAfter WrongLimit.lateSettings) !! "ABCD"
      = Some s1
    ∧ WrongLimit.rounds (WrongLimit.settings s1) = 5.
Proof.
  eexists _, _, _.
  split; [vm_compute; reflexivity|]. split; [vm_compute; reflexivity|].
  split; [reflexivity|]. split; [reflexivity|].
  split; [vm_compute; reflexivity|]. reflexivity.
Qed.

(** ** Submitting the phrase *)

Lemma trimStart_head s c r : trimStart s = String c r → isSpace c = false.
Proof.
  induction s as [|d s IH]; simpl; [done|].
  destruct (isSpace d) eqn:Hd; [done|]. by intros [= <- <-].
Qed.

Lemma trimEnd_head c r :
  isSpace c = false → ∃ r', trimEnd (String c r) = String c r'.
Proof. intros Hc. simpl. rewrite Hc. destruct (trimEnd r); eauto. Qed.

Lemma trim_head s c r : trim s = String c r → isSpace c = false.
Proof.
  unfold trim. destruct (trimStart s) as [|d t] eqn:E; [done|].
  pose proof (trimStart_head _ _ _ E) as Hd.
  destruct (trimEnd_head d t Hd) as [r' ->]. by intros [= <- <-].
Qed.

Lemma isSpace_upperChar c : isSpace (upperChar c) = isSpace c.
Proof. each_ascii c; reflexivity. Qed.

Lemma normalizePhrase_trimmed_nonempty allowed s norm :
  trim s ≠ EmptyString → normalizePhrase allowed (trim s) = Some norm →
  norm ≠ EmptyString.
Proof.
  intros Hne. unfold normalizePhrase. rewrite orElse_empty, trim_collapse_words.
  destruct (sall _ _); [|done]. intros [= <-].
  destruct (trim s) as [|c r] eqn:E; [done|].
  apply trim_head in E. intros Hu.
  apply unwords_empty in Hu; [|apply words_nonempty].
  revert Hu. cbn [toUpperCase smap]. apply words_head_nonspace.
  by rewrite isSpace_upperChar.
Qed.

Lemma len_nonempty s : 3 ≤ len s → s ≠ EmptyString.
Proof. intros H ->. unfold len in H. simpl in H. lia. Qed.

(** C7 (as amended).  For the current setter of a round in state
    ["waiting_phrase"], [setter:submitPhrase] either rejects the phrase, and
    then emits one [error:phrase] to the submitting socket and leaves the
    session unchanged, or accepts it, and then sets [raw], the mask of [raw]
    under the empty guessed set, an empty [guessedLetters], [hintShown]
    false, the hint, the guesser order of all current players except the
    setter, [turnIndex] 0 and the state ["active"], and emits [game:state]
    and [setter:ok].  The baseline server rejects a trimmed phrase of fewer
    than 3 or more than 50 characters and a phrase that [normalizePhrase]
    rejects, and stores the normalised phrase; the wrong-limit server
    rejects a trimmed phrase shorter than [minLen] or longer than [maxLen],
    stores the trimmed phrase upper-cased, and resets [wrongCount]. *)
Theorem submitPhrase_reject_or_activate :
  (∀ sid code phrase hnt s g r,
     Baseline.game s = Some g → Baseline.state g = WaitingPhrase →
     Baseline.round g = Some r → Baseline.setterId r = Some sid →
     let t := trim phrase in
     let res := Baseline.setterSubmitPhrase sid code phrase hnt s in
     (len t < 3 ∨ len t > 50 →
        res = (s, [(ToSocket sid, ErrorPhrase Baseline.phraseLengthMsg)]))
     ∧ (3 ≤ len t ≤ 50 → Baseline.normalizePhrase t = None →
        res = (s, [(ToSocket sid, ErrorPhrase Baseline.phraseCharsMsg)]))
     ∧ (∀ norm, 3 ≤ len t ≤ 50 → Baseline.normalizePhrase t = Some norm →
        let r' := Baseline.mkRound norm (Baseline.buildMasked norm ∅) []
                    (slice0 120 hnt) false (Some sid) (Baseline.winnerId r)
                    (Some (Baseline.guessersOf (Some sid) (Baseline.players s))) 0 in
        let s' := Baseline.withGame s (Baseline.withRound g Active (Some r')) in
        res = (s', [(ToRoom code, GameState (Baseline.gameStateView s'));
                    (ToSocket sid, SetterOk)])))
  ∧ (∀ sid code phrase hnt s g r,
       WrongLimit.game s = Some g → WrongLimit.state g = WaitingPhrase →
       WrongLimit.round g = Some r → WrongLimit.setterId r = Some sid →
       let t := trim phrase in
       let st := WrongLimit.settings s in
       let res := WrongLimit.setterSubmitPhrase sid code phrase hnt s in
       (len t < WrongLimit.minLen st ∨ len t > WrongLimit.maxLen st →
          res = (s, [(ToSocket sid, ErrorPhrase (WrongLimit.phraseLengthMsg st))]))
       ∧ (WrongLimit.minLen st ≤ len t ≤ WrongLimit.maxLen st →
          let up := toUpperCase t in
          let r' := WrongLimit.mkRound up (WrongLimit.buildMasked up ∅) []
                      (slice0 120 hnt) false (Some sid) (WrongLimit.winnerId r) 0
                      (WrongLimit.guessersOf (Some sid) (WrongLimit.players s)) 0 in
          let s' := WrongLimit.withGame s (WrongLimit.withRound g Active (Some r')) in
          res = (s', [(ToRoom code, GameState (WrongLimit.gameStateView s'));
                      (ToSocket sid, SetterOk)]))).
Proof.
  split.
  - intros sid code phrase hnt s g r Hg Hst Hr Hset t res.
    assert (∀ X Y : Baseline.Session * list Baseline.Emit,
              (if negb (bool_decide (Baseline.state g = WaitingPhrase)) then X
               else Y) = Y) as Hgo1.
    { intros. by rewrite bool_decide_true. }
    assert (∀ X Y : Baseline.Session * list Baseline.Emit,
              (if negb (bool_decide (Baseline.setterId r = Some sid)) then X
               else Y) = Y) as Hgo2.
    { intros. by rewrite bool_decide_true. }
    unfold res, Baseline.setterSubmitPhrase. rewrite Hg, Hgo1, Hr, Hgo2.
    fold t. split_and!.
    + intros Hlen. by rewrite bool_decide_true.
    + intros Hlen Hn. rewrite bool_decide_false by lia. by rewrite Hn.
    + intros norm Hlen Hn. cbv zeta. rewrite bool_decide_false by lia.
      rewrite Hn.
      assert (norm ≠ EmptyString) as Hne.
      { eapply normalizePhrase_trimmed_nonempty; [|exact Hn].
        apply len_nonempty. fold t. lia. }
      destruct norm as [|c n]; [done|]. by rewrite Hset.
  - intros sid code phrase hnt s g r Hg Hst Hr Hset t st res.
    assert (∀ X Y : WrongLimit.Session * list WrongLimit.Emit,
              (if negb (bool_decide (WrongLimit.state g = WaitingPhrase)) then X
               else Y) = Y) as Hgo1.
    { intros. by rewrite bool_decide_true. }
    assert (∀ X Y : WrongLimit.Session * list WrongLimit.Emit,
              (if negb (bool_decide (WrongLimit.setterId r = Some sid)) then X
               else Y) = Y) as Hgo2.
    { intros. by rewrite bool_decide_true. }
    unfold res, WrongLimit.setterSubmitPhrase. rewrite Hg, Hgo1, Hr, Hgo2.
    fold t. fold st. split.
    + intros Hlen. by rewrite bool_decide_true.
    + intros Hlen. cbv zeta. rewrite bool_decide_false by lia. by rewrite Hset.
Qed.

Lemma submitPhrase_reject_or_activate_witness :
  ∃ s g r,
    Baseline.sessions (Baseline.serverAfter Baseline.started) !! "ABCD" = Some s
    ∧ Baseline.game s = Some g ∧ Baseline.state g = WaitingPhrase
    ∧ Baseline.round g = Some r ∧ Baseline.setterId r = Some "alice"
    ∧ Baseline.setterSubmitPhrase "alice" "ABCD" "  hi " EmptyString s
      = (s, [(ToSocket "alice", ErrorPhrase Baseline.phraseLengthMsg)]).
Proof.
  eexists _, _, _.
  split; [vm_compute; reflexivity|]. split; [vm_compute; reflexivity|].
  split; [reflexivity|]. split; [vm_compute; reflexivity|].
  split; [reflexivity|].
  lazymatch goal with
  | |- Baseline.setterSubmitPhrase _ _ _ _ ?s = _ =>
      apply (proj1 (proj1 submitPhrase_reject_or_activate "alice" "ABCD" "  hi "
                      EmptyString s _ _ eq_refl eq_refl eq_refl eq_refl))
  end.
  left. vm_compute. reflexivity.
Defined.

(** C7, as stated, fails in both servers.  The wrong-limit server accepts a
    phrase with a character that [normalizePhrase] rejects and stores it as
    [raw]; the baseline server accepts a phrase of 3 characters although
    the configured [minLen] is 10. *)
Lemma submitPhrase_validation_counterexample :
  (WrongLimit.normalizePhrase "a@b" = None
   ∧ ∃ s g r,
       WrongLimit.sessions (WrongLimit.serverAfter WrongLimit.badChars) !! "ABCD"
         = Some s
       ∧ WrongLimit.game s = Some g ∧ WrongLimit.state g = Active
       ∧ WrongLimit.round g = Some r ∧ WrongLimit.raw r = "A@B")
  ∧ (∃ s g r,
       Baseline.sessions (Baseline.serverAfter Baseline.shortPhrase) !! "ABCD"
         = Some s
       ∧ Baseline.minLen (Baseline.settings s) = 10
       ∧ Baseline.game s = Some g ∧ Baseline.state g = Active
       ∧ Baseline.round g = Some r ∧ Baseline.raw r = "ABC").
Proof.
  split.
  - split; [reflexivity|]. eexists _, _, _.
    split; [vm_compute; reflexivity|]. split; [vm_compute; reflexivity|].
    split; [reflexivity|]. split; [vm_compute; reflexivity|]. reflexivity.
  - eexists _, _, _.
    split; [vm_compute; reflexivity|]. split; [reflexivity|].
    split; [vm_compute; reflexivity|]. split; [reflexivity|].
    split; [vm_compute; reflexivity|]. reflexivity.
Qed.

(** ** Scoring *)

Lemma credit_length who pts ps : length (credit who pts ps) = length ps.
Proof.
  unfold credit. induction ps as [|p ps IH]; simpl; [done|].
  destruct (hasId who p); simpl; by rewrite ?IH.
Qed.



Section WrongLimitScoring.
Import WrongLimit.






End WrongLimitScoring.

(** ** The guessers of a round are players *)












Section WrongLimitPresence.
Import WrongLimit.






Lemma wronglimit_run_reachable es srv :
  reachable srv → reachable (from_option fst srv (run srv es)).
Proof.
  revert srv. induction es as [|e es IH]; intros srv Hr; [done|]. simpl.
  destruct (handle srv e) as [[srv1 out1]|] eqn:He; [|done].
  assert (reachable srv1) as Hr1 by (by eapply reach_step).
  specialize (IH srv1 Hr1).
  by destruct (run srv1 es) as [[srv2 out2]|].
Qed.

Lemma wronglimit_serverAfter_reachable es : reachable (serverAfter es).
Proof. apply wronglimit_run_reachable, reach_init. Qed.

End WrongLimitPresence.






(** ** The projected game state and the secret phrase *)

Lemma includes_charAt s c : includes s c = true → ∃ i, charAt s i = Some c.
Proof.
  induction s as [|d r IH]; simpl; [done|].
  intros [Hd|Hr]%orb_true_iff.
  - apply bool_decide_eq_true in Hd as ->. by exists 0%nat.
  - destruct (IH Hr) as [i Hi]. by exists (S i).
Qed.

Lemma charAt_includes s i c : charAt s i = Some c → includes s c = true.
Proof.
  revert i. induction s as [|d r IH]; intros [|i]; simpl; try done.
  - intros [= ->]. by rewrite bool_decide_true.
  - intros H. rewrite (IH _ H). apply orb_true_r.
Qed.

Lemma isLetter_not_underscore c : isLetter c = true → c ≠ "_"%char.
Proof. intros H ->. by vm_compute in H. Qed.

Lemma allowedLettersDigits_noLower c :
  includes allowedLettersDigits c = true → negb (isLowerAZ c) = true.
Proof. each_ascii c; vm_compute; congruence. Qed.

Lemma sall_impl (p q : ascii → bool) s :
  (∀ c, p c = true → q c = true) → sall p s = true → sall q s = true.
Proof.
  intros H. induction s as [|c r IH]; simpl; [done|].
  intros [Hc Hr]%andb_true_iff. by rewrite (H _ Hc), IH.
Qed.

Lemma baseline_normalizePhrase_noLower input norm :
  Baseline.normalizePhrase input = Some norm → noLower norm = true.
Proof.
  unfold Baseline.normalizePhrase, normalizePhrase.
  destruct (sall _ _) eqn:Hall; [|done]. intros [= <-].
  revert Hall. apply sall_impl, allowedLettersDigits_noLower.
Qed.

(** The specification's mask hides a letter that has not been guessed. *)
Lemma specMask_hides raw guessed i c :
  charAt raw i = Some c → isLetter c = true → upperChar c ∉ guessed →
  charAt (specMask raw guessed) i = Some "_"%char.
Proof.
  intros Hc Hl Hn. unfold specMask. rewrite charAt_smap, Hc. simpl.
  unfold specMaskChar. rewrite Hl. by rewrite bool_decide_false.
Qed.

Lemma specMask_eq_raw raw guessed c :
  specMask raw guessed = raw → includes raw c = true → isLetter c = true →
  upperChar c ∈ guessed.
Proof.
  intros Heq Hin Hl. destruct (decide (upperChar c ∈ guessed)) as [|Hn]; [done|].
  destruct (includes_charAt _ _ Hin) as [i Hi].
  pose proof (specMask_hides raw guessed i c Hi Hl Hn) as Hm.
  rewrite Heq, Hi in Hm. injection Hm as ->. by vm_compute in Hl.
Qed.

(** A letter that does not occur in the phrase does not change the mask. *)
Lemma wronglimit_buildMasked_miss raw (guessed : list ascii) L :
  noLower raw = true → includes raw L = false →
  WrongLimit.buildMasked raw (list_to_set (guessed ++ [L]))
  = WrongLimit.buildMasked raw (list_to_set guessed).
Proof.
  intros Hlow HL. apply smap_ext. intros c Hc.
  unfold WrongLimit.maskChar. destruct (isLetter c); [|done].
  rewrite (upperChar_id c) by (by eapply noLower_includes).
  assert (c ≠ L) as Hne by (intros ->; congruence).
  assert (c ∈ (list_to_set (guessed ++ [L]) : gset ascii)
          ↔ c ∈ (list_to_set guessed : gset ascii)) as Hiff.
  { rewrite !elem_of_list_to_set, elem_of_app, list_elem_of_singleton.
    split; [intros [?|?]; [done|congruence]|auto]. }
  destruct (decide (c ∈ (list_to_set guessed : gset ascii))) as [Hin|Hout].
  - rewrite !bool_decide_true; [done..|]. by apply Hiff.
  - rewrite !bool_decide_false; [done..|]. by rewrite Hiff.
Qed.

Section BaselineMask.
Import Baseline.

Lemma baseline_advanceTurn_fields r :
  raw (advanceTurn r) = raw r ∧ masked (advanceTurn r) = masked r
  ∧ guessedLetters (advanceTurn r) = guessedLetters r.
Proof. unfold advanceTurn. by handler_cases. Qed.

Lemma baseline_maskOk_step e code s : maskOk s → maskOk (onSession e code s).
Proof.
  intros H.
  destruct e; simpl;
    unfold playerRename, managerSetSettings, managerStartGame, managerNextRound,
      maybeGameOver, startWaitingForPhrase, setterSubmitPhrase, setterShowHint,
      playerGuessLetter, playerSolve, removePlayer, dropGuesser;
    simpl; handler_cases; try done;
    intros g' r' Hg' Hr'; simpl in *; simplify_eq/=.
  all: try (by eapply H).
  all: try (by split; [done|intros [?|?]; done]).
  all: try (split; [by eapply baseline_normalizePhrase_noLower|done]).
  all: try (by split; [by eapply baseline_normalizePhrase_noLower
                      |intros [?|?]]).
  all: try (match goal with
            | Hg : game _ = Some ?g, Hr : round ?g = Some ?r |- _ =>
                destruct (H g r Hg Hr) as [Hlow Hm]
            end;
            repeat match goal with
            | |- context [advanceTurn ?x] =>
                destruct (baseline_advanceTurn_fields x) as (-> & -> & ->)
            end; simpl; split; [done|]; intros ?; auto; fail).
  unfold gameForStart in Hr'. destruct (game s) as [g0|] eqn:Hg0; [|done].
  simpl in Hr'. destruct (H g0 r' Hg0 Hr') as [? _].
  split; [done|]. by intros [?|?].
Qed.

Lemma baseline_maskOk srv :
  reachable srv → ∀ code s, sessions srv !! code = Some s → maskOk s.
Proof.
  apply (baseline_invariant maskOk).
  - intros atv now g r Hg. done.
  - apply baseline_maskOk_step.
Qed.

Lemma baseline_view_withRaw x s : gameStateView (withRaw x s) = gameStateView s.
Proof.
  unfold withRaw. destruct (game s) as [g|] eqn:Hg; [|done].
  destruct (round g) as [r|] eqn:Hr; [|done].
  unfold gameStateView, currentTurnPlayerId. simpl.
  rewrite ?Hg. simpl. rewrite ?Hr. reflexivity.
Qed.

End BaselineMask.

Section WrongLimitMask.
Import WrongLimit.

Lemma wronglimit_advanceTurn_fields r :
  raw (advanceTurn r) = raw r ∧ masked (advanceTurn r) = masked r
  ∧ guessedLetters (advanceTurn r) = guessedLetters r.
Proof. unfold advanceTurn, withTurn. by handler_cases. Qed.

Lemma wronglimit_maskOk_step e code s : maskOk s → maskOk (onSession e code s).
Proof.
  intros H.
  destruct e; simpl;
    unfold playerRename, managerSetSettings, managerStartGame, managerNextRound,
      maybeGameOver, startWaitingForPhrase, setterSubmitPhrase, setterShowHint,
      playerGuessLetter, playerSolve, removePlayer, dropGuesser, wrongGuess,
      finishRoundWithSetterWin;
    simpl; handler_cases; try done;
    intros g' r' Hg' Hr'; simpl in *; simplify_eq/=.
  all: try (by eapply H).
  all: try (by split; [done|intros [?|?]; done]).
  all: try (by split; [apply noLower_toUpperCase|]).
  all: try (match goal with
            | Hg : game _ = Some ?g, Hr : round ?g = Some ?r |- _ =>
                destruct (H g r Hg Hr) as [Hlow Hm]
            end;
            repeat match goal with
            | |- context [advanceTurn ?x] =>
                destruct (wronglimit_advanceTurn_fields x) as (-> & -> & ->)
            end; simpl; split; [done|]; intros ?;
            rewrite ?wronglimit_buildMasked_miss by done; auto;
            by destruct_or!).
  all: try (match goal with
            | Hg : game _ = Some ?g, Hr : round ?g = Some ?r |- _ =>
                destruct (H g r Hg Hr) as [Hlow Hm]
            end;
            match goal with E : raw _ = String _ _ |- _ => rewrite E in Hlow end;
            by split; [|intros [?|?]]).
  unfold gameForStart in Hr'. destruct (game s) as [g0|] eqn:Hg0; [|done].
  simpl in Hr'. destruct (H g0 r' Hg0 Hr') as [? _].
  split; [done|]. by intros [?|?].
Qed.

Lemma wronglimit_maskOk srv :
  reachable srv → ∀ code s, sessions srv !! code = Some s → maskOk s.
Proof.
  apply (wronglimit_invariant maskOk).
  - intros atv now g r Hg. done.
  - apply wronglimit_maskOk_step.
Qed.

Lemma wronglimit_view_withRaw x s : gameStateView (withRaw x s) = gameStateView s.
Proof.
  unfold withRaw. destruct (game s) as [g|] eqn:Hg; [|done].
  destruct (round g) as [r|] eqn:Hr; [|done].
  unfold gameStateView, currentTurnPlayerId. simpl.
  rewrite ?Hg. simpl. rewrite ?Hr. reflexivity.
Qed.

End WrongLimitMask.

Lemma masked_view_facts raw guessed m :
  noLower raw = true → m = specMask raw guessed →
  (∀ i c, charAt raw i = Some c → isLetter c = true → c ∉ guessed →
          charAt m i = Some "_"%char)
  ∧ (m = raw → ∀ c, includes raw c = true → isLetter c = true → c ∈ guessed).
Proof.
  intros Hlow ->. split.
  - intros i c Hc Hl Hn. apply (specMask_hides _ _ _ c); [done..|].
    rewrite upperChar_id; [done|].
    eapply noLower_includes; [done|]. by eapply charAt_includes.
  - intros Heq c Hin Hl.
    rewrite <- (upperChar_id c) by (by eapply noLower_includes).
    by eapply specMask_eq_raw.
Qed.

Lemma early_view_withRaw s x :
  Early.gameStateView (Early.withRaw x s) = Early.gameStateView s.
Proof.
  unfold Early.withRaw. destruct (Early.game s) as [g|] eqn:Hg; [|done].
  destruct (Early.round g) as [r|] eqn:Hr; [|done].
  unfold Early.gameStateView. simpl. rewrite ?Hg. simpl. rewrite ?Hr.
  reflexivity.
Qed.

(** C6 (as amended).  In both servers and in every reachable state, the
    [game:state] payload does not read [raw]: it is the same whatever the
    secret phrase is replaced by.  While the round is unresolved (state
    ["waiting_phrase"] or ["active"]) its [masked] field is
    [buildMasked(raw, guessedLetters)], so it shows an underscore at the
    position of every letter of [raw] that has not been guessed; and it can
    only equal [raw] when every letter of [raw] has been guessed, which
    includes a phrase without letters and the empty phrase before
    submission.  The payload of the first server of [server.js] does not
    read [raw] either. *)
Theorem gameState_view_hides_phrase :
  (∀ srv code s,
     Baseline.reachable srv → Baseline.sessions srv !! code = Some s →
     (∀ x, Baseline.gameStateView (Baseline.withRaw x s) = Baseline.gameStateView s)
     ∧ ∀ g r,
         Baseline.game s = Some g → Baseline.round g = Some r →
         Baseline.state g = WaitingPhrase ∨ Baseline.state g = Active →
         let m := Baseline.v_masked (Baseline.gameStateView s) in
         let guessed : gset ascii := list_to_set (Baseline.guessedLetters r) in
         m = Baseline.buildMasked (Baseline.raw r) guessed
         ∧ (∀ i c, charAt (Baseline.raw r) i = Some c → isLetter c = true →
                   c ∉ guessed → charAt m i = Some "_"%char)
         ∧ (m = Baseline.raw r →
            ∀ c, includes (Baseline.raw r) c = true → isLetter c = true →
                 c ∈ guessed))
  ∧ (∀ srv code s,
       WrongLimit.reachable srv → WrongLimit.sessions srv !! code = Some s →
       (∀ x, WrongLimit.gameStateView (WrongLimit.withRaw x s)
             = WrongLimit.gameStateView s)
       ∧ ∀ g r,
           WrongLimit.game s = Some g → WrongLimit.round g = Some r →
           WrongLimit.state g = WaitingPhrase ∨ WrongLimit.state g = Active →
           let m := WrongLimit.v_masked (WrongLimit.gameStateView s) in
           let guessed : gset ascii := list_to_set (WrongLimit.guessedLetters r) in
           m = WrongLimit.buildMasked (WrongLimit.raw r) guessed
           ∧ (∀ i c, charAt (WrongLimit.raw r) i = Some c → isLetter c = true →
                     c ∉ guessed → charAt m i = Some "_"%char)
           ∧ (m = WrongLimit.raw r →
              ∀ c, includes (WrongLimit.raw r) c = true → isLetter c = true →
                   c ∈ guessed))
  ∧ (∀ s x, Early.gameStateView (Early.withRaw x s) = Early.gameStateView s).
Proof.
  split_and!; [| |apply early_view_withRaw].
  - intros srv code s Hr Hs. split; [intros x; apply baseline_view_withRaw|].
    intros g r Hg Hrd Hst m guessed.
    destruct (baseline_maskOk srv Hr code s Hs g r Hg Hrd) as [Hlow Hm].
    assert (m = Baseline.masked r) as Hview.
    { unfold m, Baseline.gameStateView. rewrite Hg. simpl. by rewrite Hrd. }
    assert (m = specMask (Baseline.raw r) guessed) as Hspec.
    { rewrite Hview, (Hm Hst). by apply baseline_buildMasked_spec. }
    split; [by rewrite Hview, (Hm Hst)|].
    by apply masked_view_facts.
  - intros srv code s Hr Hs. split; [intros x; apply wronglimit_view_withRaw|].
    intros g r Hg Hrd Hst m guessed.
    destruct (wronglimit_maskOk srv Hr code s Hs g r Hg Hrd) as [Hlow Hm].
    assert (m = WrongLimit.masked r) as Hview.
    { unfold m, WrongLimit.gameStateView. rewrite Hg. simpl. by rewrite Hrd. }
    assert (m = specMask (WrongLimit.raw r) guessed) as Hspec.
    { rewrite Hview, (Hm Hst). by apply wronglimit_buildMasked_spec. }
    split; [by rewrite Hview, (Hm Hst)|].
    by apply masked_view_facts.
Qed.

Lemma gameState_view_hides_phrase_witness :
  ∃ s g r,
    Baseline.sessions (Baseline.serverAfter Baseline.playing) !! "ABCD" = Some s
    ∧ Baseline.game s = Some g ∧ Baseline.round g = Some r
    ∧ Baseline.raw r = "HELLO WORLD"
    ∧ Baseline.v_masked (Baseline.gameStateView s)
      = Baseline.buildMasked (Baseline.raw r)
          (list_to_set (Baseline.guessedLetters r)).
Proof.
  eexists _, _, _.
  split; [vm_compute; reflexivity|]. split; [vm_compute; reflexivity|].
  split; [vm_compute; reflexivity|]. split; [reflexivity|].
  lazymatch goal with
  | |- Baseline.v_masked (Baseline.gameStateView ?s) = _ =>
      refine (proj1 (proj2 (proj1 gameState_view_hides_phrase
                              (Baseline.serverAfter Baseline.playing) "ABCD" s
                              (baseline_serverAfter_reachable _) _)
                       _ _ eq_refl eq_refl _))
  end.
  - vm_compute. reflexivity.
  - right. reflexivity.
Defined.

(** C6, as stated, fails for a phrase without letters: after the setter has
    submitted "1984" the round is active, nobody has won, and the [masked]
    field of the payload is the whole phrase. *)
Lemma masked_is_phrase_counterexample :
  ∃ s g r,
    Baseline.sessions (Baseline.serverAfter Baseline.digitsPhrase) !! "ABCD"
      = Some s
    ∧ Baseline.game s = Some g ∧ Baseline.round g = Some r
    ∧ Baseline.raw r = "1984" ∧ Baseline.winnerId r = None
    ∧ Baseline.v_state (Baseline.gameStateView s) = Active
    ∧ Baseline.v_masked (Baseline.gameStateView s) = Baseline.raw r.
Proof.
  eexists _, _, _.
  split; [vm_compute; reflexivity|]. split; [vm_compute; reflexivity|].
  split; [vm_compute; reflexivity|]. by split_and!.
Qed.

(** ** The manager role *)

Lemma managers_app l p :
  managers (l ++ [p]) = managers l ++ (if isManager p then [p] else []).
Proof. unfold managers. rewrite List.filter_app. simpl. by destruct (isManager p). Qed.

Lemma managers_updateFirst pred f l :
  (∀ x, isManager (f x) = isManager x) →
  length (managers (updateFirst pred f l)) = length (managers l).
Proof.
  intros Hf. unfold managers. induction l as [|x l IH]; simpl; [done|].
  destruct (pred x); simpl.
  - rewrite Hf. by destruct (isManager x).
  - destruct (isManager x); simpl; by rewrite IH.
Qed.

Lemma updateFirst_nil {A} pred (f : A → A) l : updateFirst pred f l = [] → l = [].
Proof. destruct l as [|x l]; simpl; [done|]. by destruct (pred x). Qed.

Lemma findIndex_Some {A} (pred : A → bool) l i :
  findIndex pred l = Some i → ∃ x, l !! i = Some x ∧ pred x = true.
Proof.
  revert i. induction l as [|y l IH]; intros i; simpl; [done|].
  destruct (pred y) eqn:Hy.
  - intros [= <-]. by exists y.
  - destruct (findIndex pred l) as [j|]; simpl; [|done].
    intros [= <-]. by apply IH.
Qed.

Lemma managers_delete l i p :
  l !! i = Some p →
  length (managers l)
  = (length (managers (delete i l)) + (if isManager p then 1 else 0))%nat.
Proof.
  unfold managers. revert i. induction l as [|x l IH]; intros [|i]; simpl; try done.
  - intros [= ->]. destruct (isManager p); simpl; lia.
  - intros H. specialize (IH i H). destruct (isManager x); simpl; lia.
Qed.

Lemma managers_promoteFirst ps :
  ps ≠ [] → managers ps = [] → length (managers (promoteFirst ps)) = 1%nat.
Proof.
  destruct ps as [|p r]; [done|]. intros _. unfold managers. simpl.
  destruct (isManager p); [done|]. by intros ->.
Qed.

Lemma oneManager_remove ps i p :
  oneManager ps → ps !! i = Some p →
  oneManager (if isManager p then promoteFirst (delete i ps) else delete i ps).
Proof.
  intros H Hi.
  assert (ps ≠ []) as Hne by (intros ->; done).
  pose proof (managers_delete ps i p Hi) as Hd. rewrite (H Hne) in Hd.
  destruct (isManager p).
  - intros Hp. apply managers_promoteFirst.
    + intros E. by rewrite E in Hp.
    + apply nil_length_inv. lia.
  - intros _. lia.
Qed.

Section BaselineManager.
Import Baseline.

Lemma baseline_removePlayer_players sid s :
  players (removePlayer sid s) = players s
  ∨ ∃ i p, players s !! i = Some p
           ∧ players (removePlayer sid s)
             = if isManager p then promoteFirst (delete i (players s))
               else delete i (players s).
Proof.
  unfold removePlayer.
  destruct (findIndex (hasId sid) (players s)) as [i|] eqn:Hi; [|by left].
  destruct (findIndex_Some _ _ _ Hi) as (p & Hp & _).
  right. exists i, p. split; [done|]. rewrite Hp. simpl.
  unfold dropGuesser. simpl. by handler_cases.
Qed.

(** Every event keeps "exactly one manager when there are players", except
    a [player:rejoin] that reaches a session without players. *)
Lemma baseline_oneManager_step e code s :
  oneManager (players s) →
  (players s = [] → isRejoin e = false) →
  oneManager (players (onSession e code s)).
Proof.
  intros H Hrj.
  destruct e; simpl.
  - done.
  - done.
  - case_bool_decide; [done|]. simpl. intros _.
    rewrite managers_app, length_app.
    destruct (decide (players s = [])) as [E|Hne].
    + by rewrite E.
    + rewrite bool_decide_false by (by destruct (players s)).
      rewrite (H Hne). simpl. lia.
  - simpl. destruct (jsFind _ _) eqn:Hf.
    + intros Hne. rewrite managers_updateFirst by done. apply H.
      intros E. rewrite E in Hne. done.
    + intros _. rewrite managers_app, length_app. simpl.
      destruct (decide (players s = [])) as [E|Hne];
        [by specialize (Hrj E)|].
      rewrite (H Hne). lia.
  - unfold playerRename. handler_cases; try done;
      intros Hne; rewrite managers_updateFirst by done; apply H;
      intros E; by rewrite E in Hne.
  - unfold managerSetSettings. by handler_cases.
  - unfold managerStartGame, startWaitingForPhrase. by handler_cases.
  - unfold managerNextRound, maybeGameOver, startWaitingForPhrase.
    by handler_cases.
  - unfold setterSubmitPhrase. by handler_cases.
  - unfold setterShowHint. by handler_cases.
  - unfold playerGuessLetter. handler_cases; try done;
      intros Hne; unfold credit; rewrite managers_updateFirst by done; apply H;
      intros E; by rewrite E in Hne.
  - unfold playerSolve. handler_cases; try done;
      intros Hne; unfold credit; rewrite managers_updateFirst by done; apply H;
      intros E; by rewrite E in Hne.
  - case_bool_decide; [done|].
    destruct (baseline_removePlayer_players sid s) as [->|(i & p & Hp & ->)];
      [done|].
    by apply oneManager_remove.
Qed.

End BaselineManager.

(** ** The scenarios of the specification *)

(** Scenario A: after O the mask is "____O _O___"; the last letter resolves
    the round for Bob, who gets 2 points without a hint. *)
Example baseline_scenario_A :
  ∃ s1 g1 r1 s g r,
    Baseline.sessions (Baseline.serverAfter Baseline.guessedO) !! "ABCD" = Some s1
    ∧ Baseline.game s1 = Some g1 ∧ Baseline.round g1 = Some r1
    ∧ Baseline.guesserOrder r1 = Some ["bob"]
    ∧ Baseline.masked r1 = "____O _O___"
    ∧ Baseline.sessions (Baseline.serverAfter Baseline.scenarioA) !! "ABCD" = Some s
    ∧ Baseline.game s = Some g ∧ Baseline.round g = Some r
    ∧ Baseline.state g = Won ∧ Baseline.winnerId r = Some "bob"
    ∧ Baseline.masked r = "HELLO WORLD"
    ∧ scoreOf "bob" (Baseline.players s) = 2%nat
    ∧ scoreOf "alice" (Baseline.players s) = 0%nat.
Proof.
  eexists _, _, _, _, _, _.
  split; [vm_compute; reflexivity|]. split; [vm_compute; reflexivity|].
  split; [vm_compute; reflexivity|]. split; [reflexivity|].
  split; [reflexivity|].
  split; [vm_compute; reflexivity|]. split; [vm_compute; reflexivity|].
  split; [vm_compute; reflexivity|]. by split_and!.
Qed.

Example wronglimit_scenario_A :
  ∃ s g r,
    WrongLimit.sessions (WrongLimit.serverAfter WrongLimit.scenarioA) !! "ABCD"
      = Some s
    ∧ WrongLimit.game s = Some g ∧ WrongLimit.round g = Some r
    ∧ WrongLimit.state g = Won ∧ WrongLimit.winnerId r = Some "bob"
    ∧ WrongLimit.masked r = "HELLO WORLD"
    ∧ scoreOf "bob" (WrongLimit.players s) = 2%nat.
Proof.
  eexists _, _, _.
  split; [vm_compute; reflexivity|]. split; [vm_compute; reflexivity|].
  split; [vm_compute; reflexivity|]. by split_and!.
Qed.

(** Scenario B: an exact solve wins at once, with 2 points without a hint. *)
Example baseline_scenario_B :
  ∃ s g r,
    Baseline.sessions (Baseline.serverAfter Baseline.scenarioB) !! "ABCD" = Some s
    ∧ Baseline.game s = Some g ∧ Baseline.round g = Some r
    ∧ Baseline.state g = Won ∧ Baseline.winnerId r = Some "bob"
    ∧ Baseline.masked r = "HELLO WORLD"
    ∧ scoreOf "bob" (Baseline.players s) = 2%nat.
Proof.
  eexists _, _, _.
  split; [vm_compute; reflexivity|]. split; [vm_compute; reflexivity|].
  split; [vm_compute; reflexivity|]. by split_and!.
Qed.

Example wronglimit_scenario_B :
  ∃ s g r,
    WrongLimit.sessions (WrongLimit.serverAfter WrongLimit.scenarioB) !! "ABCD"
      = Some s
    ∧ WrongLimit.game s = Some g ∧ WrongLimit.round g = Some r
    ∧ WrongLimit.state g = Won ∧ WrongLimit.winnerId r = Some "bob"
    ∧ WrongLimit.masked r = "HELLO WORLD"
    ∧ scoreOf "bob" (WrongLimit.players s) = 2%nat.
Proof.
  eexists _, _, _.
  split; [vm_compute; reflexivity|]. split; [vm_compute; reflexivity|].
  split; [vm_compute; reflexivity|]. by split_and!.
Qed.

(** Scenario D: when the manager leaves, the earliest-joined remaining
    player is the manager in the next [session:players] message. *)
Example baseline_scenario_D :
  ∃ s,
    Baseline.sessions (Baseline.serverAfter Baseline.scenarioD) !! "ABCD" = Some s
    ∧ Baseline.players s
      = [mkPlayer "bob" "Bob" true 0; mkPlayer "carol" "Carol" false 0]
    ∧ (Baseline.handle (Baseline.serverAfter (removelast Baseline.scenarioD))
         (Baseline.Disconnect "alice")) ≫= (λ res, head res.2)
      = Some (ToRoom "ABCD",
              SessionPlayers "ABCD"
                [mkPlayerView "bob" "Bob" true 0;
                 mkPlayerView "carol" "Carol" false 0]).
Proof.
  eexists. split; [vm_compute; reflexivity|]. split; [reflexivity|].
  vm_compute. reflexivity.
Qed.

(** Scenario E: [atv:getPlayers] with the code of a live session binds the
    session to the new socket, sends the code again and a full snapshot,
    and does not create a session. *)
Example baseline_scenario_E :
  ∃ s,
    Baseline.sessions (Baseline.serverAfter Baseline.scenarioE) !! "ABCD" = Some s
    ∧ Baseline.atvSocketId s = Some "atv2"
    ∧ size (Baseline.sessions (Baseline.serverAfter Baseline.scenarioE)) = 1%nat
    ∧ (snd <$> Baseline.handle
                 (Baseline.serverAfter (removelast Baseline.scenarioE))
                 (Baseline.AtvGetPlayers "atv2" 40 "abcd"))
      = Some [(ToSocket "atv2", SessionCreated "ABCD");
              (ToRoom "ABCD", SessionPlayers "ABCD" (playersView (Baseline.players s)));
              (ToRoom "ABCD", GameState (Baseline.gameStateView s))].
Proof.
  eexists. split; [vm_compute; reflexivity|]. split; [reflexivity|].
  split; [vm_compute; reflexivity|]. vm_compute. reflexivity.
Qed.

(** * Further properties of the servers *)

(** ** Strings: slicing, trimming and upper-casing *)

Lemma slice0_length n s : (String.length (slice0 n s) ≤ n)%nat.
Proof.
  revert s. induction n as [|n IH]; intros [|c r]; simpl; try lia.
  specialize (IH r). lia.
Qed.



Lemma toUpperCase_idemp s : toUpperCase (toUpperCase s) = toUpperCase s.
Proof. apply toUpperCase_noLower, noLower_toUpperCase. Qed.

Lemma trimStart_toUpperCase s : trimStart (toUpperCase s) = toUpperCase (trimStart s).
Proof.
  induction s as [|c r IH]; [done|]. cbn [toUpperCase smap trimStart].
  rewrite isSpace_upperChar. destruct (isSpace c); [exact IH|done].
Qed.

Lemma trimEnd_toUpperCase s : trimEnd (toUpperCase s) = toUpperCase (trimEnd s).
Proof.
  induction s as [|c r IH]; [done|]. cbn [toUpperCase smap trimEnd].
  fold (toUpperCase r). rewrite IH, isSpace_upperChar.
  destruct (trimEnd r); simpl; [by destruct (isSpace c)|done].
Qed.

Lemma trim_toUpperCase s : trim (toUpperCase s) = toUpperCase (trim s).
Proof. unfold trim. by rewrite trimStart_toUpperCase, trimEnd_toUpperCase. Qed.

Lemma trimStart_fixed c r : isSpace c = false → trimStart (String c r) = String c r.
Proof. intros H. simpl. by rewrite H. Qed.

Lemma trimEnd_idemp s : trimEnd (trimEnd s) = trimEnd s.
Proof.
  induction s as [|c r IH]; [done|]. simpl.
  destruct (trimEnd r) as [|d t] eqn:E.
  - destruct (isSpace c) eqn:Hc; [done|]. simpl. by rewrite Hc.
  - cbn [trimEnd]. cbn [trimEnd] in IH. by rewrite IH.
Qed.

Lemma trim_idemp s : trim (trim s) = trim s.
Proof.
  destruct (trim s) as [|c r] eqn:E; [done|].
  pose proof (trim_head _ _ _ E) as Hc.
  unfold trim at 1. rewrite trimStart_fixed by done.
  rewrite <- E. unfold trim. apply trimEnd_idemp.
Qed.

Lemma sall_trimStart_id p s :
  (∀ c, p c = true → isSpace c = false) → sall p s = true → trimStart s = s.
Proof. intros Hp. destruct s as [|c r]; simpl; [done|]. intros [Hc _]%andb_true_iff. by rewrite (Hp c Hc). Qed.

Lemma sall_trimEnd_id p s :
  (∀ c, p c = true → isSpace c = false) → sall p s = true → trimEnd s = s.
Proof.
  intros Hp. induction s as [|c r IH]; simpl; [done|].
  intros [Hc Hr]%andb_true_iff. rewrite (IH Hr), (Hp c Hc). by destruct r.
Qed.

Lemma codeChars_plain c :
  includes codeChars c = true → isSpace c = false ∧ isLowerAZ c = false.
Proof. each_ascii c; vm_compute; (done || by split). Qed.

Lemma cleanCode_idemp c : Baseline.cleanCode (Baseline.cleanCode c) = Baseline.cleanCode c.
Proof.
  unfold Baseline.cleanCode. by rewrite trim_toUpperCase, trim_idemp, toUpperCase_idemp.
Qed.

Lemma cleanCode_isCode c : isCode c = true → Baseline.cleanCode c = c.
Proof.
  unfold isCode, Baseline.cleanCode. intros [_ H]%andb_true_iff.
  unfold trim.
  rewrite (sall_trimStart_id _ _ (λ c Hc, proj1 (codeChars_plain c Hc)) H).
  rewrite (sall_trimEnd_id _ _ (λ c Hc, proj1 (codeChars_plain c Hc)) H).
  apply toUpperCase_noLower. unfold noLower.
  erewrite sall_ext; [|intros; reflexivity].
  clear -H. induction c as [|d r IH]; simpl in *; [done|].
  apply andb_true_iff in H as [Hd Hr].
  by rewrite (proj2 (codeChars_plain d Hd)), IH.
Qed.

(** ** Rounds *)

Section BaselineRounds.
Import Baseline.

Lemma baseline_roundPresent_step e code s :
  roundPresent s → roundPresent (onSession e code s).
Proof.
  unfold roundPresent. intros H.
  destruct e; simpl; try done.
  - by case_bool_decide.
  - unfold playerRename. by handler_cases.
  - unfold managerSetSettings. by handler_cases.
  - unfold managerStartGame, startWaitingForPhrase, gameForStart.
    handler_cases; try done; intros g' ?; simplify_eq/=; try done; eauto.
  - unfold managerNextRound, maybeGameOver, startWaitingForPhrase.
    handler_cases; try done; intros g' ?; simplify_eq/=; try done; eauto.
  - unfold setterSubmitPhrase.
    handler_cases; try done; intros g' ?; simplify_eq/=; try done; eauto.
  - unfold setterShowHint.
    handler_cases; try done; intros g' ?; simplify_eq/=; try done; eauto.
  - unfold playerGuessLetter.
    handler_cases; try done; intros g' ?; simplify_eq/=; try done; eauto.
  - unfold playerSolve.
    handler_cases; try done; intros g' ?; simplify_eq/=; try done; eauto.
  - unfold removePlayer, dropGuesser.
    handler_cases; try done; intros g' ?; simplify_eq/=; try done; eauto.
Qed.

End BaselineRounds.

(** ** Guessed letters and guesser order *)

Lemma lettersOk_nil : lettersOk [].
Proof. split; [constructor|done]. Qed.

Lemma lettersOk_snoc l c :
  lettersOk l → c ∉ l → isUpperAZ c = true → lettersOk (l ++ [c]).
Proof.
  intros [Hn Hf] Hc Hu. split.
  - apply NoDup_app. split_and!; [done| |apply NoDup_singleton].
    intros x Hx ->%list_elem_of_singleton. done.
  - apply Forall_app. split; [done|]. by constructor.
Qed.

Lemma letterOf_upper letter L : Baseline.letterOf letter = Some L → isUpperAZ L = true.
Proof.
  unfold Baseline.letterOf. destruct (toUpperCase letter) as [|c [|d r]]; try done.
  destruct (isUpperAZ c) eqn:E; [|done]. by intros [= <-].
Qed.

Lemma removeFirst_subset x l y : y ∈ Baseline.removeFirst x l → y ∈ l.
Proof.
  induction l as [|z l IH]; simpl; [done|].
  case_bool_decide; [by right|]. intros [->|?]%elem_of_cons; [by left|right; auto].
Qed.

Lemma guessersOf_apart x ps : x ∉ Baseline.guessersOf (Some x) ps.
Proof.
  unfold Baseline.guessersOf. intros (p & -> & Hp)%list_elem_of_fmap.
  apply list_elem_of_In, List.filter_In in Hp as [_ Hp].
  apply negb_true_iff, bool_decide_eq_false in Hp. done.
Qed.

Ltac same_round := simpl; intros ????; simplify_eq; eauto.

Section BaselineGuessers.
Import Baseline.

Lemma baseline_submit_cases sid code phrase hnt s :
  (setterSubmitPhrase sid code phrase hnt s).1 = s
  ∨ ∃ g r norm,
      game s = Some g ∧ state g = WaitingPhrase ∧ round g = Some r
      ∧ setterId r = Some sid
      ∧ normalizePhrase (trim phrase) = Some norm ∧ norm ≠ EmptyString
      ∧ (setterSubmitPhrase sid code phrase hnt s).1
        = withGame s (withRound g Active (Some
            {| raw := norm; masked := buildMasked norm ∅; guessedLetters := [];
               hint := slice0 120 hnt; hintShown := false;
               setterId := setterId r; winnerId := winnerId r;
               guesserOrder := Some (guessersOf (setterId r) (players s));
               turnIndex := 0 |})).
Proof.
  unfold setterSubmitPhrase.
  destruct (game s) as [g|] eqn:Hg; [|by left].
  case_bool_decide as Hst; simpl; [|by left].
  destruct (round g) as [r|] eqn:Hr; [|by left].
  case_bool_decide as Hset; simpl; [|by left].
  case_bool_decide; [by left|].
  destruct (normalizePhrase (trim phrase)) as [[|c norm]|] eqn:Hn; [by left| |by left].
  right. by exists g, r, (String c norm).
Qed.

Lemma baseline_guessedOk_step e code s : guessedOk s → guessedOk (onSession e code s).
Proof.
  unfold guessedOk. intros H.

  pose proof lettersOk_nil as Hnil.
  destruct e; simpl; try done.
  - by case_bool_decide.
  - unfold playerRename. by handler_cases.
  - unfold managerSetSettings. by handler_cases.
  - unfold managerStartGame, startWaitingForPhrase, gameForStart.
    handler_cases; try done; intros g' r' ??; simplify_eq/=; eauto.
  - unfold managerNextRound, maybeGameOver, startWaitingForPhrase.
    handler_cases; try done; intros g' r' ??; simplify_eq/=; eauto.
  - destruct (baseline_submit_cases sid code phrase hnt s)
      as [->|(g & r & norm & _ & _ & _ & _ & _ & _ & ->)]; [done|].
    intros g' r' ??; simplify_eq/=; eauto.
  - unfold setterShowHint.
    handler_cases; try done; intros g' r' ??; simplify_eq/=; eauto.
  - unfold playerGuessLetter.
    destruct (game s) as [g|] eqn:Hg; [|same_round].
    destruct (negb (bool_decide (state g = Active))); [same_round|].
    destruct (negb (bool_decide (currentTurnPlayerId s = Some sid))); [same_round|].
    destruct (round g) as [r|] eqn:Hr; [|same_round].
    destruct (letterOf letter) as [L|] eqn:HL; [|same_round].
    case_bool_decide as Hin; [same_round|].
    assert (lettersOk (guessedLetters r ++ [L])) as Hok.
    { apply lettersOk_snoc; [by eapply H|done|by eapply letterOf_upper]. }
    case_match; intros g' r' ??; simplify_eq/=; try done.
    unfold advanceTurn. by repeat case_match.
  - unfold playerSolve, advanceTurn.
    handler_cases; try done; intros g' r' ??; simplify_eq/=; eauto.
  - unfold removePlayer, dropGuesser.
    handler_cases; try done; intros g' r' ??; simplify_eq/=; eauto.
Qed.

Lemma baseline_setterApart_step e code s : setterApart s → setterApart (onSession e code s).
Proof.
  unfold setterApart. intros H.
  destruct e; simpl; try done.
  - by case_bool_decide.
  - unfold playerRename. by handler_cases.
  - unfold managerSetSettings. by handler_cases.
  - unfold managerStartGame, startWaitingForPhrase, gameForStart.
    handler_cases; try done; intros g' r' x o ????; simplify_eq/=; eauto.
  - unfold managerNextRound, maybeGameOver, startWaitingForPhrase.
    handler_cases; try done; intros g' r' x o ????; simplify_eq/=; eauto.
  - destruct (baseline_submit_cases sid code phrase hnt s)
      as [->|(g & r & norm & _ & _ & _ & _ & _ & _ & ->)]; [done|].
    intros g' r' x o ????; simplify_eq/=.
    match goal with E : setterId _ = Some _ |- _ => rewrite E end.
    apply guessersOf_apart.
  - unfold setterShowHint.
    handler_cases; try done; intros g' r' x o ????; simplify_eq/=; eauto.
  - unfold playerGuessLetter, advanceTurn.
    handler_cases; try done; intros g' r' x o ????; simplify_eq/=; eauto.
  - unfold playerSolve, advanceTurn.
    handler_cases; try done; intros g' r' x o ????; simplify_eq/=; eauto.
  - unfold removePlayer, dropGuesser.
    handler_cases; try done; intros g' r' x o ????; simplify_eq/=; eauto;
      intros Hx%removeFirst_subset; revert Hx; by eapply H.
Qed.

End BaselineGuessers.

Lemma wronglimit_letterOf_upper letter L :
  WrongLimit.letterOf letter = Some L → isUpperAZ L = true.
Proof.
  unfold WrongLimit.letterOf. destruct (toUpperCase letter) as [|c [|d r]]; try done.
  destruct (isUpperAZ c) eqn:E; [|done]. by intros [= <-].
Qed.

Lemma wronglimit_removeFirst_subset x l y : y ∈ WrongLimit.removeFirst x l → y ∈ l.
Proof.
  induction l as [|z l IH]; simpl; [done|].
  case_bool_decide; [by right|]. intros [->|?]%elem_of_cons; [by left|right; auto].
Qed.

Lemma wronglimit_guessersOf_apart x ps : x ∉ WrongLimit.guessersOf (Some x) ps.
Proof.
  unfold WrongLimit.guessersOf. intros (p & -> & Hp)%list_elem_of_fmap.
  apply list_elem_of_In, List.filter_In in Hp as [_ Hp].
  apply negb_true_iff, bool_decide_eq_false in Hp. done.
Qed.

Section WrongLimitGuessers.
Import WrongLimit.

Lemma wronglimit_submit_cases sid code phrase hnt s :
  (setterSubmitPhrase sid code phrase hnt s).1 = s
  ∨ ∃ g r,
      game s = Some g ∧ state g = WaitingPhrase ∧ round g = Some r
      ∧ setterId r = Some sid
      ∧ minLen (settings s) ≤ len (trim phrase) ≤ maxLen (settings s)
      ∧ (setterSubmitPhrase sid code phrase hnt s).1
        = withGame s (withRound g Active (Some
            {| raw := toUpperCase (trim phrase);
               masked := buildMasked (toUpperCase (trim phrase)) ∅;
               guessedLetters := [];
               hint := slice0 120 hnt; hintShown := false;
               setterId := setterId r; winnerId := winnerId r; wrongCount := 0;
               guesserOrder := guessersOf (setterId r) (players s);
               turnIndex := 0 |})).
Proof.
  unfold setterSubmitPhrase.
  destruct (game s) as [g|] eqn:Hg; [|by left].
  case_bool_decide as Hst; simpl; [|by left].
  destruct (round g) as [r|] eqn:Hr; [|by left].
  case_bool_decide as Hset; simpl; [|by left].
  case_bool_decide as Hlen; [by left|].
  right. exists g, r. split_and!; try done; lia.
Qed.

Lemma wronglimit_roundPresent_step e code s :
  roundPresent s → roundPresent (onSession e code s).
Proof.
  unfold roundPresent. intros H.
  destruct e; simpl; try done.
  - unfold playerRename. by handler_cases.
  - unfold managerSetSettings. by handler_cases.
  - unfold managerStartGame, startWaitingForPhrase, gameForStart.
    handler_cases; try done; intros g' ?; simplify_eq/=; try done; eauto.
  - unfold managerNextRound, maybeGameOver, startWaitingForPhrase.
    handler_cases; try done; intros g' ?; simplify_eq/=; try done; eauto.
  - destruct (wronglimit_submit_cases sid code phrase hnt s)
      as [->|(g & r & _ & _ & _ & _ & _ & ->)]; [done|].
    intros g' ?; simplify_eq/=; eauto.
  - unfold setterShowHint.
    handler_cases; try done; intros g' ?; simplify_eq/=; try done; eauto.
  - unfold playerGuessLetter, wrongGuess, finishRoundWithSetterWin.
    handler_cases; try done; intros g' ?; simplify_eq/=; try done; eauto.
  - unfold playerSolve, wrongGuess, finishRoundWithSetterWin.
    handler_cases; try done; intros g' ?; simplify_eq/=; try done; eauto.
  - unfold removePlayer, dropGuesser, finishRoundWithSetterWin.
    handler_cases; try done; intros g' ?; simplify_eq/=; try done; eauto.
Qed.

Lemma wronglimit_guessedOk_step e code s : guessedOk s → guessedOk (onSession e code s).
Proof.
  unfold guessedOk. intros H.
  pose proof lettersOk_nil as Hnil.
  destruct e; simpl; try done.
  - unfold playerRename. by handler_cases.
  - unfold managerSetSettings. by handler_cases.
  - unfold managerStartGame, startWaitingForPhrase, gameForStart.
    handler_cases; try done; intros g' r' ??; simplify_eq/=; eauto.
  - unfold managerNextRound, maybeGameOver, startWaitingForPhrase.
    handler_cases; try done; intros g' r' ??; simplify_eq/=; eauto.
  - destruct (wronglimit_submit_cases sid code phrase hnt s)
      as [->|(g & r & _ & _ & _ & _ & _ & ->)]; [done|].
    intros g' r' ??; simplify_eq/=; eauto.
  - unfold setterShowHint.
    handler_cases; try done; intros g' r' ??; simplify_eq/=; eauto.
  - unfold playerGuessLetter.
    destruct (game s) as [g|] eqn:Hg; [|same_round].
    destruct (negb (bool_decide (state g = Active))); [same_round|].
    destruct (negb (bool_decide (currentTurnPlayerId s = Some sid))); [same_round|].
    destruct (round g) as [r|] eqn:Hr; [|same_round].
    destruct (letterOf letter) as [L|] eqn:HL; [|same_round].
    case_bool_decide as Hin; [same_round|].
    assert (lettersOk (guessedLetters r ++ [L])) as Hok.
    { apply lettersOk_snoc; [by eapply H|done|by eapply wronglimit_letterOf_upper]. }
    unfold wrongGuess, finishRoundWithSetterWin, advanceTurn, withTurn.
    repeat case_match; intros g' r' ??; simplify_eq/=; try done.
  - unfold playerSolve, wrongGuess, finishRoundWithSetterWin, advanceTurn, withTurn.
    handler_cases; try done; intros g' r' ??; simplify_eq/=; eauto.
  - unfold removePlayer, dropGuesser, finishRoundWithSetterWin.
    handler_cases; try done; intros g' r' ??; simplify_eq/=; eauto.
Qed.

Lemma wronglimit_setterApart_step e code s : setterApart s → setterApart (onSession e code s).
Proof.
  unfold setterApart. intros H.
  destruct e; simpl; try done.
  - unfold playerRename. by handler_cases.
  - unfold managerSetSettings. by handler_cases.
  - unfold managerStartGame, startWaitingForPhrase, gameForStart.
    handler_cases; try done; intros g' r' x ???; simplify_eq/=; eauto;
      by intros ?%elem_of_nil.
  - unfold managerNextRound, maybeGameOver, startWaitingForPhrase.
    handler_cases; try done; intros g' r' x ???; simplify_eq/=; eauto;
      by intros ?%elem_of_nil.
  - destruct (wronglimit_submit_cases sid code phrase hnt s)
      as [->|(g & r & _ & _ & _ & _ & _ & ->)]; [done|].
    intros g' r' x ???; simplify_eq/=.
    match goal with E : setterId _ = Some _ |- _ => rewrite E end.
    apply wronglimit_guessersOf_apart.
  - unfold setterShowHint.
    handler_cases; try done; intros g' r' x ???; simplify_eq/=; eauto.
  - unfold playerGuessLetter, wrongGuess, finishRoundWithSetterWin, advanceTurn, withTurn.
    handler_cases; try done; intros g' r' x ???; simplify_eq/=; eauto;
      match goal with E : guesserOrder _ = _ |- _ => rewrite <- E end; by eapply H.
  - unfold playerSolve, wrongGuess, finishRoundWithSetterWin, advanceTurn, withTurn.
    handler_cases; try done; intros g' r' x ???; simplify_eq/=; eauto;
      match goal with E : guesserOrder _ = _ |- _ => rewrite <- E end; by eapply H.
  - unfold removePlayer, dropGuesser, finishRoundWithSetterWin.
    handler_cases; try done; intros g' r' x ???; simplify_eq/=; eauto;
      intros Hx%wronglimit_removeFirst_subset; revert Hx; by eapply H.
Qed.

End WrongLimitGuessers.

Lemma lettersOk_length l : lettersOk l → (length l ≤ 26)%nat.
Proof.
  intros [Hn Hf].
  assert (l ⊆+ String.list_ascii_of_string "ABCDEFGHIJKLMNOPQRSTUVWXYZ") as Hs.
  { apply NoDup_submseteq; [done|]. intros c Hc.
    rewrite Forall_forall in Hf. specialize (Hf c Hc).
    rewrite <- fullAlphabet_spec in Hf. apply bool_decide_eq_true in Hf.
    unfold fullAlphabet in Hf. by apply elem_of_list_to_set in Hf. }
  apply submseteq_length in Hs. simpl in Hs. lia.
Qed.

Section RoundInvariants.

Lemma baseline_round_invariants srv :
  Baseline.reachable srv →
  ∀ code s, Baseline.sessions srv !! code = Some s →
    Baseline.roundPresent s ∧ Baseline.guessedOk s ∧ Baseline.setterApart s.
Proof.
  apply (baseline_invariant
           (λ s, Baseline.roundPresent s ∧ Baseline.guessedOk s ∧ Baseline.setterApart s)).
  - intros atv now. split_and!; by intros g.
  - intros e code s (H1 & H2 & H3). split_and!.
    + by apply baseline_roundPresent_step.
    + by apply baseline_guessedOk_step.
    + by apply baseline_setterApart_step.
Qed.

Lemma wronglimit_round_invariants srv :
  WrongLimit.reachable srv →
  ∀ code s, WrongLimit.sessions srv !! code = Some s →
    WrongLimit.roundPresent s ∧ WrongLimit.guessedOk s ∧ WrongLimit.setterApart s.
Proof.
  apply (wronglimit_invariant
           (λ s, WrongLimit.roundPresent s ∧ WrongLimit.guessedOk s
                 ∧ WrongLimit.setterApart s)).
  - intros atv now. split_and!; by intros g.
  - intros e code s (H1 & H2 & H3). split_and!.
    + by apply wronglimit_roundPresent_step.
    + by apply wronglimit_guessedOk_step.
    + by apply wronglimit_setterApart_step.
Qed.

Lemma baseline_turn_in_order s x :
  Baseline.currentTurnPlayerId s = Some x →
  ∃ g r order, Baseline.game s = Some g ∧ Baseline.round g = Some r
               ∧ Baseline.guesserOrder r = Some order ∧ x ∈ order.
Proof.
  unfold Baseline.currentTurnPlayerId.
  destruct (Baseline.game s) as [g|] eqn:Hg; [|done].
  destruct (Baseline.round g) as [r|] eqn:Hr; [|done].
  destruct (Baseline.guesserOrder r) as [[|y order]|] eqn:Ho; [done| |done].
  intros Hx%list_elem_of_lookup_2. by exists g, r, (y :: order).
Qed.

Lemma wronglimit_turn_in_order s x :
  WrongLimit.currentTurnPlayerId s = Some x →
  ∃ g r, WrongLimit.game s = Some g ∧ WrongLimit.round g = Some r
         ∧ x ∈ WrongLimit.guesserOrder r.
Proof.
  unfold WrongLimit.currentTurnPlayerId.
  destruct (WrongLimit.game s) as [g|] eqn:Hg; [|done].
  destruct (WrongLimit.round g) as [r|] eqn:Hr; [|done].
  destruct (WrongLimit.guesserOrder r) as [|y order] eqn:Ho; [done|].
  intros Hx%list_elem_of_lookup_2. exists g, r. by rewrite Ho.
Qed.

End RoundInvariants.

(** X2.  In every round of a reachable server the guessed letters are
    distinct capital letters A-Z, so that a round records at most 26 of
    them; [player:guessLetter] with a letter that is already recorded
    changes nothing and emits nothing (the turn is kept). *)
Theorem guessed_letters_distinct_capitals :
  (∀ srv code s g r,
     Baseline.reachable srv → Baseline.sessions srv !! code = Some s →
     Baseline.game s = Some g → Baseline.round g = Some r →
     lettersOk (Baseline.guessedLetters r)
     ∧ (length (Baseline.guessedLetters r) ≤ 26)%nat
     ∧ ∀ sid letter L,
         Baseline.letterOf letter = Some L → L ∈ Baseline.guessedLetters r →
         Baseline.playerGuessLetter sid code letter s = (s, []))
  ∧ (∀ srv code s g r,
       WrongLimit.reachable srv → WrongLimit.sessions srv !! code = Some s →
       WrongLimit.game s = Some g → WrongLimit.round g = Some r →
       lettersOk (WrongLimit.guessedLetters r)
       ∧ (length (WrongLimit.guessedLetters r) ≤ 26)%nat
       ∧ ∀ sid letter L,
           WrongLimit.letterOf letter = Some L → L ∈ WrongLimit.guessedLetters r →
           WrongLimit.playerGuessLetter sid code letter s = (s, [])).
Proof.
  split.
  - intros srv code s g r Hr Hs Hg Hround.
    destruct (baseline_round_invariants srv Hr code s Hs) as (_ & Hok & _).
    specialize (Hok g r Hg Hround). split; [done|].
    split; [by apply lettersOk_length|].
    intros sid letter L HL Hin. unfold Baseline.playerGuessLetter.
    rewrite Hg, Hround, HL. rewrite (bool_decide_true _ Hin).
    by repeat case_match.
  - intros srv code s g r Hr Hs Hg Hround.
    destruct (wronglimit_round_invariants srv Hr code s Hs) as (_ & Hok & _).
    specialize (Hok g r Hg Hround). split; [done|].
    split; [by apply lettersOk_length|].
    intros sid letter L HL Hin. unfold WrongLimit.playerGuessLetter.
    rewrite Hg, Hround, HL. rewrite (bool_decide_true _ Hin).
    by repeat case_match.
Qed.

Lemma guessed_letters_distinct_capitals_witness :
  ∃ s g r,
    Baseline.sessions (Baseline.serverAfter Baseline.allButD) !! "ABCD" = Some s
    ∧ Baseline.game s = Some g ∧ Baseline.round g = Some r
    ∧ Baseline.guessedLetters r = ["O"; "H"; "E"; "L"; "W"; "R"]%char
    ∧ lettersOk (Baseline.guessedLetters r)
    ∧ Baseline.playerGuessLetter "bob" "ABCD" "o" s = (s, []).
Proof.
  eexists _, _, _. split; [vm_compute; reflexivity|].
  split; [reflexivity|]. split; [reflexivity|]. split; [reflexivity|].
  lazymatch goal with
  | |- lettersOk (Baseline.guessedLetters ?r) ∧ Baseline.playerGuessLetter _ _ _ ?s = _ =>
      destruct (proj1 guessed_letters_distinct_capitals
                  (Baseline.serverAfter Baseline.allButD) "ABCD" s _ r
                  (baseline_serverAfter_reachable _) eq_refl eq_refl eq_refl)
        as (H1 & _ & H3)
  end.
  split; [exact H1|].
  apply (H3 "bob" "o" "O"%char); [reflexivity|].
  apply list_elem_of_In. simpl. tauto.
Defined.

Section WrongLimitTotal.
Import WrongLimit.



End WrongLimitTotal.

Section BaselineTotal.
Import Baseline.



End BaselineTotal.



(** X3.  In every reachable state the setter of the round is not in its
    guesser order, so the setter never holds the turn: [player:guessLetter]
    and [player:solve] from the setter's socket leave the server unchanged
    and emit nothing. *)
Theorem setter_never_guesses :
  (∀ srv code s g r sid,
     Baseline.reachable srv →
     Baseline.sockCode srv !! sid = Some code →
     Baseline.sessions srv !! code = Some s →
     Baseline.game s = Some g → Baseline.round g = Some r →
     Baseline.setterId r = Some sid →
     Baseline.currentTurnPlayerId s ≠ Some sid
     ∧ (∀ letter, Baseline.handle srv (Baseline.PlayerGuessLetter sid letter)
                  = Some (srv, []))
     ∧ (∀ guess, Baseline.handle srv (Baseline.PlayerSolve sid guess)
                 = Some (srv, [])))
  ∧ (∀ srv code s g r sid,
       WrongLimit.reachable srv →
       WrongLimit.sockCode srv !! sid = Some code →
       WrongLimit.sessions srv !! code = Some s →
       WrongLimit.game s = Some g → WrongLimit.round g = Some r →
       WrongLimit.setterId r = Some sid →
       WrongLimit.currentTurnPlayerId s ≠ Some sid
       ∧ (∀ letter, WrongLimit.handle srv (WrongLimit.PlayerGuessLetter sid letter)
                    = Some (srv, []))
       ∧ (∀ guess, WrongLimit.handle srv (WrongLimit.PlayerSolve sid guess)
                   = Some (srv, []))).
Proof.
  split.
  - intros srv code s g r sid Hr Hsock Hs Hg Hround Hset.
    destruct (baseline_round_invariants srv Hr code s Hs) as (_ & _ & Hap).
    assert (Baseline.currentTurnPlayerId s ≠ Some sid) as Hturn.
    { intros (g' & r' & order & Hg' & Hr' & Ho & Hin)%baseline_turn_in_order.
      simplify_eq. by eapply Hap. }
    split; [done|]. split.
    + intros letter. simpl. unfold Baseline.inSession, Baseline.total.
      rewrite Hsock, Hs. unfold Baseline.playerGuessLetter. rewrite Hg.
      rewrite (bool_decide_false _ Hturn). simpl.
      destruct (negb _); by rewrite baseline_putSession_same.
    + intros guess. simpl. unfold Baseline.inSession, Baseline.total.
      rewrite Hsock, Hs. unfold Baseline.playerSolve. rewrite Hg.
      rewrite (bool_decide_false _ Hturn). simpl.
      destruct (negb _); by rewrite baseline_putSession_same.
  - intros srv code s g r sid Hr Hsock Hs Hg Hround Hset.
    destruct (wronglimit_round_invariants srv Hr code s Hs) as (_ & _ & Hap).
    assert (WrongLimit.currentTurnPlayerId s ≠ Some sid) as Hturn.
    { intros (g' & r' & Hg' & Hr' & Hin)%wronglimit_turn_in_order.
      simplify_eq. by eapply Hap. }
    split; [done|]. split.
    + intros letter. simpl. unfold WrongLimit.inSession, WrongLimit.total.
      rewrite Hsock, Hs. unfold WrongLimit.playerGuessLetter. rewrite Hg.
      rewrite (bool_decide_false _ Hturn). simpl.
      destruct (negb _); by rewrite wronglimit_putSession_same.
    + intros guess. simpl. unfold WrongLimit.inSession, WrongLimit.total.
      rewrite Hsock, Hs. unfold WrongLimit.playerSolve. rewrite Hg.
      rewrite (bool_decide_false _ Hturn). simpl.
      destruct (negb _); by rewrite wronglimit_putSession_same.
Qed.

Lemma setter_never_guesses_witness :
  Baseline.handle (Baseline.serverAfter Baseline.playing)
    (Baseline.PlayerGuessLetter "alice" "h")
  = Some (Baseline.serverAfter Baseline.playing, [])
  ∧ WrongLimit.handle (WrongLimit.serverAfter WrongLimit.playing)
      (WrongLimit.PlayerSolve "alice" "hello world")
    = Some (WrongLimit.serverAfter WrongLimit.playing, []).
Proof.
  destruct setter_never_guesses as [HB HW]. split.
  - eapply (HB _ "ABCD" _ _ _ "alice").
    + apply baseline_serverAfter_reachable.
    + vm_compute. reflexivity.
    + vm_compute. reflexivity.
    + vm_compute. reflexivity.
    + vm_compute. reflexivity.
    + vm_compute. reflexivity.
  - eapply (HW _ "ABCD" _ _ _ "alice").
    + apply wronglimit_serverAfter_reachable.
    + vm_compute. reflexivity.
    + vm_compute. reflexivity.
    + vm_compute. reflexivity.
    + vm_compute. reflexivity.
    + vm_compute. reflexivity.
Defined.

(** ** One event, one session *)

Ltac local_targets :=
  repeat first [apply Forall_nil_2 | apply Forall_cons_2; [simpl; auto|]].

Section BaselineLocal.
Import Baseline.

Lemma baseline_handler_local e code s :
  inGame e = true →
  localTo code (sender e)
    match e with
    | PlayerRename sid nm => (playerRename sid code nm s).2
    | ManagerSetSettings sid r mn mx => (managerSetSettings sid code r mn mx s).2
    | ManagerStartGame sid => (managerStartGame sid code s).2
    | ManagerNextRound sid => (managerNextRound sid code s).2
    | SetterSubmitPhrase sid phrase hnt => (setterSubmitPhrase sid code phrase hnt s).2
    | SetterShowHint sid => from_option snd [] (setterShowHint sid code s)
    | PlayerGuessLetter sid letter => (playerGuessLetter sid code letter s).2
    | PlayerSolve sid guess => (playerSolve sid code guess s).2
    | _ => []
    end.
Proof.
  unfold localTo.
  destruct e; try done; intros _; simpl.
  - unfold playerRename, emitSessionPlayers, emitGameState.
    repeat case_match; simpl; local_targets.
  - unfold managerSetSettings, emitGameState.
    repeat case_match; simpl; local_targets.
  - unfold managerStartGame, startWaitingForPhrase, emitSessionPlayers, emitGameState.
    repeat case_match; simpl; local_targets.
  - unfold managerNextRound, maybeGameOver, startWaitingForPhrase,
      emitSessionPlayers, emitGameState.
    repeat case_match; simplify_eq/=; local_targets.
  - unfold setterSubmitPhrase, emitGameState.
    destruct (game s) as [g|]; [|local_targets].
    destruct (negb _); [local_targets|].
    destruct (round g) as [r|]; [|local_targets].
    destruct (negb _); [local_targets|].
    case_bool_decide; [local_targets|].
    destruct (normalizePhrase _) as [[|c n]|]; simpl; local_targets.
  - unfold setterShowHint, emitGameState.
    repeat case_match; simplify_eq/=; local_targets.
  - unfold playerGuessLetter, emitSessionPlayers, emitGameState.
    repeat case_match; simplify_eq/=; local_targets.
  - unfold playerSolve, emitSessionPlayers, emitGameState.
    destruct (game s) as [g|]; [|local_targets].
    destruct (negb _); [local_targets|].
    destruct (negb _); [local_targets|].
    destruct (round g) as [r|]; [|local_targets].
    destruct (normalizePhrase guess) as [[|c n]|]; try local_targets.
    case_bool_decide; simpl; local_targets.
Qed.

Lemma baseline_inSession_local srv sid h srv' out :
  inSession srv sid h = Some (srv', out) →
  (∀ code s, localTo code sid (from_option snd [] (h code s))) →
  ∃ code,
    (∀ c, c ≠ code → sessions srv' !! c = sessions srv !! c)
    ∧ sockCode srv' = sockCode srv
    ∧ localTo code sid out.
Proof.
  unfold inSession. intros H Hh.
  destruct (sockCode srv !! sid) as [code|];
    [|simplify_eq; exists EmptyString; split_and!; [done..|constructor]].
  destruct (sessions srv !! code) as [s|] eqn:Hs;
    [|simplify_eq; exists EmptyString; split_and!; [done..|constructor]].
  specialize (Hh code s).
  destruct (h code s) as [[s' o]|]; [|done]. simplify_eq. simpl in *.
  exists code. split_and!; [|done..].
  intros c Hc. by rewrite lookup_insert_ne.
Qed.

End BaselineLocal.

Section BaselineIsolation.
Import Baseline.

(** X4.  One event of the baseline server concerns one session: there is a
    code such that the sessions under every other code are unchanged, only
    the [socket.data.code] of the sender may change, and every emitted
    message goes to the room of that code or to the sender's socket. *)
Theorem baseline_event_is_local srv e srv' out
    (Hh : handle srv e = Some (srv', out)) :
  ∃ code,
    (∀ c, c ≠ code → sessions srv' !! c = sessions srv !! c)
    ∧ (∀ sid, sid ≠ sender e → sockCode srv' !! sid = sockCode srv !! sid)
    ∧ Forall (λ m, m.1 = ToRoom code ∨ m.1 = ToSocket (sender e)) out.
Proof.
  assert (∀ sid h,
            inSession srv sid h = Some (srv', out) →
            (∀ code s, localTo code sid (from_option snd [] (h code s))) →
            ∃ code,
              (∀ c, c ≠ code → sessions srv' !! c = sessions srv !! c)
              ∧ (∀ sid', sid' ≠ sid → sockCode srv' !! sid' = sockCode srv !! sid')
              ∧ Forall (λ m, m.1 = ToRoom code ∨ m.1 = ToSocket sid) out) as Hin.
  { intros sid h H Hl.
    destruct (baseline_inSession_local _ _ _ _ _ H Hl) as (code & H1 & H2 & H3).
    exists code. split_and!; [done| |done]. intros sid' _. by rewrite H2. }
  destruct e as [sid now cd|sid now cd|sid now cd nm|sid now cd nm|sid nm|sid r mn mx
                |sid|sid|sid phrase hnt|sid|sid letter|sid guess|sid];
    simpl in Hh; simpl sender.
  - unfold atvCreateSession in Hh. destruct (_ && _); [|done]. simplify_eq.
    exists cd. simpl. split_and!.
    + intros c Hc. by rewrite lookup_insert_ne.
    + intros sid' Hs. by rewrite lookup_insert_ne.
    + local_targets.
  - unfold atvGetPlayers in Hh. exists (cleanCode cd).
    destruct (baseline_getSession_cases now (cleanCode cd) srv)
      as [E|[E|(s0 & Hs0 & _ & E)]]; rewrite E in Hh; simplify_eq; simpl.
    + split_and!; [done..|local_targets].
    + split_and!; [|done|local_targets]. intros c Hc. by rewrite lookup_delete_ne.
    + split_and!; [| |local_targets].
      * intros c Hc. by rewrite lookup_insert_ne.
      * intros sid' Hs. by rewrite lookup_insert_ne.
  - unfold playerJoin in Hh. exists (cleanCode cd).
    destruct (baseline_getSession_cases now (cleanCode cd) srv)
      as [E|[E|(s0 & Hs0 & _ & E)]]; rewrite E in Hh;
      try case_bool_decide; simplify_eq; simpl.
    + split_and!; [done..|local_targets].
    + split_and!; [|done|local_targets]. intros c Hc. by rewrite lookup_delete_ne.
    + split_and!; [done..|local_targets].
    + split_and!; [| |local_targets].
      * intros c Hc. by rewrite lookup_insert_ne.
      * intros sid' Hs. by rewrite lookup_insert_ne.
  - unfold playerRejoin in Hh. exists (cleanCode cd).
    destruct (baseline_getSession_cases now (cleanCode cd) srv)
      as [E|[E|(s0 & Hs0 & _ & E)]]; rewrite E in Hh; simplify_eq; simpl.
    + split_and!; [done..|local_targets].
    + split_and!; [|done|local_targets]. intros c Hc. by rewrite lookup_delete_ne.
    + split_and!; [| |local_targets].
      * intros c Hc. by rewrite lookup_insert_ne.
      * intros sid' Hs. by rewrite lookup_insert_ne.
  - apply (Hin _ _ Hh). intros code s.
    apply (baseline_handler_local (PlayerRename sid nm) code s eq_refl).
  - apply (Hin _ _ Hh). intros code s.
    apply (baseline_handler_local (ManagerSetSettings sid r mn mx) code s eq_refl).
  - apply (Hin _ _ Hh). intros code s.
    apply (baseline_handler_local (ManagerStartGame sid) code s eq_refl).
  - apply (Hin _ _ Hh). intros code s.
    apply (baseline_handler_local (ManagerNextRound sid) code s eq_refl).
  - apply (Hin _ _ Hh). intros code s.
    apply (baseline_handler_local (SetterSubmitPhrase sid phrase hnt) code s eq_refl).
  - apply (Hin _ _ Hh). intros code s.
    apply (baseline_handler_local (SetterShowHint sid) code s eq_refl).
  - apply (Hin _ _ Hh). intros code s.
    apply (baseline_handler_local (PlayerGuessLetter sid letter) code s eq_refl).
  - apply (Hin _ _ Hh). intros code s.
    apply (baseline_handler_local (PlayerSolve sid guess) code s eq_refl).
  - unfold disconnect in Hh.
    destruct (sockCode srv !! sid) as [code|] eqn:Hc.
    2:{ simplify_eq. exists EmptyString. simpl. split_and!; [done| |constructor].
        intros sid' Hs. by rewrite lookup_delete_ne. }
    exists code.
    destruct (sessions srv !! code) as [s|] eqn:Hs.
    2:{ simplify_eq. simpl. split_and!; [done| |constructor].
        intros sid' Hs'. by rewrite lookup_delete_ne. }
    repeat case_bool_decide; simplify_eq; simpl; split_and!;
      try (intros c ?; by rewrite ?lookup_insert_ne, ?lookup_delete_ne);
      local_targets.
Qed.

Lemma baseline_event_is_local_witness :
  ∃ code,
    (∀ c, c ≠ code →
       sessions (serverAfter scenarioA) !! c = sessions (serverAfter allButD) !! c)
    ∧ (∀ sid, sid ≠ "bob" →
         sockCode (serverAfter scenarioA) !! sid
         = sockCode (serverAfter allButD) !! sid)
    ∧ Forall (λ m, m.1 = ToRoom code ∨ m.1 = ToSocket "bob")
        (from_option snd [] (handle (serverAfter allButD) (PlayerGuessLetter "bob" "d"))).
Proof.
  apply (baseline_event_is_local (serverAfter allButD) (PlayerGuessLetter "bob" "d")).
  vm_compute. reflexivity.
Defined.

End BaselineIsolation.

(** ** Codes: expiry and normalisation *)

Section BaselineCodes.
Import Baseline.

(** X5.  [player:join], [player:rejoin] and [atv:getPlayers] of the baseline
    server look the session up under the trimmed, upper-cased code: the
    normalisation is idempotent, it leaves every code that [makeCode] can
    return unchanged, and an event with a code gives the same result as the
    event with the normalised code. *)
Theorem code_lookup_is_normalised :
  (∀ c, cleanCode (cleanCode c) = cleanCode c)
  ∧ (∀ c, isCode c = true → cleanCode c = c)
  ∧ (∀ srv sid now c nm,
       handle srv (PlayerJoin sid now (cleanCode c) nm)
       = handle srv (PlayerJoin sid now c nm)
       ∧ handle srv (PlayerRejoin sid now (cleanCode c) nm)
         = handle srv (PlayerRejoin sid now c nm)
       ∧ handle srv (AtvGetPlayers sid now (cleanCode c))
         = handle srv (AtvGetPlayers sid now c)).
Proof.
  split; [apply cleanCode_idemp|]. split; [apply cleanCode_isCode|].
  intros srv sid now c nm. simpl.
  unfold playerJoin, playerRejoin, atvGetPlayers.
  by rewrite !cleanCode_idemp.
Qed.

Lemma baseline_getSession_live now code srv s :
  sessions srv !! code = Some s → now - createdAt s ≤ CODE_TTL_MS →
  getSession now code srv = (Some s, srv).
Proof.
  intros Hs Hlive. unfold getSession. rewrite Hs.
  by rewrite bool_decide_false by lia.
Qed.

Lemma baseline_getSession_expired now code srv s :
  sessions srv !! code = Some s → now - createdAt s > CODE_TTL_MS →
  getSession now code srv = (None, withSessions srv (delete code (sessions srv))).
Proof.
  intros Hs Hlive. unfold getSession. rewrite Hs.
  by rewrite bool_decide_true by lia.
Qed.

(** X6.  A session older than [CODE_TTL_MS] (two hours) is deleted by the
    first lookup through [getSession]: [player:join] answers "Invalid or
    expired code.", [player:rejoin] answers nothing and [atv:getPlayers]
    answers [session:ended], each removing the session from the registry.
    From then on the events of the sockets that were in the session are
    ignored.  A session of exactly [CODE_TTL_MS] or younger is returned and
    the registry is unchanged. *)
Theorem expired_session_is_removed srv sid now typed nm s
    (Hs : sessions srv !! cleanCode typed = Some s)
    (Hold : now - createdAt s > CODE_TTL_MS) :
  let code := cleanCode typed in
  let srv' := withSessions srv (delete code (sessions srv)) in
  handle srv (PlayerJoin sid now typed nm)
  = Some (srv', [(ToSocket sid, ErrorJoin "Invalid or expired code.")])
  ∧ handle srv (PlayerRejoin sid now typed nm) = Some (srv', [])
  ∧ handle srv (AtvGetPlayers sid now typed)
    = Some (srv', [(ToSocket sid, SessionEnded)])
  ∧ sessions srv' !! code = None
  ∧ (∀ e, inGame e = true → sockCode srv !! sender e = Some code →
          handle srv' e = Some (srv', []))
  ∧ (∀ t, t - createdAt s ≤ CODE_TTL_MS → getSession t code srv = (Some s, srv)).
Proof.
  intros code srv'.
  pose proof (baseline_getSession_expired now code srv s Hs Hold) as Hget.
  split_and!.
  - simpl. unfold playerJoin. fold code. by rewrite Hget.
  - simpl. unfold playerRejoin. fold code. by rewrite Hget.
  - simpl. unfold atvGetPlayers. fold code. by rewrite Hget.
  - simpl. apply lookup_delete_eq.
  - intros e He Hsock.
    assert (∀ h, inSession srv' (sender e) h = Some (srv', [])) as Hin.
    { intros h. unfold inSession. simpl. rewrite Hsock.
      by rewrite lookup_delete_eq. }
    destruct e; try done; simpl; apply Hin.
  - intros t Ht. by apply baseline_getSession_live.
Qed.

Lemma expired_session_is_removed_witness :
  handle (serverAfter playing) (PlayerJoin "carol" 7200021 "abcd" "Carol")
  = Some (withSessions (serverAfter playing)
            (delete "ABCD" (sessions (serverAfter playing))),
          [(ToSocket "carol", ErrorJoin "Invalid or expired code.")])
  ∧ handle (withSessions (serverAfter playing)
              (delete "ABCD" (sessions (serverAfter playing))))
      (PlayerGuessLetter "bob" "e")
    = Some (withSessions (serverAfter playing)
              (delete "ABCD" (sessions (serverAfter playing))), []).
Proof.
  assert (∃ s, sessions (serverAfter playing) !! cleanCode "abcd" = Some s
               ∧ 7200021 - createdAt s > CODE_TTL_MS) as (s & Hs & Hold).
  { eexists. split; [vm_compute; reflexivity|]. vm_compute. reflexivity. }
  destruct (expired_session_is_removed (serverAfter playing) "carol" 7200021
              "abcd" "Carol" s Hs Hold) as (H1 & _ & _ & _ & H5 & _).
  split; [exact H1|].
  apply (H5 (PlayerGuessLetter "bob" "e")); [reflexivity|].
  vm_compute. reflexivity.
Defined.



End BaselineCodes.

(** ** The players list *)

Lemma Forall_updateFirst {A} (P : A → Prop) pred f l :
  (∀ x, P x → P (f x)) → Forall P l → Forall P (updateFirst pred f l).
Proof.
  intros Hf. induction 1 as [|x l Hx Hl IH]; simpl; [constructor|].
  destruct (pred x); constructor; auto.
Qed.




Section BaselinePlayers.
Import Baseline.

Lemma baseline_players_step e code s :
  ∃ k, k ∈ changes e ∧ playersStep (players s) k (players (onSession e code s)).
Proof.
  assert (∀ k, Kept ∈ Kept :: k) as Hk by (intros; left).
  assert (∀ k x : Change, x ∈ [k; x]) as Hx by (intros; right; left).
  destruct e as [sid now cd|sid now cd|sid now cd nm|sid now cd nm|sid nm|sid r mn mx
                |sid|sid|sid phrase hnt|sid|sid letter|sid guess|sid]; simpl.
  - exists Kept. split; [done|constructor].
  - exists Kept. split; [done|constructor].
  - case_bool_decide; [exists Kept; split; [done|constructor]|].
    exists Joined. split; [done|]. simpl. apply step_join. lia.
  - exists Rejoined. split; [left|].
    destruct (jsFind _ _) eqn:Hf; simpl.
    + by eapply step_rejoin_old.
    + by apply step_rejoin_new.
  - unfold playerRename.
    destruct (jsFind _ _); [|exists Kept; split; [done|constructor]].
    destruct (slice0 24 (trim nm)) as [|c r] eqn:Hn;
      [exists Kept; split; [done|constructor]|].
    exists Renamed. split; [done|]. simpl.
    apply step_rename; [done|]. rewrite <- Hn. apply slice0_length.
  - exists Kept. split; [done|].
    unfold managerSetSettings. repeat case_match; constructor.
  - exists Kept. split; [done|].
    unfold managerStartGame, startWaitingForPhrase. repeat case_match; constructor.
  - exists Kept. split; [done|].
    unfold managerNextRound, maybeGameOver, startWaitingForPhrase.
    repeat case_match; simplify_eq/=; constructor.
  - exists Kept. split; [done|].
    destruct (baseline_submit_cases sid code phrase hnt s)
      as [->|(g & r & norm & _ & _ & _ & _ & _ & _ & ->)]; constructor.
  - exists Kept. split; [done|].
    unfold setterShowHint. repeat case_match; simplify_eq/=; constructor.
  - unfold playerGuessLetter.
    repeat case_match; simplify_eq/=;
      first [exists Kept; split; [done|apply step_none]
            |exists Credited; split; [done|];
             apply step_credit; unfold solverPoints; destruct (hintShown _); lia].
  - unfold playerSolve.
    destruct (game s) as [g|]; [|exists Kept; split; [done|constructor]].
    destruct (negb _); [exists Kept; split; [done|constructor]|].
    destruct (negb _); [exists Kept; split; [done|constructor]|].
    destruct (round g) as [r|]; [|exists Kept; split; [done|constructor]].
    destruct (normalizePhrase guess) as [[|c n]|];
      try (exists Kept; split; [done|constructor]).
    case_bool_decide; simpl; [|exists Kept; split; [done|constructor]].
    exists Credited. split; [done|].
    apply step_credit. unfold solverPoints. destruct (hintShown _); lia.
  - case_bool_decide; [exists Kept; split; [done|constructor]|].
    destruct (baseline_removePlayer_players sid s) as [->|(i & p & Hp & ->)];
      [exists Kept; split; [done|constructor]|].
    exists Left. split; [done|]. by apply step_leave.
Qed.


End BaselinePlayers.

(** ** The manager is the first player *)

Lemma managerFirst_updateFirst pred f ps :
  (∀ x, isManager (f x) = isManager x) →
  managerFirst ps → managerFirst (updateFirst pred f ps).
Proof.
  intros Hf. destruct ps as [|p r]; simpl; [done|]. intros [Hp Hr].
  destruct (pred p); simpl.
  - by rewrite Hf.
  - split; [done|]. apply Forall_updateFirst; [|done].
    intros x. by rewrite Hf.
Qed.

Lemma managerFirst_snoc ps p :
  managerFirst ps → isManager p = bool_decide (length ps = 0%nat) →
  managerFirst (ps ++ [p]).
Proof.
  destruct ps as [|q r]; simpl.
  - intros _ ->. split; [done|constructor].
  - intros [Hq Hr] Hp. split; [done|].
    apply Forall_app. split; [done|]. by constructor.
Qed.

Lemma managerFirst_leave ps i p :
  managerFirst ps → ps !! i = Some p →
  managerFirst (if isManager p then promoteFirst (delete i ps) else delete i ps).
Proof.
  destruct ps as [|q r]; [done|]. intros [Hq Hr] Hi.
  destruct i as [|i]; simpl in Hi.
  - simplify_eq. rewrite Hq. simpl. destruct r as [|q' r']; simpl; [done|].
    split; [done|]. by inversion Hr.
  - rewrite Forall_forall in Hr.
    rewrite (Hr p) by (by eapply list_elem_of_lookup_2). simpl.
    split; [done|]. apply Forall_forall. intros x Hx. apply Hr.
    by eapply list_elem_of_delete_inv.
Qed.

Lemma managerFirst_credit who pts ps :
  managerFirst ps → managerFirst (credit who pts ps).
Proof. by apply managerFirst_updateFirst. Qed.



Section WrongLimitPlayers.
Import WrongLimit.

Lemma wronglimit_removePlayer_players code sid s :
  players (removePlayer code sid s).1 = players s
  ∨ ∃ i p, players s !! i = Some p
           ∧ (players (removePlayer code sid s).1
              = (if isManager p then promoteFirst (delete i (players s))
                 else delete i (players s))
              ∨ ∃ w pts, (1 ≤ pts ≤ 2)%nat
                  ∧ players (removePlayer code sid s).1
                    = credit w pts
                        (if isManager p then promoteFirst (delete i (players s))
                         else delete i (players s))).
Proof.
  unfold removePlayer.
  destruct (findIndex (hasId sid) (players s)) as [i|] eqn:Hi; [|by left].
  destruct (findIndex_Some _ _ _ Hi) as (p & Hp & _).
  right. exists i, p. split; [done|]. rewrite Hp. simpl.
  unfold dropGuesser, finishRoundWithSetterWin, creditOpt. simpl.
  destruct (game s) as [g|]; [|by left]. simpl.
  destruct (round g) as [r|]; [|by left]. simpl.
  destruct (_ && _); [|by left]. simpl.
  destruct (setterId r) as [w|]; [|by left].
  right. exists w, (setterPoints r). split; [|done].
  unfold setterPoints. simpl. destruct (hintShown r); lia.
Qed.

Lemma wronglimit_wrongGuess_players code s g r :
  players (wrongGuess code s g r).1 = players s
  ∨ ∃ w pts, (1 ≤ pts ≤ 2)%nat
             ∧ players (wrongGuess code s g r).1 = credit w pts (players s).
Proof.
  unfold wrongGuess, finishRoundWithSetterWin, creditOpt.
  destruct (_ && _); [|by left]. simpl.
  destruct (setterId r) as [w|]; [|by left].
  right. exists w. eexists. split; [|done].
  unfold setterPoints. simpl. destruct (hintShown r); lia.
Qed.

Lemma wronglimit_players_step e code s :
  ∃ k, k ∈ changes e ∧ playersStep (players s) k (players (onSession e code s)).
Proof.
  assert (∀ k, Kept ∈ Kept :: k) as Hk by (intros; left).
  assert (∀ k x : Change, x ∈ [k; x]) as Hx by (intros; right; left).
  assert (∀ l, ∃ k, k ∈ Kept :: l ∧ playersStep (players s) k (players s)) as Hkept.
  { intros l. exists Kept. split; [left|constructor]. }
  destruct e as [sid now cd|sid now cd|sid now cd nm|sid now cd nm|sid nm
                |sid r mn mx wl uw|sid|sid|sid now nc|sid phrase hnt|sid
                |sid letter|sid guess|sid]; simpl.
  - apply Hkept.
  - apply Hkept.
  - exists Joined. split; [left|]. apply step_join.
  - destruct (jsFind _ _) as [p|] eqn:Hf; simpl.
    + exists Renamed. split; [done|]. by apply step_rejoin_old.
    + exists Joined. split; [left|]. apply step_join.
  - unfold playerRename.
    destruct (slice0 24 (trim nm)) as [|c r] eqn:Hn; [apply Hkept|].
    destruct (jsFind _ _); [|apply Hkept].
    exists Renamed. split; [done|]. simpl.
    apply step_rename; [done|]. rewrite <- Hn. apply slice0_length.
  - unfold managerSetSettings. repeat case_match; apply Hkept.
  - unfold managerStartGame, startWaitingForPhrase. repeat case_match; apply Hkept.
  - unfold managerNextRound, maybeGameOver, startWaitingForPhrase.
    repeat case_match; simplify_eq/=; apply Hkept.
  - exists Ended. split; [left|constructor].
  - destruct (wronglimit_submit_cases sid code phrase hnt s)
      as [->|(g & r & _ & _ & _ & _ & _ & ->)]; apply Hkept.
  - unfold setterShowHint. repeat case_match; simplify_eq/=; apply Hkept.
  - unfold playerGuessLetter.
    destruct (game s) as [g|]; [|apply Hkept].
    destruct (negb _); [apply Hkept|]. destruct (negb _); [apply Hkept|].
    destruct (round g) as [r|]; [|apply Hkept].
    destruct (letterOf letter) as [L|]; [|apply Hkept].
    case_bool_decide; [apply Hkept|].
    destruct (includes (raw r) L).
    + destruct (negb _); simpl; [|apply Hkept].
      exists Credited. split; [done|].
      apply step_credit. unfold solverPoints. destruct (hintShown _); lia.
    + match goal with |- context [wrongGuess ?c ?s ?g ?r] =>
        destruct (wronglimit_wrongGuess_players c s g r)
          as [->|(w & pts & Hp & ->)] end; [apply Hkept|].
      exists Credited. split; [done|]. by apply step_credit.
  - unfold playerSolve.
    destruct (game s) as [g|]; [|apply Hkept].
    destruct (negb _); [apply Hkept|]. destruct (negb _); [apply Hkept|].
    destruct (round g) as [r|]; [|apply Hkept].
    destruct (normalizePhrase guess) as [[|c n]|]; try apply Hkept.
    case_bool_decide; simpl.
    + exists Credited. split; [done|].
      apply step_credit. unfold solverPoints. destruct (hintShown _); lia.
    + destruct (wronglimit_wrongGuess_players code s g r)
        as [->|(w & pts & Hp & ->)]; [apply Hkept|].
      exists Credited. split; [done|]. by apply step_credit.
  - destruct (wronglimit_removePlayer_players code sid s)
      as [->|(i & p & Hp & [->|(w & pts & Hpts & ->)])]; [apply Hkept| |].
    + exists Left. split; [done|]. by apply step_leave.
    + exists Left. split; [done|]. by apply step_leave_credit.
Qed.


Lemma wronglimit_managerFirst_change ps k ps' :
  playersStep ps k ps' → managerFirst ps → managerFirst ps'.
Proof.
  intros Hstep H.
  destruct Hstep as [|sid nm|sid nm p Hf|sid nn Hn Hl
                    |sid pts Hp|i p Hi|i p sid pts Hi Hp|]; try done.
  - by apply managerFirst_snoc.
  - by apply managerFirst_updateFirst.
  - by apply managerFirst_updateFirst.
  - by apply managerFirst_credit.
  - by apply managerFirst_leave.
  - by apply managerFirst_credit, managerFirst_leave.
Qed.

End WrongLimitPlayers.

Lemma managerFirst_one ps : managerFirst ps → oneManager ps.
Proof.
  destruct ps as [|p r]; [by intros _ ?|]. intros [Hp Hr] _.
  unfold managers. simpl. rewrite Hp. simpl. f_equal.
  induction Hr as [|q r Hq Hr IH]; simpl; [done|]. by rewrite Hq.
Qed.

Lemma managerFirst_snoc_other ps p :
  managerFirst ps → ps ≠ [] → isManager p = false → managerFirst (ps ++ [p]).
Proof.
  destruct ps as [|q r]; [done|]. simpl. intros [Hq Hr] _ Hp.
  split; [done|]. apply Forall_app. split; [done|]. by constructor.
Qed.

Lemma updateFirst_lookup {A} pred (f : A → A) l i x :
  l !! i = Some x →
  updateFirst pred f l !! i = Some x ∨ updateFirst pred f l !! i = Some (f x).
Proof.
  revert i. induction l as [|y l IH]; intros [|i]; simpl; try done.
  - intros [= ->]. destruct (pred x); simpl; auto.
  - intros H. destruct (pred y); simpl; auto.
Qed.

Section BaselineScores.
Import Baseline.

Lemma baseline_managerFirst_any ps k ps' :
  playersStep ps k ps' → k ≠ Rejoined ∨ ps ≠ [] →
  managerFirst ps → managerFirst ps'.
Proof.
  intros Hstep Hk H.
  destruct Hstep as [|sid nm Hlen|sid nm Hf|sid nm p Hf|sid nn Hn Hl
                    |sid pts Hp|i p Hi]; try done.
  - by apply managerFirst_snoc.
  - destruct Hk as [|Hne]; [done|]. by apply managerFirst_snoc_other.
  - by apply managerFirst_updateFirst.
  - by apply managerFirst_updateFirst.
  - by apply managerFirst_credit.
  - by apply managerFirst_leave.
Qed.

Lemma baseline_changes_rejoin e : Rejoined ∈ changes e → isRejoin e = true.
Proof.
  destruct e; try done; simpl; intros Hin;
    repeat (apply elem_of_cons in Hin as [?|Hin]; [done|]);
    by apply elem_of_nil in Hin.
Qed.

Lemma baseline_managerFirst_event e code s :
  (isRejoin e = true → players s ≠ []) →
  managerFirst (players s) → managerFirst (players (onSession e code s)).
Proof.
  intros Hrj H.
  destruct (baseline_players_step e code s) as (k & Hin & Hk).
  apply (baseline_managerFirst_any (players s) k); [done| |done].
  destruct k; try (by left). right.
  by apply Hrj, baseline_changes_rejoin.
Qed.

Lemma baseline_invariant_on (P : Event → Prop) (Inv : Session → Prop) :
  (∀ atv now, Inv (newSession atv now)) →
  (∀ e code s, P e → Inv s → Inv (onSession e code s)) →
  ∀ es srv, Forall P es →
    (∀ code s, sessions srv !! code = Some s → Inv s) →
    ∀ code s, sessions (from_option fst srv (run srv es)) !! code = Some s → Inv s.
Proof.
  intros Hnew Hstep es. induction es as [|e es IH]; intros srv HP Hsrv; [done|].
  apply Forall_cons in HP as [He HP]. simpl.
  destruct (handle srv e) as [[srv1 out1]|] eqn:Hh; [|done].
  assert (∀ code s, sessions srv1 !! code = Some s → Inv s) as H1.
  { intros code s' Hs'. destruct (sessions srv !! code) as [s|] eqn:Hs.
    - destruct (baseline_handle_old _ _ _ _ _ _ _ Hh Hs Hs') as [->| ->]; eauto.
    - destruct (baseline_handle_new _ _ _ _ _ _ Hh Hs Hs') as (atv & now & ->); eauto. }
  specialize (IH srv1 HP H1).
  by destruct (run srv1 es) as [[srv2 out2]|].
Qed.

Lemma baseline_scores_change ps k ps' :
  playersStep ps k ps' → k ≠ Left →
  ∀ i p, ps !! i = Some p →
    ∃ p', ps' !! i = Some p' ∧ (score p ≤ score p' ≤ score p + 2)%nat.
Proof.
  intros Hstep Hk i p Hi.
  destruct Hstep as [|sid nm Hlen|sid nm Hf|sid nm q Hf|sid nn Hn Hl
                    |sid pts Hp|j q Hj]; try done.
  - exists p. split; [done|lia].
  - exists p. split; [by apply lookup_app_l_Some|lia].
  - exists p. split; [by apply lookup_app_l_Some|lia].
  - destruct (updateFirst_lookup (hasName (safeName nm)) (setId sid) _ _ _ Hi)
      as [->| ->]; eexists; (split; [done|simpl; lia]).
  - destruct (updateFirst_lookup (hasId sid) (setName nn) _ _ _ Hi)
      as [->| ->]; eexists; (split; [done|simpl; lia]).
  - unfold credit.
    destruct (updateFirst_lookup (hasId sid) (addScore pts) _ _ _ Hi)
      as [->| ->]; eexists; (split; [done|simpl; lia]).
Qed.

End BaselineScores.

Section WrongLimitScores.
Import WrongLimit.

Lemma wronglimit_scores_change ps k ps' :
  playersStep ps k ps' → k ≠ Left → k ≠ Ended →
  ∀ i p, ps !! i = Some p →
    ∃ p', ps' !! i = Some p' ∧ (score p ≤ score p' ≤ score p + 2)%nat.
Proof.
  intros Hstep Hk Hk' i p Hi.
  destruct Hstep as [|sid nm|sid nm q Hf|sid nn Hn Hl
                    |sid pts Hp|j q Hj|j q sid pts Hj Hp|]; try done.
  - exists p. split; [done|lia].
  - exists p. split; [by apply lookup_app_l_Some|lia].
  - destruct (updateFirst_lookup (hasId sid)
                (setName (slice0 16 (orElse nm (name q)))) _ _ _ Hi)
      as [->| ->]; eexists; (split; [done|simpl; lia]).
  - destruct (updateFirst_lookup (hasId sid) (setName nn) _ _ _ Hi)
      as [->| ->]; eexists; (split; [done|simpl; lia]).
  - unfold credit.
    destruct (updateFirst_lookup (hasId sid) (addScore pts) _ _ _ Hi)
      as [->| ->]; eexists; (split; [done|simpl; lia]).
Qed.

End WrongLimitScores.



(** X9.  The manager is the first player of the list, and the only one.  In
    the baseline server every event keeps this, except a [player:rejoin] that
    reaches a session without players; so it holds after every sequence of
    events without [player:rejoin].  In the wrong-limit server, whose
    [player:rejoin] makes the player of an empty session the manager, it
    holds in every reachable state. *)
Theorem manager_is_first_player :
  (∀ srv e srv' out code s s',
     Baseline.handle srv e = Some (srv', out) →
     Baseline.sessions srv !! code = Some s →
     Baseline.sessions srv' !! code = Some s' →
     (Baseline.isRejoin e = true → Baseline.players s ≠ []) →
     managerFirst (Baseline.players s) → managerFirst (Baseline.players s'))
  ∧ (∀ es code s,
       Forall (λ e, Baseline.isRejoin e = false) es →
       Baseline.sessions (Baseline.serverAfter es) !! code = Some s →
       managerFirst (Baseline.players s) ∧ oneManager (Baseline.players s))
  ∧ (∀ srv code s,
       WrongLimit.reachable srv → WrongLimit.sessions srv !! code = Some s →
       managerFirst (WrongLimit.players s) ∧ oneManager (WrongLimit.players s)).
Proof.
  split_and!.
  - intros srv e srv' out code s s' Hh Hs Hs' Hrj H.
    destruct (baseline_handle_old _ _ _ _ _ _ _ Hh Hs Hs') as [->| ->]; [done|].
    by apply baseline_managerFirst_event.
  - intros es code s Hes Hs.
    assert (managerFirst (Baseline.players s)) as H; [|by split; [|apply managerFirst_one]].
    revert code s Hs. unfold Baseline.serverAfter.
    apply (baseline_invariant_on (λ e, Baseline.isRejoin e = false)
             (λ s, managerFirst (Baseline.players s))); [done| |done|].
    + intros e code s He. apply baseline_managerFirst_event. by rewrite He.
    + intros code s Hs. simpl in Hs. by rewrite lookup_empty in Hs.
  - intros srv code s Hr Hs.
    assert (managerFirst (WrongLimit.players s)) as H; [|by split; [|apply managerFirst_one]].
    revert code s Hs.
    apply (wronglimit_invariant (λ s, managerFirst (WrongLimit.players s))); [done| |done].
    intros e code s.
    destruct (wronglimit_players_step e code s) as (k & _ & Hk).
    by apply (wronglimit_managerFirst_change (WrongLimit.players s) k).
Qed.

Lemma manager_is_first_player_witness :
  ∃ s, Baseline.sessions (Baseline.serverAfter Baseline.scenarioD) !! "ABCD" = Some s
       ∧ (name <$> Baseline.players s) = ["Bob"; "Carol"]
       ∧ managerFirst (Baseline.players s) ∧ oneManager (Baseline.players s).
Proof.
  eexists. split; [vm_compute; reflexivity|]. split; [reflexivity|].
  apply (proj1 (proj2 manager_is_first_player) Baseline.scenarioD "ABCD").
  - repeat constructor.
  - vm_compute. reflexivity.
Defined.

(** X10.  No event takes points away: an event other than [disconnect] (and
    [manager:endGame]) keeps every player at its position in the list, with
    a score that is the same or higher by at most 2. *)
Theorem scores_never_decrease :
  (∀ srv e srv' out code s s' i p,
     Baseline.handle srv e = Some (srv', out) →
     (∀ sid, e ≠ Baseline.Disconnect sid) →
     Baseline.sessions srv !! code = Some s →
     Baseline.sessions srv' !! code = Some s' →
     Baseline.players s !! i = Some p →
     ∃ p', Baseline.players s' !! i = Some p'
           ∧ (score p ≤ score p' ≤ score p + 2)%nat)
  ∧ (∀ srv e srv' out code s s' i p,
       WrongLimit.handle srv e = Some (srv', out) →
       (∀ sid, e ≠ WrongLimit.Disconnect sid) →
       (∀ sid now nc, e ≠ WrongLimit.ManagerEndGame sid now nc) →
       WrongLimit.sessions srv !! code = Some s →
       WrongLimit.sessions srv' !! code = Some s' →
       WrongLimit.players s !! i = Some p →
       ∃ p', WrongLimit.players s' !! i = Some p'
             ∧ (score p ≤ score p' ≤ score p + 2)%nat).
Proof.
  split.
  - intros srv e srv' out code s s' i p Hh He Hs Hs' Hi.
    destruct (baseline_handle_old _ _ _ _ _ _ _ Hh Hs Hs') as [->| ->].
    { exists p. split; [done|lia]. }
    destruct (baseline_players_step e code s) as (k & Hin & Hk).
    apply (baseline_scores_change (Baseline.players s) k); [done| |done].
    intros ->. destruct e; simpl in Hin;
      repeat (apply elem_of_cons in Hin as [?|Hin]; [done|]);
      try (by apply elem_of_nil in Hin).
    by eapply He.
  - intros srv e srv' out code s s' i p Hh He He' Hs Hs' Hi.
    destruct (wronglimit_handle_old _ _ _ _ _ _ _ Hh Hs Hs') as [->| ->].
    { exists p. split; [done|lia]. }
    destruct (wronglimit_players_step e code s) as (k & Hin & Hk).
    apply (wronglimit_scores_change (WrongLimit.players s) k); [done| | |done].
    + intros ->. destruct e; simpl in Hin;
        repeat (apply elem_of_cons in Hin as [?|Hin]; [done|]);
        try (by apply elem_of_nil in Hin).
      by eapply He.
    + intros ->. destruct e; simpl in Hin;
        repeat (apply elem_of_cons in Hin as [?|Hin]; [done|]);
        try (by apply elem_of_nil in Hin).
      by eapply He'.
Qed.

Lemma scores_never_decrease_witness :
  ∃ s s' p',
    Baseline.sessions (Baseline.serverAfter Baseline.allButD) !! "ABCD" = Some s
    ∧ Baseline.sessions (Baseline.serverAfter Baseline.scenarioA) !! "ABCD" = Some s'
    ∧ Baseline.players s !! 1%nat = Some (mkPlayer "bob" "Bob" false 0)
    ∧ Baseline.players s' !! 1%nat = Some p'
    ∧ (0 ≤ score p' ≤ 0 + 2)%nat.
Proof.
  assert (Baseline.handle (Baseline.serverAfter Baseline.allButD)
            (Baseline.PlayerGuessLetter "bob" "d")
          = Some (Baseline.serverAfter Baseline.scenarioA,
                  from_option snd []
                    (Baseline.handle (Baseline.serverAfter Baseline.allButD)
                       (Baseline.PlayerGuessLetter "bob" "d")))) as Hh.
  { vm_compute. reflexivity. }
  assert (∃ s, Baseline.sessions (Baseline.serverAfter Baseline.allButD) !! "ABCD"
               = Some s
               ∧ Baseline.players s !! 1%nat = Some (mkPlayer "bob" "Bob" false 0))
    as (s & Hs & Hp).
  { eexists. split; [vm_compute; reflexivity|]. reflexivity. }
  assert (∃ s', Baseline.sessions (Baseline.serverAfter Baseline.scenarioA) !! "ABCD"
                = Some s') as (s' & Hs').
  { eexists. vm_compute. reflexivity. }
  destruct (proj1 scores_never_decrease _ _ _ _ "ABCD" s s' 1%nat _ Hh
              ltac:(intros sid; discriminate) Hs Hs' Hp) as (p' & Hp' & Hle).
  exists s, s', p'.
  split; [exact Hs|]. split; [exact Hs'|]. split; [exact Hp|].
  split; [exact Hp'|exact Hle].
Defined.

(** ** Joining, leaving and coming back *)

Lemma findIndex_app_fresh {A} (pred : A → bool) l x :
  Forall (λ y, pred y = false) l → pred x = true →
  findIndex pred (l ++ [x]) = Some (length l).
Proof.
  intros Hl Hx. induction Hl as [|y l Hy Hl IH]; simpl.
  - by rewrite Hx.
  - by rewrite Hy, IH.
Qed.

Lemma delete_app_last {A} (l : list A) x : delete (length l) (l ++ [x]) = l.
Proof. induction l as [|y l IH]; simpl; [done|]. by rewrite IH. Qed.

Lemma lookup_app_last {A} (l : list A) x : (l ++ [x]) !! length l = Some x.
Proof. induction l as [|y l IH]; simpl; done. Qed.

Lemma baseline_removeFirst_fresh x l : x ∉ l → Baseline.removeFirst x l = l.
Proof.
  induction l as [|y l IH]; simpl; [done|].
  intros [Hy Hl]%not_elem_of_cons. rewrite bool_decide_false by done.
  by rewrite IH.
Qed.

Section BaselineComings.
Import Baseline.

(** X11.  A phone that joins a live baseline session and disconnects again
    leaves the registry as it was: the session is the same as before the
    join, provided the socket id is new to the session (not the display's,
    not a player's, not in the guesser order) and the round, if active,
    has a guesser.  The disconnect emits [session:players] and
    [game:state] of the restored session. *)
Theorem join_then_disconnect_restores srv sid now typed nm s
    (Hs : sessions srv !! cleanCode typed = Some s)
    (Hlive : now - createdAt s ≤ CODE_TTL_MS)
    (Hroom : (length (players s) < 10)%nat)
    (Hatv : atvSocketId s ≠ Some sid)
    (Hfresh : Forall (λ p, id p ≠ sid) (players s))
    (Hround : ∀ g r order,
       game s = Some g → round g = Some r → guesserOrder r = Some order →
       (sid ∉ order) ∧ (state g = Active → order ≠ [])) :
  ∃ srv1 out1 srv2 out2,
    handle srv (PlayerJoin sid now typed nm) = Some (srv1, out1)
    ∧ handle srv1 (Disconnect sid) = Some (srv2, out2)
    ∧ sessions srv2 = sessions srv
    ∧ sockCode srv2 !! sid = None
    ∧ out2 = emitSessionPlayers (cleanCode typed) s
             ++ emitGameState (cleanCode typed) s.
Proof.
  set (code := cleanCode typed) in *.
  set (p := mkPlayer sid (safeName nm) (bool_decide (length (players s) = 0%nat)) 0).
  set (s1 := withPlayers s (players s ++ [p])).
  assert (handle srv (PlayerJoin sid now typed nm)
          = Some (bind (putSession srv code s1) sid code,
                  (ToSocket sid, PlayerJoined code (isManager p))
                    :: emitSessionPlayers code s1 ++ emitGameState code s1)) as H1.
  { simpl. unfold playerJoin. fold code.
    rewrite (baseline_getSession_live now code srv s Hs Hlive).
    by rewrite bool_decide_false by lia. }
  assert (removePlayer sid s1 = s) as Hrem.
  { unfold removePlayer, s1. simpl.
    rewrite (findIndex_app_fresh (hasId sid) (players s) p).
    2:{ eapply Forall_impl; [exact Hfresh|]. intros q Hq.
        by apply bool_decide_eq_false. }
    2:{ by apply bool_decide_eq_true. }
    rewrite lookup_app_last, delete_app_last. simpl.
    assert ((if bool_decide (length (players s) = 0%nat)
             then promoteFirst (players s) else players s) = players s) as ->.
    { case_bool_decide as E; [|done]. by destruct (players s). }
    unfold dropGuesser. simpl.
    destruct s as [a c ps st [g|]]; simpl in *; [|done].
    destruct g as [ri so sp stt [r|]]; simpl in *; [|done].
    destruct r as [rw mk gl hn hs si wi [order|] ti]; simpl in *; [|done].
    destruct (Hround _ _ _ eq_refl eq_refl eq_refl) as [Hnot Hne].
    rewrite (baseline_removeFirst_fresh sid order Hnot).
    assert (bool_decide (length order = 0%nat) && bool_decide (stt = Active) = false)
      as ->.
    { destruct (decide (stt = Active)) as [E|E].
      - rewrite bool_decide_false; [done|]. intros E'. apply (Hne E).
        by apply nil_length_inv.
      - rewrite (bool_decide_false _ E). apply andb_false_r. }
    done. }
  eexists _, _, _, _. split; [exact H1|].
  split.
  { simpl. unfold disconnect. simpl. rewrite !lookup_insert_eq.
    rewrite (bool_decide_false _ Hatv). rewrite Hrem. reflexivity. }
  simpl. split_and!.
  - rewrite insert_insert_eq. by apply insert_id.
  - by rewrite delete_insert_eq, lookup_delete_eq.
  - done.
Qed.

Lemma join_then_disconnect_restores_witness :
  ∃ srv1 out1 srv2 out2,
    handle (serverAfter playing) (PlayerJoin "carol" 30 "abcd" "Carol")
    = Some (srv1, out1)
    ∧ handle srv1 (Disconnect "carol") = Some (srv2, out2)
    ∧ sessions srv2 = sessions (serverAfter playing).
Proof.
  assert (∃ s, sessions (serverAfter playing) !! cleanCode "abcd" = Some s
               ∧ s = mkSession (Some "atv1") 0
                       [mkPlayer "alice" "Alice" true 0; mkPlayer "bob" "Bob" false 0]
                       (mkSettings 3 3 50) (game s)
               ∧ (game s ≫= round) ≫= guesserOrder = Some ["bob"])
    as (s & Hs & Es & Ho).
  { eexists. split; [vm_compute; reflexivity|]. split; reflexivity. }
  destruct (join_then_disconnect_restores (serverAfter playing) "carol" 30 "abcd"
              "Carol" s Hs) as (srv1 & out1 & srv2 & out2 & H1 & H2 & H3 & _).
  - rewrite Es. vm_compute. discriminate.
  - rewrite Es. simpl. lia.
  - rewrite Es. discriminate.
  - rewrite Es. simpl. repeat constructor; discriminate.
  - intros g r order Hg Hr Hord. rewrite Hg in Ho. simpl in Ho.
    rewrite Hr in Ho. simpl in Ho. rewrite Hord in Ho. simplify_eq.
    split; [|done]. by intros [?|[]%elem_of_nil]%elem_of_cons.
  - exists srv1, out1, srv2, out2.
    split; [exact H1|]. split; [exact H2|exact H3].
Defined.

(** X12.  [player:rejoin] of the baseline server with the name of an existing
    player takes that player's slot: the first player of that name gets the
    sender's socket id and keeps position, name, role and score, the list
    keeps its length, and the answer carries the role of the slot.  When
    the slot is the manager's, the sender is a manager afterwards. *)
Theorem rejoin_takes_over_slot srv sid now typed nm s p
    (Hs : sessions srv !! cleanCode typed = Some s)
    (Hlive : now - createdAt s ≤ CODE_TTL_MS)
    (Hp : jsFind (hasName (safeName nm)) (players s) = Some p) :
  let code := cleanCode typed in
  let s' := withPlayers s
              (updateFirst (hasName (safeName nm)) (setId sid) (players s)) in
  handle srv (PlayerRejoin sid now typed nm)
  = Some (bind (putSession srv code s') sid code,
          (ToSocket sid, PlayerJoined code (isManager p))
            :: emitSessionPlayers code s' ++ emitGameState code s')
  ∧ setId sid p ∈ players s'
  ∧ length (players s') = length (players s)
  ∧ (isManager p = true → is_Some (jsFind (isMgr sid) (players s'))).
Proof.
  intros code s'.
  split_and!.
  - simpl. unfold playerRejoin. fold code.
    rewrite (baseline_getSession_live now code srv s Hs Hlive).
    by rewrite Hp.
  - unfold s'. simpl. clear -Hp. unfold jsFind in Hp.
    induction (players s) as [|q l IH]; simpl in *; [done|].
    destruct (hasName (safeName nm) q); [simplify_eq; left|right; auto].
  - unfold s'. simpl. clear. induction (players s) as [|q l IH]; simpl; [done|].
    destruct (hasName _ q); simpl; by rewrite ?IH.
  - intros Hm. unfold s'. simpl. clear -Hp Hm. unfold jsFind in *.
    induction (players s) as [|q l IH]; simpl in *; [done|].
    destruct (hasName (safeName nm) q) eqn:Hq.
    + simplify_eq. simpl. unfold isMgr at 1, hasId. simpl.
      rewrite bool_decide_true by done. rewrite Hm. by eexists.
    + simpl. destruct (isMgr sid q); [by eexists|]. by apply IH.
Qed.

Lemma rejoin_takes_over_slot_witness :
  ∃ srv' out s',
    handle (serverAfter lobby) (PlayerRejoin "mallory" 30 "abcd" "Alice")
    = Some (srv', out)
    ∧ head out = Some (ToSocket "mallory", PlayerJoined "ABCD" true)
    ∧ sessions srv' !! "ABCD" = Some s'
    ∧ players s' = [mkPlayer "mallory" "Alice" true 0; mkPlayer "bob" "Bob" false 0]
    ∧ is_Some (jsFind (isMgr "mallory") (players s')).
Proof.
  assert (∃ s p, sessions (serverAfter lobby) !! cleanCode "abcd" = Some s
                 ∧ 30 - createdAt s ≤ CODE_TTL_MS
                 ∧ jsFind (hasName (safeName "Alice")) (players s) = Some p
                 ∧ isManager p = true) as (s & p & Hs & Hl & Hp & Hm).
  { eexists _, _. split; [vm_compute; reflexivity|].
    split; [vm_compute; discriminate|]. split; reflexivity. }
  destruct (rejoin_takes_over_slot (serverAfter lobby) "mallory" 30 "abcd" "Alice"
              s p Hs Hl Hp) as (H1 & _ & _ & H4).
  eexists _, _, _. split; [exact H1|].
  assert (Some s = Some (mkSession (Some "atv1") 0
            [mkPlayer "alice" "Alice" true 0; mkPlayer "bob" "Bob" false 0]
            (mkSettings 3 3 50) None)) as [= ->].
  { rewrite <- Hs. vm_compute. reflexivity. }
  split; [by rewrite Hm|]. split; [apply lookup_insert_eq|].
  split; [reflexivity|]. vm_compute. by eexists.
Defined.

(** X13.  When the display of a baseline session disconnects, the session is
    deleted and [session:ended] is sent to the room if it has no players;
    with players it is kept, without display and without any message, and
    a later [atv:getPlayers] with the code within the time to live makes the
    requesting socket the display, keeping players, settings and game. *)
Theorem display_disconnect_and_return srv atv s code
    (Hsock : sockCode srv !! atv = Some code)
    (Hs : sessions srv !! code = Some s)
    (Hatv : atvSocketId s = Some atv) :
  (players s = [] →
     handle srv (Disconnect atv)
     = Some (mkServer (delete code (sessions srv)) (delete atv (sockCode srv)),
             [(ToRoom code, SessionEnded)]))
  ∧ (players s ≠ [] →
       let srv1 := mkServer (<[code := withAtv s None]> (sessions srv))
                     (delete atv (sockCode srv)) in
       handle srv (Disconnect atv) = Some (srv1, [])
       ∧ ∀ atv2 now typed,
           cleanCode typed = code → now - createdAt s ≤ CODE_TTL_MS →
           let s2 := withAtv s (Some atv2) in
           handle srv1 (AtvGetPlayers atv2 now typed)
           = Some (bind (putSession srv1 code s2) atv2 code,
                   (ToSocket atv2, SessionCreated code)
                     :: emitSessionPlayers code s2 ++ emitGameState code s2)
           ∧ players s2 = players s ∧ game s2 = game s
           ∧ settings s2 = settings s).
Proof.
  split.
  - intros Hnil. simpl. unfold disconnect. rewrite Hsock, Hs.
    rewrite (bool_decide_true _ Hatv). by rewrite Hnil.
  - intros Hne srv1. split.
    + simpl. unfold disconnect. rewrite Hsock, Hs.
      rewrite (bool_decide_true _ Hatv).
      rewrite bool_decide_true; [done|]. destruct (players s); [done|simpl; lia].
    + intros atv2 now typed Htyped Hlive s2. split; [|done].
      simpl. unfold atvGetPlayers. rewrite Htyped.
      erewrite baseline_getSession_live;
        [|unfold srv1; simpl; apply lookup_insert_eq|done].
      reflexivity.
Qed.

Lemma display_disconnect_and_return_witness :
  ∃ srv1 srv2 out2,
    handle (serverAfter lobby) (Disconnect "atv1") = Some (srv1, [])
    ∧ handle srv1 (AtvGetPlayers "atv2" 40 "abcd") = Some (srv2, out2)
    ∧ (atvSocketId <$> sessions srv2 !! "ABCD") = Some (Some "atv2").
Proof.
  assert (∃ s, sessions (serverAfter lobby) !! "ABCD" = Some s
               ∧ s = mkSession (Some "atv1") 0
                       [mkPlayer "alice" "Alice" true 0; mkPlayer "bob" "Bob" false 0]
                       (mkSettings 3 3 50) None) as (s & Hs & Es).
  { eexists. split; [vm_compute; reflexivity|]. reflexivity. }
  destruct (display_disconnect_and_return (serverAfter lobby) "atv1" s "ABCD")
    as [_ H].
  - vm_compute. reflexivity.
  - exact Hs.
  - by rewrite Es.
  - destruct H as [H1 H2]; [by rewrite Es|].
    destruct (H2 "atv2" 40 "abcd") as [H3 _].
    + vm_compute. reflexivity.
    + rewrite Es. vm_compute. discriminate.
    + eexists _, _, _. split; [exact H1|]. split; [exact H3|].
      simpl. by rewrite lookup_insert_eq.
Defined.

End BaselineComings.

(** ** The order of the setters *)

Lemma repeatIds_lookup laps (ids : list string) i :
  (i < laps * length ids)%nat →
  repeatIds laps ids !! i = ids !! (i mod length ids)%nat.
Proof.
  revert i. induction laps as [|n IH]; intros i Hi; simpl in *; [lia|].
  destruct (decide (i < length ids)%nat) as [Hlt|Hge].
  - rewrite lookup_app_l by done. by rewrite Nat.mod_small.
  - rewrite lookup_app_r by lia. rewrite IH by lia.
    f_equal. assert (length ids ≠ 0)%nat as Hn by lia.
    replace i with ((i - length ids) + 1 * length ids)%nat at 2 by lia.
    by rewrite Nat.Div0.mod_add.
Qed.

Lemma repeatIds_count laps (ids : list string) x :
  length (List.filter (λ y, bool_decide (y = x)) (repeatIds laps ids))
  = (laps * length (List.filter (λ y, bool_decide (y = x)) ids))%nat.
Proof.
  induction laps as [|n IH]; simpl; [done|].
  rewrite List.filter_app, length_app, IH. lia.
Qed.

Lemma NoDup_count_one (ids : list string) x :
  NoDup ids → x ∈ ids →
  length (List.filter (λ y, bool_decide (y = x)) ids) = 1%nat.
Proof.
  induction 1 as [|y l Hy Hl IH]; [by intros ?%elem_of_nil|].
  intros [->|Hx]%elem_of_cons; simpl.
  - rewrite bool_decide_true by done. simpl. f_equal.
    clear -Hy. induction l as [|z l IH]; simpl; [done|].
    apply not_elem_of_cons in Hy as [Hz Hl].
    rewrite bool_decide_false by done. auto.
  - rewrite bool_decide_false by (intros ->; done). auto.
Qed.

Section BaselineRotation.
Import Baseline.

(** X14.  [buildSetterOrder], for [rounds >= 1]: the order has
    [rounds * players.length] entries, entry [k] is the id of the player at
    join position [k mod players.length], and when the ids are distinct
    every player is the setter exactly [rounds] times. *)
Theorem setters_take_turns_in_join_order s
    (Hrounds : 1 ≤ rounds (settings s)) :
  let ids := id <$> players s in
  let laps := Z.to_nat (rounds (settings s)) in
  length (buildSetterOrder s) = (laps * length ids)%nat
  ∧ (∀ k, (k < laps * length ids)%nat →
          buildSetterOrder s !! k = ids !! (k mod length ids)%nat)
  ∧ (NoDup ids →
     ∀ x, x ∈ ids →
       length (List.filter (λ y, bool_decide (y = x)) (buildSetterOrder s)) = laps).
Proof.
  intros ids laps. unfold buildSetterOrder. rewrite (lapsOf_rounds _ Hrounds).
  fold ids laps. split_and!.
  - apply repeatIds_length.
  - intros k Hk. by apply repeatIds_lookup.
  - intros Hnd x Hx. rewrite repeatIds_count, (NoDup_count_one ids x Hnd Hx). lia.
Qed.

Lemma setters_take_turns_in_join_order_witness :
  ∃ s, sessions (serverAfter lobby) !! "ABCD" = Some s
       ∧ buildSetterOrder s !! 3%nat = Some "bob"
       ∧ length (List.filter (λ y, bool_decide (y = "bob")) (buildSetterOrder s))
         = 3%nat.
Proof.
  assert (∃ s, sessions (serverAfter lobby) !! "ABCD" = Some s
               ∧ s = mkSession (Some "atv1") 0
                       [mkPlayer "alice" "Alice" true 0; mkPlayer "bob" "Bob" false 0]
                       (mkSettings 3 3 50) None) as (s & Hs & Es).
  { eexists. split; [vm_compute; reflexivity|]. reflexivity. }
  exists s. split; [done|].
  destruct (setters_take_turns_in_join_order s) as (_ & H2 & H3).
  - rewrite Es. simpl. lia.
  - split.
    + rewrite H2; rewrite Es; simpl; [done|lia].
    + rewrite (H3 ltac:(rewrite Es; by apply (bool_decide_unpack _)) "bob");
        rewrite Es; simpl; [done|by apply (bool_decide_unpack _)].
Defined.

End BaselineRotation.

(** ** Winning a round by a letter *)

Lemma allowed_no_underscore c :
  includes allowedLettersDigits c = true → c ≠ "_"%char.
Proof. each_ascii c; vm_compute; (discriminate || intros _; discriminate). Qed.

Lemma includes_cons c r x :
  includes (String c r) x = bool_decide (c = x) || includes r x.
Proof. reflexivity. Qed.

Lemma baseline_mask_complete raw (G : gset ascii) :
  sall (includes allowedLettersDigits) raw = true →
  includes (Baseline.buildMasked raw G) "_" = false
  ↔ ∀ c, includes raw c = true → isUpperAZ c = true → c ∈ G.
Proof.
  unfold Baseline.buildMasked.
  induction raw as [|d r IH]; [done|].
  cbn [sall smap]. intros [Hd Hr]%andb_true_iff. specialize (IH Hr).
  pose proof (allowed_no_underscore d Hd) as Hu.
  rewrite includes_cons, orb_false_iff, IH. unfold Baseline.maskChar.
  split.
  - intros [H1 H2] c Hc Hup. rewrite includes_cons in Hc.
    apply orb_true_iff in Hc as [Hc|Hc]; [|by apply H2].
    apply bool_decide_eq_true in Hc as <-. rewrite Hup in H1.
    destruct (decide (d ∈ G)) as [|Hd']; [done|].
    rewrite (bool_decide_false _ Hd') in H1. done.
  - intros H. split.
    + destruct (isUpperAZ d) eqn:Hup; [|by apply bool_decide_eq_false].
      rewrite (bool_decide_true (d ∈ G)); [by apply bool_decide_eq_false|].
      apply H; [|done]. rewrite includes_cons. by rewrite bool_decide_true.
    + intros c Hc. apply H. rewrite includes_cons. by rewrite Hc, orb_true_r.
Qed.

Lemma baseline_normalizePhrase_allowed input norm :
  Baseline.normalizePhrase input = Some norm →
  sall (includes allowedLettersDigits) norm = true.
Proof.
  unfold Baseline.normalizePhrase, normalizePhrase.
  destruct (sall _ _) eqn:Hall; [|done]. by intros [= <-].
Qed.

Section BaselineWin.
Import Baseline.

Lemma baseline_raw_step (ok : string → Prop) e code s :
  ok EmptyString →
  (∀ input norm, normalizePhrase input = Some norm → ok norm) →
  (∀ g r, game s = Some g → round g = Some r → ok (raw r)) →
  ∀ g r, game (onSession e code s) = Some g → round g = Some r → ok (raw r).
Proof.
  intros Hnil Hnorm H.
  destruct e; simpl; try done.
  - by case_bool_decide.
  - unfold playerRename. by handler_cases.
  - unfold managerSetSettings. by handler_cases.
  - unfold managerStartGame, startWaitingForPhrase, gameForStart.
    handler_cases; try done; intros g' r' ??; simplify_eq/=; eauto.
  - unfold managerNextRound, maybeGameOver, startWaitingForPhrase.
    handler_cases; try done; intros g' r' ??; simplify_eq/=; eauto.
  - destruct (baseline_submit_cases sid code phrase hnt s)
      as [->|(g & r & norm & _ & _ & _ & _ & Hn & _ & ->)]; [done|].
    intros g' r' ??; simplify_eq/=. by eapply Hnorm.
  - unfold setterShowHint.
    handler_cases; try done; intros g' r' ??; simplify_eq/=; eauto.
  - unfold playerGuessLetter, advanceTurn.
    handler_cases; try done; intros g' r' ??; simplify_eq/=; eauto.
  - unfold playerSolve, advanceTurn.
    handler_cases; try done; intros g' r' ??; simplify_eq/=; eauto.
  - unfold removePlayer, dropGuesser.
    handler_cases; try done; intros g' r' ??; simplify_eq/=; eauto.
Qed.

Lemma baseline_rawAllowed_step e code s : rawAllowed s → rawAllowed (onSession e code s).
Proof.
  unfold rawAllowed. intros H.
  apply (baseline_raw_step (λ x, sall (includes allowedLettersDigits) x = true));
    [done| |done].
  apply baseline_normalizePhrase_allowed.
Qed.

Lemma baseline_rawAllowed srv :
  reachable srv → ∀ code s, sessions srv !! code = Some s → rawAllowed s.
Proof.
  apply (baseline_invariant rawAllowed).
  - by intros atv now g.
  - intros e code s. apply baseline_rawAllowed_step.
Qed.

(** X15.  In a reachable baseline state, a new letter guessed by the player
    whose turn it is is recorded, the mask is rebuilt from the recorded
    letters, and the round is won exactly when every letter A-Z of the
    phrase is then among them; the winner is the guesser.  Otherwise the
    round stays active and the players are unchanged. *)
Theorem letter_wins_iff_phrase_complete srv sid code s g r letter L
    (Hr : reachable srv)
    (Hsock : sockCode srv !! sid = Some code)
    (Hs : sessions srv !! code = Some s)
    (Hg : game s = Some g) (Hact : state g = Active) (Hround : round g = Some r)
    (Hturn : currentTurnPlayerId s = Some sid)
    (HL : letterOf letter = Some L) (Hnew : L ∉ guessedLetters r) :
  ∃ srv' out s' g' r',
    handle srv (PlayerGuessLetter sid letter) = Some (srv', out)
    ∧ sessions srv' !! code = Some s' ∧ game s' = Some g' ∧ round g' = Some r'
    ∧ guessedLetters r' = guessedLetters r ++ [L]
    ∧ masked r' = buildMasked (raw r) (list_to_set (guessedLetters r'))
    ∧ (state g' = Won ∨ state g' = Active)
    ∧ (state g' = Won
       ↔ ∀ c, includes (raw r) c = true → isUpperAZ c = true →
              c ∈ guessedLetters r')
    ∧ (state g' = Won → winnerId r' = Some sid)
    ∧ (state g' = Active → players s' = players s).
Proof.
  pose proof (baseline_rawAllowed srv Hr code s Hs g r Hg Hround) as Hraw.
  pose proof (baseline_mask_complete (raw r)
                (list_to_set (guessedLetters r ++ [L])) Hraw) as Hm.
  assert (∀ c, c ∈ (list_to_set (guessedLetters r ++ [L]) : gset ascii)
               ↔ c ∈ guessedLetters r ++ [L]) as Hset
    by (intros c; apply elem_of_list_to_set).
  simpl. unfold inSession, total. rewrite Hsock, Hs.
  unfold playerGuessLetter. rewrite Hg. cbv beta iota.
  rewrite Hact, Hturn, Hround, HL.
  rewrite !bool_decide_true by done. cbv beta iota. simpl negb. cbv beta iota.
  rewrite (bool_decide_false _ Hnew).
  destruct (includes (buildMasked (raw r) _) "_") eqn:Hinc; simpl.
  - assert (¬ ∀ c, includes (raw r) c = true → isUpperAZ c = true →
                   c ∈ guessedLetters r ++ [L]) as Hnotall.
    { intros Hall. enough (true = false) by done.
      apply Hm. intros c Hc Hup. apply Hset. by apply Hall. }
    eexists _, _, _, _, _. split; [reflexivity|]. simpl.
    rewrite lookup_insert_eq. split; [reflexivity|]. simpl.
    split; [reflexivity|]. split; [reflexivity|].
    unfold advanceTurn. simpl.
    destruct (guesserOrder r) as [[|]|]; simpl; split_and!;
      try done; try (by right); split; try done; intros ?; by destruct Hnotall.
  - eexists _, _, _, _, _. split; [reflexivity|]. simpl.
    rewrite lookup_insert_eq. split; [reflexivity|]. simpl.
    split; [reflexivity|]. split; [reflexivity|]. simpl.
    split_and!; try done; [by left|].
    split; [|done]. intros _ c Hc Hup. apply Hset. by apply Hm.
Qed.

End BaselineWin.

Lemma letter_wins_iff_phrase_complete_witness :
  ∃ srv' out s' g' r',
    Baseline.handle (Baseline.serverAfter Baseline.allButD)
      (Baseline.PlayerGuessLetter "bob" "d") = Some (srv', out)
    ∧ Baseline.sessions srv' !! "ABCD" = Some s'
    ∧ Baseline.game s' = Some g' ∧ Baseline.round g' = Some r'
    ∧ Baseline.guessedLetters r' = ["O"; "H"; "E"; "L"; "W"; "R"; "D"]%char
    ∧ (Baseline.state g' = Won ∨ Baseline.state g' = Active).
Proof.
  assert (∃ s g r,
            Baseline.sessions (Baseline.serverAfter Baseline.allButD) !! "ABCD" = Some s
            ∧ Baseline.game s = Some g ∧ Baseline.round g = Some r
            ∧ Baseline.state g = Active
            ∧ Baseline.guessedLetters r = ["O"; "H"; "E"; "L"; "W"; "R"]%char
            ∧ Baseline.currentTurnPlayerId s = Some "bob")
    as (s & g & r & Hs & Hg & Hr & Hact & Hgl & Hturn).
  { eexists _, _, _. split; [vm_compute; reflexivity|].
    split; [reflexivity|]. by split_and!. }
  assert ("D"%char ∉ Baseline.guessedLetters r) as Hnew.
  { rewrite Hgl. intros Hin%list_elem_of_In. simpl in Hin.
    repeat (destruct Hin as [Hin|Hin]; [discriminate|]). exact Hin. }
  assert (Baseline.sockCode (Baseline.serverAfter Baseline.allButD) !! "bob"
          = Some "ABCD") as Hsock by (vm_compute; reflexivity).
  destruct (letter_wins_iff_phrase_complete (Baseline.serverAfter Baseline.allButD)
              "bob" "ABCD" s g r "d" "D"%char
              (baseline_serverAfter_reachable _) Hsock Hs Hg Hact Hr Hturn
              eq_refl Hnew)
    as (srv' & out & s' & g' & r' & H1 & H2 & H3 & H4 & H5 & _ & H7 & _).
  exists srv', out, s', g', r'. rewrite H5, Hgl.
  split; [exact H1|]. split; [exact H2|]. split; [exact H3|].
  split; [exact H4|]. split; [reflexivity|exact H7].
Defined.

(** ** Solving the phrase *)


Section BaselineSolve.
Import Baseline.



End BaselineSolve.

(** ** The wrong-limit server: settings and phrases *)

Section WrongLimitSettings.
Import WrongLimit.

Lemma wronglimit_settings_step e code s :
  settingsInRange (settings s) → settingsInRange (settings (onSession e code s)).
Proof.
  intros H.
  destruct e as [sid now cd|sid now cd|sid now cd nm|sid now cd nm|sid nm
                |sid r mn mx wl uw|sid|sid|sid now nc|sid phrase hnt|sid
                |sid letter|sid guess|sid]; simpl; try done.
  - unfold playerRename. by repeat case_match.
  - unfold managerSetSettings.
    destruct (jsFind _ _) as [me|]; [|done]. destruct (isManager me); [|done].
    simpl. destruct H as (H1 & H2 & H3 & H4).
    destruct (wronglimit_applySettings_bounds r mn mx wl uw (settings s))
      as (B1 & B2 & B3 & _ & B5).
    unfold settingsInRange.
    destruct B1 as [E1|[_ ?]], B2 as [E2|[_ ?]], B3 as [E3|[_ ?]],
      B5 as [E5|(v & _ & _ & _ & ?)]; rewrite ?E1, ?E2, ?E3, ?E5; lia.
  - unfold managerStartGame, startWaitingForPhrase. by repeat case_match.
  - unfold managerNextRound, maybeGameOver, startWaitingForPhrase.
    repeat case_match; by simplify_eq/=.
  - by destruct (wronglimit_submit_cases sid code phrase hnt s)
      as [->|(g & r & _ & _ & _ & _ & _ & ->)].
  - unfold setterShowHint. repeat case_match; by simplify_eq/=.
  - unfold playerGuessLetter, wrongGuess, finishRoundWithSetterWin.
    repeat case_match; by simplify_eq/=.
  - unfold playerSolve, wrongGuess, finishRoundWithSetterWin.
    destruct (game s) as [g|]; [|done].
    destruct (negb _); [done|]. destruct (negb _); [done|].
    destruct (round g) as [r|]; [|done].
    destruct (normalizePhrase guess) as [[|c n]|]; try done.
    repeat case_match; by simplify_eq/=.
  - unfold removePlayer, dropGuesser, finishRoundWithSetterWin.
    repeat case_match; by simplify_eq/=.
Qed.

(** X17.  In every reachable state of the wrong-limit server the settings are
    in their ranges (rounds 1-20, minLen 1-40, maxLen 1-60, wrongLimit
    1-26); but [minLen] may exceed [maxLen], since only [maxLen] is checked
    against [minLen]: lowering [maxLen] to 10 and then raising [minLen] to
    40 is accepted.  With [maxLen < minLen], [setter:submitPhrase] accepts
    no phrase. *)
Theorem settings_stay_in_range_but_may_cross :
  (∀ srv code s,
     reachable srv → sessions srv !! code = Some s →
     settingsInRange (settings s))
  ∧ (∃ s, sessions (serverAfter crossedLimits) !! "ABCD" = Some s
          ∧ minLen (settings s) = 40 ∧ maxLen (settings s) = 10)
  ∧ (∀ sid code phrase hnt s,
       maxLen (settings s) < minLen (settings s) →
       (setterSubmitPhrase sid code phrase hnt s).1 = s
       ∧ ((setterSubmitPhrase sid code phrase hnt s).2 = []
          ∨ (setterSubmitPhrase sid code phrase hnt s).2
            = [(ToSocket sid, ErrorPhrase (phraseLengthMsg (settings s)))])).
Proof.
  split_and!.
  - intros srv code s Hr. revert code s.
    apply (wronglimit_invariant (λ s, settingsInRange (settings s))); [| |done].
    + intros atv now. unfold settingsInRange. simpl. lia.
    + intros e code s. apply wronglimit_settings_step.
  - eexists. split; [vm_compute; reflexivity|]. by split.
  - intros sid code phrase hnt s Hcross. unfold setterSubmitPhrase.
    destruct (game s) as [g|]; [|by split; [|left]].
    destruct (negb _); [by split; [|left]|].
    destruct (round g) as [r|]; [|by split; [|left]].
    destruct (negb _); [by split; [|left]|].
    rewrite bool_decide_true by lia. by split; [|right].
Qed.

End WrongLimitSettings.

Lemma wronglimit_mask_keeps_underscore raw (G : gset ascii) :
  includes raw "_" = true → includes (WrongLimit.buildMasked raw G) "_" = true.
Proof.
  unfold WrongLimit.buildMasked.
  induction raw as [|d r IH]; [done|]. cbn [smap]. rewrite !includes_cons.
  intros [Hd|Hr]%orb_true_iff.
  - apply bool_decide_eq_true in Hd as ->. by rewrite bool_decide_true.
  - by rewrite IH, orb_true_r.
Qed.

Lemma wronglimit_normalizePhrase_allowed input norm :
  WrongLimit.normalizePhrase input = Some norm →
  sall (includes allowedLetters) norm = true.
Proof.
  unfold WrongLimit.normalizePhrase, normalizePhrase.
  destruct (sall _ _) eqn:Hall; [|done]. by intros [= <-].
Qed.

Section WrongLimitPhrases.
Import WrongLimit.

Lemma wronglimit_wrongGuess_won code s g r g' r' :
  state g = Active →
  game (wrongGuess code s g r).1 = Some g' → round g' = Some r' →
  state g' = Won → winnerId r' = setterId r.
Proof.
  intros Hact. unfold wrongGuess, finishRoundWithSetterWin.
  destruct (_ && _); simpl; intros ???; simplify_eq/=; [done|congruence].
Qed.

(** X18.  The wrong-limit server stores the phrase without checking its
    characters, while [player:solve] compares it with a normalised guess:
    a phrase with a character outside the allow-list of [normalizePhrase]
    is never solved, and a phrase with an underscore is never completed by
    letters either, its mask always containing "_".  Such a round is
    resolved by a guess only in favour of the setter.  The phrase "a_b" is
    accepted. *)
Theorem unchecked_phrase_cannot_be_won sid code s g r
    (Hg : game s = Some g) (Hact : state g = Active) (Hround : round g = Some r) :
  (∀ c guess,
     includes (raw r) c = true → includes allowedLetters c = false →
     ∀ g' r', game (playerSolve sid code guess s).1 = Some g' →
              round g' = Some r' → state g' = Won → winnerId r' = setterId r)
  ∧ (∀ letter,
       includes (raw r) "_" = true →
       ∀ g' r', game (playerGuessLetter sid code letter s).1 = Some g' →
                round g' = Some r' → state g' = Won → winnerId r' = setterId r)
  ∧ (∃ s0 g0 r0,
       sessions (serverAfter underscored) !! "ABCD" = Some s0
       ∧ game s0 = Some g0 ∧ state g0 = Active ∧ round g0 = Some r0
       ∧ raw r0 = "A_B").
Proof.
  split_and!.
  - intros c guess Hc Hbad g' r'. unfold playerSolve. rewrite Hg. cbv beta iota.
    rewrite Hact. rewrite bool_decide_true by done. simpl negb. cbv beta iota.
    destruct (negb _); [simpl; intros; simplify_eq; congruence|].
    rewrite Hround.
    destruct (normalizePhrase guess) as [[|c' n]|] eqn:Hn;
      try (simpl; intros; simplify_eq; congruence).
    case_bool_decide as Heq.
    + exfalso. apply wronglimit_normalizePhrase_allowed in Hn.
      rewrite Heq in Hn. pose proof (sall_includes _ _ _ Hn Hc). congruence.
    + by apply wronglimit_wrongGuess_won.
  - intros letter Hu g' r'. unfold playerGuessLetter. rewrite Hg. cbv beta iota.
    rewrite Hact. rewrite bool_decide_true by done. simpl negb. cbv beta iota.
    destruct (negb _); [simpl; intros; simplify_eq; congruence|].
    rewrite Hround.
    destruct (letterOf letter) as [L|]; [|simpl; intros; simplify_eq; congruence].
    case_bool_decide; [simpl; intros; simplify_eq; congruence|].
    destruct (includes (raw r) L).
    + rewrite (wronglimit_mask_keeps_underscore (raw r) _ Hu). simpl.
      unfold advanceTurn, withTurn.
      intros ???; simplify_eq/=; congruence.
    + intros H1 H2 H3.
      by rewrite (wronglimit_wrongGuess_won _ _ _ _ _ _ Hact H1 H2 H3).
  - eexists _, _, _. split; [vm_compute; reflexivity|].
    split; [reflexivity|]. by split_and!.
Qed.

End WrongLimitPhrases.

Lemma unchecked_phrase_cannot_be_won_witness :
  ∃ s g r,
    WrongLimit.sessions (WrongLimit.serverAfter WrongLimit.underscored) !! "ABCD" = Some s
    ∧ WrongLimit.game s = Some g ∧ WrongLimit.round g = Some r
    ∧ WrongLimit.raw r = "A_B"
    ∧ ∀ g' r',
        WrongLimit.game (WrongLimit.playerSolve "bob" "ABCD" "a_b" s).1 = Some g' →
        WrongLimit.round g' = Some r' → WrongLimit.state g' = Won →
        WrongLimit.winnerId r' = WrongLimit.setterId r.
Proof.
  assert (∃ s g r,
            WrongLimit.sessions (WrongLimit.serverAfter WrongLimit.underscored) !! "ABCD" = Some s
            ∧ WrongLimit.game s = Some g ∧ WrongLimit.round g = Some r
            ∧ WrongLimit.state g = Active ∧ WrongLimit.raw r = "A_B")
    as (s & g & r & Hs & Hg & Hr & Hact & Hraw).
  { eexists _, _, _. split; [vm_compute; reflexivity|].
    split; [reflexivity|]. by split_and!. }
  exists s, g, r. split; [exact Hs|]. split; [exact Hg|]. split; [exact Hr|].
  split; [exact Hraw|].
  apply (proj1 (unchecked_phrase_cannot_be_won "bob" "ABCD" s g r Hg Hact Hr)
           "_"%char "a_b"); [rewrite Hraw; reflexivity|reflexivity].
Defined.

(** ** Leaving a round *)

Lemma findIndex_lookup_id sid (ps : list Player) i :
  findIndex (hasId sid) ps = Some i → ∃ p, ps !! i = Some p ∧ id p = sid.
Proof.
  intros (p & Hp & Hid)%findIndex_Some. exists p. split; [done|].
  by apply bool_decide_eq_true in Hid.
Qed.



(** ** Ending a game *)

Section WrongLimitEnd.
Import WrongLimit.

(** X20.  [manager:endGame] of the wrong-limit server, from a manager: the
    session is deleted and [session:ended] is sent to its room.  When the
    display is connected a new session of the same display is stored under
    a new code, with no players, the default settings and no game, the
    display is bound to it and gets [session:created]; the other sessions
    are untouched, and the later game events of the manager's socket are
    ignored.  Otherwise nothing replaces the session. *)
Theorem end_game_replaces_session srv sid now nc code s m
    (Hsock : sockCode srv !! sid = Some code)
    (Hs : sessions srv !! code = Some s)
    (Hm : jsFind (isMgr sid) (players s) = Some m)
    (Hnew : isCode nc = true)
    (Hfree : sessions srv !! nc = None ∨ nc = code) :
  let fresh := newSession (atvSocketId s) now in
  (handle srv (ManagerEndGame sid now None)
   = Some (withSessions srv (delete code (sessions srv)),
           [(ToRoom code, SessionEnded)]))
  ∧ ∃ srv',
      handle srv (ManagerEndGame sid now (Some nc))
      = Some (srv', (ToRoom code, SessionEnded)
                      :: (ToSocket (atvSocketId s), SessionCreated nc)
                      :: emitSessionPlayers nc fresh ++ emitGameState nc fresh)
      ∧ sessions srv' !! nc = Some fresh
      ∧ sockCode srv' !! atvSocketId s = Some nc
      ∧ (nc ≠ code → sessions srv' !! code = None)
      ∧ (∀ c, c ≠ code → c ≠ nc → sessions srv' !! c = sessions srv !! c)
      ∧ (nc ≠ code → sid ≠ atvSocketId s →
         ∀ e, inGame e = true → sender e = sid → handle srv' e = Some (srv', [])).
Proof.
  intros fresh.
  assert (sessions (withSessions srv (delete code (sessions srv))) !! nc = None)
    as Hnone.
  { simpl. destruct Hfree as [Hf| ->]; [|apply lookup_delete_eq].
    destruct (decide (code = nc)) as [->|Hne]; [apply lookup_delete_eq|].
    by rewrite lookup_delete_ne. }
  split.
  - simpl. unfold managerEndGame. by rewrite Hsock, Hs, Hm.
  - eexists. split.
    { simpl. unfold managerEndGame. rewrite Hsock, Hs, Hm, Hnew.
      rewrite (bool_decide_true _ Hnone). reflexivity. }
    simpl. split_and!.
    + apply lookup_insert_eq.
    + apply lookup_insert_eq.
    + intros Hne. rewrite lookup_insert_ne by done. apply lookup_delete_eq.
    + intros c H1 H2. rewrite lookup_insert_ne by done. by rewrite lookup_delete_ne.
    + intros Hne Hsid e He <-.
      assert (∀ h, inSession
                     (bind (putSession (withSessions srv (delete code (sessions srv)))
                              nc fresh) (atvSocketId s) nc) (sender e) h
                   = Some (bind (putSession (withSessions srv (delete code (sessions srv)))
                                   nc fresh) (atvSocketId s) nc, [])) as Hin.
      { intros h. unfold inSession. simpl.
        rewrite lookup_insert_ne by done. rewrite Hsock.
        rewrite lookup_insert_ne by done. by rewrite lookup_delete_eq. }
      destruct e; try done; simpl; apply Hin.
Qed.

End WrongLimitEnd.

Lemma end_game_replaces_session_witness :
  ∃ srv',
    WrongLimit.handle (WrongLimit.serverAfter WrongLimit.playing)
      (WrongLimit.ManagerEndGame "alice" 50 (Some "WXYZ"))
    = Some (srv', [(ToRoom "ABCD", SessionEnded);
                   (ToSocket "atv1", SessionCreated "WXYZ");
                   (ToRoom "WXYZ", SessionPlayers "WXYZ" []);
                   (ToRoom "WXYZ",
                    GameState (WrongLimit.gameStateView (WrongLimit.newSession "atv1" 50)))])
    ∧ WrongLimit.sessions srv' !! "ABCD" = None.
Proof.
  assert (∃ s m,
            WrongLimit.sessions (WrongLimit.serverAfter WrongLimit.playing) !! "ABCD"
            = Some s
            ∧ WrongLimit.atvSocketId s = "atv1"
            ∧ jsFind (WrongLimit.isMgr "alice") (WrongLimit.players s) = Some m)
    as (s & m & Hs & Hatv & Hm).
  { eexists _, _. split; [vm_compute; reflexivity|]. split; reflexivity. }
  assert (WrongLimit.sockCode (WrongLimit.serverAfter WrongLimit.playing) !! "alice"
          = Some "ABCD") as Hsock by (vm_compute; reflexivity).
  assert (WrongLimit.sessions (WrongLimit.serverAfter WrongLimit.playing) !! "WXYZ"
          = None ∨ "WXYZ" = "ABCD") as Hfree by (left; vm_compute; reflexivity).
  destruct (end_game_replaces_session (WrongLimit.serverAfter WrongLimit.playing)
              "alice" 50 "WXYZ" "ABCD" s m Hsock Hs Hm eq_refl Hfree)
    as (_ & srv' & H1 & _ & _ & H4 & _).
  exists srv'. rewrite Hatv in H1. split; [exact H1|].
  apply H4. discriminate.
Defined.

(** ** Session codes *)

Lemma charAt_lt s i c : charAt s i = Some c → (i < String.length s)%nat.
Proof.
  revert i. induction s as [|d s IH]; intros [|i]; simpl; try done; [lia|].
  intros H. apply IH in H. lia.
Qed.

Lemma drawChars_spec chars len draws code rest :
  drawChars chars len draws = Some (code, rest) →
  String.length code = len ∧ sall (includes chars) code = true
  ∧ ∃ used, draws = used ++ rest ∧ length used = len
            ∧ Forall (λ d, d < String.length chars)%nat used.
Proof.
  revert draws code rest. induction len as [|n IH]; intros draws code rest; simpl.
  - intros [= <- <-]. split_and!; [done..|]. by exists [].
  - destruct draws as [|d draws]; [done|].
    destruct (charAt chars d) as [c|] eqn:Hc; [|done].
    destruct (drawChars chars n draws) as [[s rest']|] eqn:Hd; [|done].
    intros [= <- <-]. destruct (IH _ _ _ Hd) as (Hl & Ha & used & -> & Hu & Hf).
    split_and!.
    + simpl. by rewrite Hl.
    + simpl. by rewrite (charAt_includes _ _ _ Hc), Ha.
    + exists (d :: used). split_and!; [done|simpl; by rewrite Hu|].
      constructor; [by eapply charAt_lt|done].
Qed.

Lemma makeCodeLoop_spec fuel len taken draws code rest :
  makeCodeLoop fuel len taken draws = Some (code, rest) →
  String.length code = len ∧ sall (includes codeChars) code = true
  ∧ taken code = false ∧ ∃ used, draws = used ++ rest.
Proof.
  revert draws. induction fuel as [|k IH]; intros draws; simpl; [done|].
  destruct (drawChars codeChars len draws) as [[c r]|] eqn:Hd; [|done].
  destruct (drawChars_spec _ _ _ _ _ Hd) as (Hl & Ha & used & -> & _).
  destruct (taken c) eqn:Ht.
  - intros H. destruct (IH _ H) as (H1 & H2 & H3 & used' & ->).
    split_and!; [done..|]. exists (used ++ used'). by rewrite app_assoc.
  - intros [= <- <-]. split_and!; [done..|]. by exists used.
Qed.

Lemma makeCodeLoop_fuel len taken :
  (0 < len)%nat →
  ∀ fuel draws fuel',
    (length draws < fuel)%nat → (length draws < fuel')%nat →
    makeCodeLoop fuel len taken draws = makeCodeLoop fuel' len taken draws.
Proof.
  intros Hlen. induction fuel as [|k IH]; intros draws fuel' H1 H2; [lia|].
  destruct fuel' as [|k']; [lia|]. simpl.
  destruct (drawChars codeChars len draws) as [[c r]|] eqn:Hd; [|done].
  destruct (drawChars_spec _ _ _ _ _ Hd) as (_ & _ & used & -> & Hu & _).
  rewrite length_app in H1, H2.
  destruct (taken c); [|done]. apply IH; lia.
Qed.

Lemma codeChars_unambiguous c :
  includes codeChars c = true → includes "0O1I" c = false.
Proof. each_ascii c; vm_compute; (done || discriminate). Qed.

Lemma wronglimit_createCodeLoop_once fuel srv draws n code rest runs :
  WrongLimit.createCodeLoop fuel srv draws n = Some (code, rest, runs) →
  runs = S n ∧ makeCode 4 (WrongLimit.has srv) draws = Some (code, rest).
Proof.
  destruct fuel as [|k]; simpl; [done|].
  destruct (makeCode 4 (WrongLimit.has srv) draws) as [[c r]|] eqn:Hm; [|done].
  destruct (makeCodeLoop_spec _ _ _ _ _ _ Hm) as (_ & _ & Ht & _).
  rewrite Ht. by intros [= <- <- <-].
Qed.

(** X21.  [makeCode] returns, for draws that give one, a code of [len]
    characters of its alphabet (none of 0, O, 1, I) that is not a key of
    [sessions]: the first attempt if that is not in use, and otherwise the
    result for the remaining draws.  [createSession] stores the new session
    under that code, as [atv:createSession] does for the code of the event;
    the [do ... while] around [makeCode] in the [createSession] of the
    wrong-limit server runs its body exactly once. *)
Theorem makeCode_returns_fresh_code :
  (∀ len taken draws code rest,
     makeCode len taken draws = Some (code, rest) →
     String.length code = len ∧ sall (includes codeChars) code = true
     ∧ sall (λ c, negb (includes "0O1I" c)) code = true
     ∧ taken code = false ∧ ∃ used, draws = used ++ rest)
  ∧ (∀ len taken draws code rest,
       drawChars codeChars len draws = Some (code, rest) →
       (taken code = false → makeCode len taken draws = Some (code, rest))
       ∧ (taken code = true → (0 < len)%nat →
          makeCode len taken draws = makeCode len taken rest))
  ∧ (∀ srv atv now draws code srv' rest,
       Baseline.createSession atv now draws srv = Some (code, srv', rest) →
       isCode code = true ∧ Baseline.sessions srv !! code = None
       ∧ srv' = Baseline.putSession srv code (Baseline.newSession atv now)
       ∧ Baseline.handle srv (Baseline.AtvCreateSession atv now code)
         = Some (Baseline.bind srv' atv code,
                 (ToSocket atv, SessionCreated code)
                   :: Baseline.emitSessionPlayers code (Baseline.newSession atv now)
                   ++ Baseline.emitGameState code (Baseline.newSession atv now)))
  ∧ (∀ srv atv now draws code srv' rest,
       WrongLimit.createSession atv now draws srv = Some (code, srv', rest) →
       makeCode 4 (WrongLimit.has srv) draws = Some (code, rest)
       ∧ WrongLimit.createCodeLoop (S (length draws)) srv draws 0
         = Some (code, rest, 1%nat)
       ∧ WrongLimit.handle srv (WrongLimit.AtvCreateSession atv now code)
         = Some (WrongLimit.bind srv' atv code,
                 (ToSocket atv, SessionCreated code)
                   :: WrongLimit.emitSessionPlayers code (WrongLimit.newSession atv now)
                   ++ WrongLimit.emitGameState code (WrongLimit.newSession atv now))).
Proof.
  split_and!.
  - intros len taken draws code rest H.
    destruct (makeCodeLoop_spec _ _ _ _ _ _ H) as (H1 & H2 & H3 & H4).
    split_and!; try done.
    clear -H2. induction code as [|c r IH]; cbn [sall] in *; [done|].
    apply andb_true_iff in H2 as [Hc Hr].
    by rewrite (codeChars_unambiguous c Hc), IH.
  - intros len taken draws code rest Hd. split.
    + intros Ht. unfold makeCode. simpl. by rewrite Hd, Ht.
    + intros Ht Hlen. unfold makeCode.
      transitivity (makeCodeLoop (length draws) len taken rest).
      { cbn [makeCodeLoop]. by rewrite Hd, Ht. }
      destruct (drawChars_spec _ _ _ _ _ Hd) as (_ & _ & used & -> & Hu & _).
      apply makeCodeLoop_fuel; [done| |lia]. rewrite length_app. lia.
  - intros srv atv now draws code srv' rest. unfold Baseline.createSession.
    destruct (makeCode 4 _ draws) as [[c r]|] eqn:Hm; [|done].
    intros [= <- <- <-].
    destruct (makeCodeLoop_spec _ _ _ _ _ _ Hm) as (H1 & H2 & H3 & _).
    apply bool_decide_eq_false in H3.
    assert (Baseline.sessions srv !! c = None) as Hnone.
    { destruct (Baseline.sessions srv !! c) eqn:E; [|done].
      exfalso. apply H3. by eexists. }
    assert (isCode c = true) as Hcode.
    { unfold isCode. rewrite H1, H2. by rewrite bool_decide_true. }
    split_and!; try done.
    simpl. unfold Baseline.atvCreateSession. rewrite Hcode, Hnone.
    by rewrite bool_decide_true.
  - intros srv atv now draws code srv' rest. unfold WrongLimit.createSession.
    destruct (WrongLimit.createCodeLoop _ srv draws 0) as [[[c r] n]|] eqn:Hl; [|done].
    intros [= <- <- <-].
    destruct (wronglimit_createCodeLoop_once _ _ _ _ _ _ _ Hl) as [-> Hm].
    split; [done|]. split; [done|].
    destruct (makeCodeLoop_spec _ _ _ _ _ _ Hm) as (H1 & H2 & H3 & _).
    apply bool_decide_eq_false in H3.
    assert (WrongLimit.sessions srv !! c = None) as Hnone.
    { destruct (WrongLimit.sessions srv !! c) eqn:E; [|done].
      exfalso. apply H3. by eexists. }
    assert (isCode c = true) as Hcode.
    { unfold isCode. rewrite H1, H2. by rewrite bool_decide_true. }
    simpl. unfold WrongLimit.atvCreateSession. rewrite Hcode, Hnone.
    by rewrite bool_decide_true.
Qed.

Lemma makeCode_returns_fresh_code_witness :
  makeCode 4 (Baseline.has (Baseline.serverAfter Baseline.lobby))
    [0; 1; 2; 3; 9; 30; 14; 22]%nat
  = Some ("K8QY", [])
  ∧ Baseline.has (Baseline.serverAfter Baseline.lobby) "K8QY" = false.
Proof.
  assert (makeCode 4 (Baseline.has (Baseline.serverAfter Baseline.lobby))
            [0; 1; 2; 3; 9; 30; 14; 22]%nat = Some ("K8QY", [])) as H.
  { vm_compute. reflexivity. }
  split; [exact H|].
  by destruct (proj1 makeCode_returns_fresh_code _ _ _ _ _ H) as (_ & _ & _ & Ht & _).
Defined.
